(** * NameComparator: a shallow embedding of [NameComparator.py]

    The comparator decides whether two name strings denote the same person.
    This development embeds the comparison pipeline of
    [NameComparator/NameComparator.py] function by function and states the
    properties of the specification over that embedding.

    Conventions.
    - A Python [str] is a list of Unicode code points ([list N]); [len] is
      [length].
    - A Python function that may raise returns a [result]; the exception is
      named by an [exn].
    - The third-party libraries ([fuzzywuzzy], [unidecode], the Unicode
      database behind [str.lower] and the regex class [\w]) and the JSON
      reference tables are not part of the repository sources: they are the
      fields of [externals] and [comparator], over which every definition is
      parametrised.
    - The [lru_cache] that decorates [_getIpaOfOneWord] is the only mutable
      state; it is threaded explicitly.  *)

From Stdlib Require Import ZArith NArith String Ascii Floats Uint63.
From stdpp Require Import base gmap sets list strings.

Set Default Proof Using "Type".

(** ** Exceptions and results *)

Inductive exn : Set :=
  | IndexError
  | ZeroDivisionError
  | AttributeError
  | ValueError
  | KeyError
  | FuelExhausted   (* not a Python exception: a bounded loop of the model ran out of steps *)
  | NotLiteral.     (* not a Python exception: a text pasted into a pattern or a replacement
                       holds regex operators or escapes, which the model does not interpret *)

Inductive result (A : Type) : Type :=
  | Ok (a : A)
  | Raise (e : exn).
Global Arguments Ok {A} a.
Global Arguments Raise {A} e.

Definition bindR {A B} (m : result A) (f : A -> result B) : result B :=
  match m with
  | Ok a => f a
  | Raise e => Raise e
  end.

Notation "x <- m ;; k" := (bindR m (fun x => k))
  (at level 100, m at next level, right associativity).

Definition is_ok {A} (r : result A) : bool :=
  match r with Ok _ => true | Raise _ => false end.

(** Monadic map and left fold, in source order. *)
Fixpoint mapR {A B} (f : A -> result B) (l : list A) : result (list B) :=
  match l with
  | [] => Ok []
  | x :: t => y <- f x;; ys <- mapR f t;; Ok (y :: ys)
  end.

Fixpoint foldR {A S} (f : S -> A -> result S) (s : S) (l : list A) : result S :=
  match l with
  | [] => Ok s
  | x :: t => s' <- f s x;; foldR f s' t
  end.

(** ** Python strings *)

Module Py.

Abbreviation char := N (only parsing).
Abbreviation str := (list N) (only parsing).

(** An ASCII literal as a Python string. *)
Definition py (s : string) : str := map N_of_ascii (list_ascii_of_string s).

Definition ch (a : ascii) : char := N_of_ascii a.

Definition space : char := 32%N.
Definition newline : char := 10%N.
Definition dash : char := 45%N.
Definition star : char := 42%N.
Definition apostrophe : char := 39%N.

Definition eqc (a b : char) : bool := N.eqb a b.

Fixpoint eqs (a b : str) : bool :=
  match a, b with
  | [], [] => true
  | x :: a', y :: b' => eqc x y && eqs a' b'
  | _, _ => false
  end.

Definition in_range (lo hi c : char) : bool := N.leb lo c && N.leb c hi.

(** [str.isspace] on one code point; also the regex class [\s] for [str]
    patterns and the separator set of [str.split()] and [str.strip()]. *)
Definition isspace (c : char) : bool :=
  in_range 9 13 c || in_range 28 32 c || eqc c 133 || eqc c 160
  || eqc c 5760 || in_range 8192 8202 c || eqc c 8232 || eqc c 8233
  || eqc c 8239 || eqc c 8287 || eqc c 12288.

Definition is_ascii (c : char) : bool := N.ltb c 128.
Definition is_lower_az (c : char) : bool := in_range 97 122 c.
Definition is_upper_AZ (c : char) : bool := in_range 65 90 c.
Definition is_digit (c : char) : bool := in_range 48 57 c.

(** [' '.join(words)] *)
Fixpoint py_join (sep : str) (ws : list str) : str :=
  match ws with
  | [] => []
  | [w] => w
  | w :: ws' => w ++ sep ++ py_join sep ws'
  end.

(** [s.split()]: maximal runs of non-whitespace. *)
Fixpoint py_split (s : str) : list str :=
  match s with
  | [] => []
  | c :: s' =>
      if isspace c then py_split s'
      else match s' with
           | [] => [[c]]
           | c' :: _ =>
               if isspace c' then [c] :: py_split s'
               else match py_split s' with
                    | w :: ws => (c :: w) :: ws
                    | [] => [[c]]
                    end
           end
  end.

Fixpoint py_lstrip (s : str) : str :=
  match s with
  | c :: s' => if isspace c then py_lstrip s' else s
  | [] => []
  end.
Definition py_rstrip (s : str) : str := rev (py_lstrip (rev s)).
Definition py_strip (s : str) : str := py_rstrip (py_lstrip s).

Fixpoint startswith (s p : str) {struct p} : bool :=
  match p, s with
  | [], _ => true
  | x :: p', y :: s' => eqc x y && startswith s' p'
  | _ :: _, [] => false
  end.

(** [sub in s] *)
Fixpoint contains (s sub : str) : bool :=
  startswith s sub ||
  match s with
  | [] => false
  | _ :: s' => contains s' sub
  end.

(** [s.find(sub)], with [None] for -1; [s.index(sub)] raises [ValueError]. *)
Fixpoint py_find (s sub : str) : option nat :=
  if startswith s sub then Some 0
  else match s with
       | [] => None
       | _ :: s' => S <$> py_find s' sub
       end.

Definition py_index (s sub : str) : result nat :=
  match py_find s sub with
  | Some i => Ok i
  | None => Raise ValueError
  end.

(** [s.replace(old, new)]: leftmost, non-overlapping occurrences.
    [skip] counts the characters of a match still to be dropped. *)
Fixpoint py_replace_go (old new : str) (skip : nat) (s : str) : str :=
  match s with
  | [] => []
  | c :: s' =>
      match skip with
      | S k => py_replace_go old new k s'
      | O =>
          if startswith s old
          then new ++ py_replace_go old new (length old - 1) s'
          else c :: py_replace_go old new 0 s'
      end
  end.

Definition py_replace (s old new : str) : str :=
  match old with
  | [] => new ++ flat_map (fun c => c :: new) s
  | _ :: _ => py_replace_go old new 0 s
  end.

(** [s.replace(old, new, 1)] *)
Fixpoint py_replace1 (s old new : str) : str :=
  if startswith s old then new ++ drop (length old) s
  else match s with
       | [] => []
       | c :: s' => c :: py_replace1 s' old new
       end.

(** [s.count(c)] for a one-character [c]. *)
Definition count_char (s : str) (c : char) : nat :=
  length (filter (fun x => eqc x c = true) s).

(** [l[i]] for [i >= 0] *)
Definition idx {A} (l : list A) (i : nat) : result A :=
  match l !! i with
  | Some x => Ok x
  | None => Raise IndexError
  end.

(** [l[i]] for any integer [i]: a negative index counts from the end. *)
Definition idxZ {A} (l : list A) (i : Z) : result A :=
  let n := Z.of_nat (length l) in
  if (i <? 0)%Z
  then (if (i + n <? 0)%Z then Raise IndexError else idx l (Z.to_nat (i + n)))
  else idx l (Z.to_nat i).

(** [l[-1]] *)
Definition last_item {A} (l : list A) : result A :=
  match last l with
  | Some x => Ok x
  | None => Raise IndexError
  end.

(** [s[a:b]] for [0 <= a], [0 <= b] (out-of-range bounds are clamped). *)
Definition py_slice {A} (l : list A) (a b : nat) : list A := drop a (take b l).

(** [l[i] = x] *)
Definition set_item {A} (l : list A) (i : nat) (x : A) : result (list A) :=
  if decide (i < length l) then Ok (<[i := x]> l) else Raise IndexError.

(** [lst[a:b] = repl] on a list, for [0 <= a], [0 <= b]. *)
Definition set_slice {A} (l : list A) (a b : nat) (repl : list A) : list A :=
  take a l ++ repl ++ drop (a `max` b) l.

(** [x in l] for a list of strings *)
Definition py_in (x : str) (l : list str) : bool := existsb (eqs x) l.

(** [s.lower()] on the ASCII range; [ulower] is the Unicode database's
    lower-casing of the other code points. *)
Definition py_lower (ulower : char -> str) (s : str) : str :=
  flat_map (fun c => if is_ascii c
                     then [if is_upper_AZ c then (c + 32)%N else c]
                     else ulower c) s.

Definition repeat_char (c : char) (n : nat) : str := replicate n c.

End Py.
Export Py.

(** ** Floats

    [sum(...) / len(...)] is Python's true division: the binary64 quotient of
    two integers (exact conversions for the magnitudes met here, below 2^53). *)

Definition float_of_int (z : Z) : float :=
  if (z <? 0)%Z then PrimFloat.opp (PrimFloat.of_uint63 (Uint63.of_Z (- z)))
  else PrimFloat.of_uint63 (Uint63.of_Z z).

Definition truediv (a b : Z) : result float :=
  if (b =? 0)%Z then Raise ZeroDivisionError
  else Ok (PrimFloat.div (float_of_int a) (float_of_int b)).

(** ** The regular expressions of the source

    Each pattern of the source is a literal text with word boundaries, a
    character class, or a small fixed shape.  A [matcher] tries the pattern at
    one position: it receives the character before the position and the text
    from the position on, and returns the length of the match. *)

Module Re.

Definition matcher := option N -> list N -> option nat.

(** [re.sub(pattern, repl, s)] for a pattern that matches no empty text. *)
Fixpoint sub_go (m : matcher) (repl : str) (skip : nat) (prev : option char) (s : str) : str :=
  match s with
  | [] => []
  | c :: s' =>
      match skip with
      | S k => sub_go m repl k (Some c) s'
      | O =>
          match m prev s with
          | Some (S n) => repl ++ sub_go m repl n (Some c) s'
          | _ => c :: sub_go m repl 0 (Some c) s'
          end
      end
  end.

Definition sub (m : matcher) (repl s : str) : str := sub_go m repl 0 None s.

(** [re.search(pattern, s)]: the span of the leftmost match. *)
Fixpoint search_go (m : matcher) (pos : nat) (prev : option char) (s : str) : option (nat * nat) :=
  match m prev s with
  | Some n => Some (pos, pos + n)
  | None =>
      match s with
      | [] => None
      | c :: s' => search_go m (S pos) (Some c) s'
      end
  end.

Definition search (m : matcher) (s : str) : option (nat * nat) := search_go m 0 None s.

(** The class [\w]: ASCII letters, digits and underscore; [ualnum] is
    [str.isalnum] of the Unicode database on the other code points. *)
Definition is_word (ualnum : char -> bool) (c : char) : bool :=
  if is_ascii c then is_lower_az c || is_upper_AZ c || is_digit c || eqc c 95
  else ualnum c.

(** [\b] between two neighbours (absent at either end of the text). *)
Definition boundary (isw : char -> bool) (prev next : option char) : bool :=
  xorb (from_option isw false prev) (from_option isw false next).

Definition last_or (prev : option char) (pat : str) : option char :=
  match last pat with
  | Some c => Some c
  | None => prev
  end.

(** Length of the longest prefix all of whose characters satisfy [p]
    (a greedy [p*]). *)
Fixpoint span_len (p : char -> bool) (s : str) : nat :=
  match s with
  | c :: s' => if p c then S (span_len p s') else 0
  | [] => 0
  end.

(** A literal text, optionally with [\b] before and after it. *)
Definition lit (isw : char -> bool) (bpre bpost : bool) (pat : str) : matcher :=
  fun prev s =>
    if startswith s pat
       && (negb bpre || boundary isw prev (head s))
       && (negb bpost || boundary isw (last_or prev pat) (head (drop (length pat) s)))
    then Some (length pat) else None.

(** A text that is pasted into a pattern matches itself, and nothing else,
    when it holds none of the operator characters of [re]: the full stop,
    caret, dollar, asterisk, plus, question mark, braces, brackets, vertical
    bar, parentheses and the backslash (code 92). *)
Definition is_special (c : char) : bool :=
  existsb (eqc c) (py ".^$*+?{}[]|()") || eqc c 92.

Definition literal_pattern (s : str) : bool := forallb (fun c => negb (is_special c)) s.

(** A replacement text is written as it is when it holds no backslash. *)
Definition literal_template (s : str) : bool := forallb (fun c => negb (eqc c 92)) s.

(** ASCII case folding of one character, for [re.IGNORECASE]. *)
Definition fold_case (c : char) : char := if is_upper_AZ c then (c + 32)%N else c.

Fixpoint startswith_ci (s p : str) {struct p} : bool :=
  match p, s with
  | [], _ => true
  | x :: p', y :: s' => eqc (fold_case x) (fold_case y) && startswith_ci s' p'
  | _ :: _, [] => false
  end.

(** [\bword\b] under [re.IGNORECASE]. *)
Definition lit_ci (isw : char -> bool) (pat : str) : matcher :=
  fun prev s =>
    if startswith_ci s pat
       && boundary isw prev (head s)
       && boundary isw (last_or prev (take (length pat) s)) (head (drop (length pat) s))
    then Some (length pat) else None.

(** [\b(w1|w2|...)\b]: the first alternative, in order, after which a
    boundary holds. *)
Fixpoint first_alt (isw : char -> bool) (alts : list str) (prev : option char) (s : str) : option nat :=
  match alts with
  | [] => None
  | w :: alts' =>
      if startswith s w && boundary isw (last_or prev w) (head (drop (length w) s))
      then Some (length w)
      else first_alt isw alts' prev s
  end.

Definition alt_words (isw : char -> bool) (alts : list str) : matcher :=
  fun prev s => if boundary isw prev (head s) then first_alt isw alts prev s else None.

(** [[1-9][a-z]2,6]: a digit, a lower-case letter, then the three characters
    [2,6] (the pattern has no braces, so they are literal). *)
Definition digit_letter_26 : matcher :=
  fun _ s =>
    match s with
    | d :: l :: rest =>
        if in_range 49 57 d && is_lower_az l && startswith rest (py "2,6")
        then Some 5 else None
    | _ => None
    end.

(** [[a-z]+ or ] *)
Definition letters_or : matcher :=
  fun _ s =>
    let n := span_len is_lower_az s in
    if bool_decide (0 < n) && startswith (drop n s) (py " or ")
    then Some (n + 4) else None.

(** [ or [a-z]+] *)
Definition or_letters : matcher :=
  fun _ s =>
    if startswith s (py " or ")
    then let n := span_len is_lower_az (drop 4 s) in
         if bool_decide (0 < n) then Some (4 + n) else None
    else None.

(** [\b{text}\w*\b]: greedy [\w*]; with an empty run the closing boundary
    sits right after the literal text. *)
Definition lit_then_word (isw : char -> bool) (text : str) : matcher :=
  fun prev s =>
    if startswith s text && boundary isw prev (head s)
    then let rest := drop (length text) s in
         let n := span_len isw rest in
         if bool_decide (0 < n) then Some (length text + n)
         else if boundary isw (last_or prev text) (head rest) then Some (length text)
         else None
    else None.

(** [{text}.]: the text followed by any character but a newline. *)
Definition lit_then_any (text : str) : matcher :=
  fun _ s =>
    if startswith s text
    then match drop (length text) s with
         | c :: _ => if eqc c newline then None else Some (length text + 1)
         | [] => None
         end
    else None.

(** [{bread1}({meat1}|{meat2}){bread2}] for literal breads and meats: at one
    position the first alternative is tried first. *)
Definition sandwich (bread1 meat1 meat2 bread2 : str) : matcher :=
  fun _ s =>
    if startswith s (bread1 ++ meat1 ++ bread2) then Some (length (bread1 ++ meat1 ++ bread2))
    else if startswith s (bread1 ++ meat2 ++ bread2) then Some (length (bread1 ++ meat2 ++ bread2))
    else None.

(** [re.sub] of a run pattern (one or more spaces, or [\s+]) by one space:
    every run of characters of the class becomes one space. *)
Fixpoint squeeze (p : char -> bool) (inrun : bool) (s : str) : str :=
  match s with
  | [] => []
  | c :: s' =>
      if p c then (if inrun then squeeze p true s' else space :: squeeze p true s')
      else c :: squeeze p false s'
  end.

(** [re.sub] of the class of whitespace other than the space, by a space. *)
Definition blank_to_space (s : str) : str :=
  map (fun c => if isspace c && negb (eqc c space) then space else c) s.

(** The punctuation class of the cleaner: full stop, comma, question mark,
    semicolon, double quote (code 34), asterisk and both parentheses. *)
Definition is_punct (c : char) : bool :=
  existsb (eqc c) (py ".,?;*()") || eqc c 34.

Definition drop_punct (s : str) : str := filter (fun c => is_punct c = false) s.

(** The pattern of an apostrophe followed by one or more spaces, replaced by
    the apostrophe: the spaces that follow an apostrophe go. *)
Fixpoint apostrophe_spaces (after : bool) (s : str) : str :=
  match s with
  | [] => []
  | c :: s' =>
      if after && eqc c space then apostrophe_spaces true s'
      else c :: apostrophe_spaces (eqc c apostrophe) s'
  end.

(** [re.sub] of a character followed by repetitions of itself, by the
    character: a run of one repeated character (other than a newline, which
    the dot does not match) shrinks to that character. *)
Fixpoint squeeze_repeats (prev : option char) (s : str) : str :=
  match s with
  | [] => []
  | c :: s' =>
      if bool_decide (prev = Some c) && negb (eqc c newline)
      then squeeze_repeats prev s'
      else c :: squeeze_repeats (Some c) s'
  end.

End Re.

(** ** External libraries and reference tables *)

(** What the comparator imports: [fuzz.ratio] and [fuzz.partial_ratio] of
    fuzzywuzzy, the transliteration table of unidecode for the code points
    outside ASCII, the Unicode database ([str.lower], [str.isalnum]), and the
    order in which the interpreter iterates over [set(l)]. *)
Record externals := Externals {
  fuzz_ratio : str -> str -> Z;
  fuzz_partial_ratio : str -> str -> Z;
  unidecode_table : char -> str;
  unicode_lower : char -> str;
  unicode_isalnum : char -> bool;
  set_order : list str -> list str;
}.

(** A rewrite rule as [__init__] leaves it, its placeholders expanded:
    [rule[0]] .. [rule[4]]. *)
Record rule := Rule {
  meatOption1 : str;
  meatOption2 : str;
  bottomBreadOptions : list str;
  topBreadOptions : list str;
  minRequiredLetters : nat;
}.

(** The attributes of a [NameComparator] instance. *)
Record comparator := Comparator {
  namesToIpa : gmap (list N) (list N);
  syllableToIpa : gmap (list N) (list N);
  topSurnames : gset (list N);
  ipaRules : list rule;
  spellingRules : list rule;
  nicknameSets : list (list (list N));
  nicknameToNicknameSetNum : gmap (list N) (list nat);
}.

(** [enumerate(l, start)] *)
Fixpoint enumerate_from {A} (start : nat) (l : list A) : list (nat * A) :=
  match l with
  | [] => []
  | x :: t => (start, x) :: enumerate_from (S start) t
  end.

Definition enumerate {A} (l : list A) : list (nat * A) := enumerate_from 0 l.

(** The reverse nickname index that [__init__] builds: a name maps to the
    numbers of the sets that hold it, in order. *)
Definition indexNickname (i : nat) (m : gmap (list N) (list nat)) (name : str)
  : gmap (list N) (list nat) :=
  match m !! name with
  | Some (n :: l) => <[name := (n :: l) ++ [i]]> m
  | _ => <[name := [i]]> m
  end.

Definition buildNicknameIndex (sets : list (list str)) : gmap (list N) (list nat) :=
  fold_left (fun m '(i, ns) => fold_left (indexNickname i) ns m)
            (enumerate sets) ∅.

(** [__init__], from the parsed JSON tables. *)
Definition NameComparator_init
    (names syllables : gmap (list N) (list N)) (surnames : list str)
    (rulesIpa rulesSpelling : list rule) (nicknames : list (list str)) : comparator :=
  {| namesToIpa := names;
     syllableToIpa := syllables;
     topSurnames := list_to_set surnames;
     ipaRules := rulesIpa;
     spellingRules := rulesSpelling;
     nicknameSets := nicknames;
     nicknameToNicknameSetNum := buildNicknameIndex nicknames |}.

(** ** Helpers shared by the word aligners *)

(** One entry of a word combination: index in the first name, index in the
    second name, score.  (The source keeps the two indices as the decimal
    strings it cut out of the labels it built from the loop counters, and
    reads them back with [int].) *)
Abbreviation Entry := (nat * nat * Z)%type (only parsing).
Abbreviation Combo := (list (nat * nat * Z)) (only parsing).

Definition e_left (t : Entry) : nat := t.1.1.
Definition e_right (t : Entry) : nat := t.1.2.
Definition e_score (t : Entry) : Z := t.2.

(** [itertools.combinations(l, k)], in the order of the iterator. *)
Fixpoint combinations {A} (l : list A) (k : nat) {struct l} : list (list A) :=
  match k with
  | O => [[]]
  | S k' =>
      match l with
      | [] => []
      | x :: t => map (cons x) (combinations t k') ++ combinations t k
      end
  end.

(** [len(set(l)) == len(l)] *)
Definition all_distinct (l : list nat) : bool :=
  bool_decide (length (remove_dups l) = length l).

(** The filter of the valid combinations: no left index and no right index
    is used twice. *)
Definition valid_combo (c : Combo) : bool :=
  all_distinct (map e_left c) && all_distinct (map e_right c).

Definition sum_scores (c : Combo) : Z := fold_right Z.add 0%Z (map e_score c).

(** [max(l, key=...)] and [min(l, key=...)]: the first extremal element. *)
Definition max_by {A} (key : A -> Z) (l : list A) : result A :=
  match l with
  | [] => Raise ValueError
  | x :: t => Ok (fold_left (fun best y => if (key best <? key y)%Z then y else best) t x)
  end.

Definition min_by {A} (key : A -> Z) (l : list A) : result A :=
  match l with
  | [] => Raise ValueError
  | x :: t => Ok (fold_left (fun best y => if (key y <? key best)%Z then y else best) t x)
  end.

(** [sum(tup[2] for tup in combo) / len(combo)] *)
Definition averageScore (c : Combo) : result float :=
  truediv (sum_scores c) (Z.of_nat (length c)).

(** ** The comparator *)

Section NameComparator.

Context (lib : externals) (self : comparator).

Definition isw : char -> bool := Re.is_word (unicode_isalnum lib).
Definition lower : str -> str := py_lower (unicode_lower lib).

(** [unidecode(s)]: ASCII passes through, the other code points are looked up
    in the library's table. *)
Definition unidecode (s : str) : str :=
  flat_map (fun c => if is_ascii c then [c] else unidecode_table lib c) s.

(** *** Word-pair aligner *)

(** The score of one pair of words: the body of the double loop of
    [_findWhichWordsMatchAndHowWell]. *)
Definition pairScore (word0 word1 : str) : result Z :=
  let rScore := fuzz_ratio lib word0 word1 in
  let prScore := fuzz_partial_ratio lib word0 word1 in
  let score := Z.max rScore prScore in
  c0 <- idx word0 0;;
  c1 <- idx word1 0;;
  let score := if negb (eqc c0 c1) then rScore else score in
  let score :=
    if bool_decide (length word0 = 1) || bool_decide (length word1 = 1)
    then (if eqc c0 c1 then 100%Z else 0%Z)
    else score in
  Ok score.

Definition scoreRow (words1 : list str) (iw : nat * str) : result Combo :=
  mapR (fun jw : nat * str => s <- pairScore iw.2 jw.2;; Ok (iw.1, jw.1, s))
       (enumerate words1).

Definition scoreTable (words0 words1 : list str) : result Combo :=
  rows <- mapR (scoreRow words1) (enumerate words0);; Ok (concat rows).

Definition letterCount (words0 words1 : list str) (c : Combo) : result nat :=
  foldR (fun n (t : Entry) =>
           w0 <- idx words0 (e_left t);;
           w1 <- idx words1 (e_right t);;
           Ok (n + (length w0 + length w1)))
        0 c.

(** The last loop: the first combination of maximal sum that has strictly
    more letters than every one before it. *)
Definition pickMostLetters (words0 words1 : list str) (st : Combo * nat) (c : Combo)
  : result (Combo * nat) :=
  n <- letterCount words0 words1 c;;
  if bool_decide (st.2 < n) then Ok (c, n) else Ok st.

Definition _findWhichWordsMatchAndHowWell (name0 name1 : str) : result Combo :=
  let words0 := py_split name0 in
  let words1 := py_split name1 in
  scores <- scoreTable words0 words1;;
  let minLength := length words0 `min` length words1 in
  let combinations := combinations scores minLength in
  let validCombinations := filter (fun c => valid_combo c = true) combinations in
  best <- max_by sum_scores validCombinations;;
  let maxSum := sum_scores best in
  let maxCombinations := filter (fun c => sum_scores c = maxSum) validCombinations in
  st <- foldR (pickMostLetters words0 words1) ([], 0) maxCombinations;;
  Ok st.1.

(** *** Short and generic gates *)

Definition _eitherNameTooShort (name0 name1 : str) : result bool :=
  combo <- _findWhichWordsMatchAndHowWell name0 name1;;
  let shortestWordCount := length combo in
  Ok (bool_decide (shortestWordCount < 2)).

Definition _hasRareSurname (name : str) : result bool :=
  let name := lower name in
  surname <- last_item (py_split name);;
  Ok (bool_decide (surname ∉ topSurnames self)).

Definition _eitherNameTooGeneric (name0 name1 : str) : result bool :=
  combo <- _findWhichWordsMatchAndHowWell name0 name1;;
  let shortestWordCount := length combo in
  rare0 <- _hasRareSurname name0;;
  bothRare <- (if (rare0 : bool) then _hasRareSurname name1 else Ok false);;
  if (bothRare : bool) then Ok false
  else
    let words0 := py_split name0 in
    let words2 := py_split name1 in
    nonInitialMatchCount <-
      foldR (fun n (t : Entry) =>
               word0 <- idx words0 (e_left t);;
               word1 <- idx words2 (e_right t);;
               let initialInWord1 := bool_decide (length word0 = 1) in
               let initialInWord2 := bool_decide (length word1 = 1) in
               Ok (if initialInWord1 || initialInWord2 then n + 1 else n))
            0 combo;;
    Ok (bool_decide (shortestWordCount <= nonInitialMatchCount + 1)).

(** *** Nickname substitution *)

(** The innermost loop of [_removeNicknames]: the first nickname of the set
    that occurs in the second name and not in both names. *)
Definition firstUsableNickname (words0 words1 nicknames : list str) : option str :=
  List.find (fun nickname =>
               negb (py_in nickname words0 && py_in nickname words1)
               && py_in nickname words1)
            nicknames.

(** The loop over the sets of [word0], left at the first substitution.
    [set(...)] is iterated in the interpreter's order; [nicknames.remove]
    raises [KeyError] when [word0] is not in the set. *)
Fixpoint nicknameInSets (word0 : str) (words0 words1 : list str) (setNumbers : list nat)
  : result (option str) :=
  match setNumbers with
  | [] => Ok None
  | num :: rest =>
      members <- idx (nicknameSets self) num;;
      if py_in word0 members
      then
        let nicknames := filter (fun x => eqs x word0 = false) (set_order lib members) in
        match firstUsableNickname words0 words1 nicknames with
        | Some nickname => Ok (Some nickname)
        | None => nicknameInSets word0 words0 words1 rest
        end
      else Raise KeyError
  end.

(** [re.sub(rf"\b{word0}\b", nickname, name0, flags=re.IGNORECASE)]: the
    word is pasted into the pattern and the nickname is the replacement
    template.  For a word without regex operators and a nickname without
    backslash this is the substitution of the literal word between two word
    boundaries; for the other texts the regex compiler decides (an error, or
    another match), which the model does not follow: it stops with
    [NotLiteral]. *)
Definition substituteNickname (word0 nickname name0 : str) : result str :=
  if Re.literal_pattern word0 && Re.literal_template nickname
  then Ok (Re.sub (Re.lit_ci isw word0) nickname name0)
  else Raise NotLiteral.

Definition _removeNicknames (name0 name1 : str) : result (str * str) :=
  let words0 := py_split name0 in
  let words1 := py_split name1 in
  name0 <- foldR (fun name0 word0 =>
                   if py_in word0 words1 then Ok name0
                   else match nicknameToNicknameSetNum self !! word0 with
                        | None => Ok name0
                        | Some setNumbers =>
                            found <- nicknameInSets word0 words0 words1 setNumbers;;
                            match found with
                            | Some nickname => substituteNickname word0 nickname name0
                            | None => Ok name0
                            end
                        end)
                name0 words0;;
  Ok (name0, name1).

(** *** Spelling matcher and consonant skeleton *)

Definition is_vowel (c : char) : bool := existsb (eqc c) (py "aeiouy").

Definition reduceToSimpleConsonants (string : str) : str :=
  let string := map (fun c => if is_vowel c then star else c) string in
  let string := py_replace string (py "**") (py "*") in
  Re.squeeze_repeats None string.

(** One round of the loop of [_consonantComparison]: does the pair count as a
    consonant match? *)
Definition consonantPairMatches (name0 name1 : str) (tup : Entry) : result bool :=
  word0 <- idx (py_split name0) (e_left tup);;
  word1 <- idx (py_split name1) (e_right tup);;
  let originalScoreForWords := e_score tup in
  let consonantsName0 := reduceToSimpleConsonants word0 in
  let consonantsName1 := reduceToSimpleConsonants word1 in
  let consonantsRatio := fuzz_ratio lib consonantsName0 consonantsName1 in
  if (originalScoreForWords <=? 30)%Z then Ok false
  else if negb (bool_decide (length word0 = 1)) && negb (bool_decide (length word1 = 1))
          && bool_decide (count_char consonantsName0 star `min` count_char consonantsName1 star < 2)
  then Ok false
  else if ((consonantsRatio <=? 80)%Z || (originalScoreForWords <=? 60)%Z)
          && negb (consonantsRatio =? 100)%Z
  then Ok false
  else Ok true.

Definition consonantMatchCount (name0 name1 : str) (wordCombo : Combo) : result nat :=
  foldR (fun n tup => b <- consonantPairMatches name0 name1 tup;;
                      Ok (if (b : bool) then n + 1 else n))
        0 wordCombo.

Definition _consonantComparison (name0 name1 : str) : result bool :=
  wordCombo <- _findWhichWordsMatchAndHowWell name0 name1;;
  let minRequiredMatches := length wordCombo in
  numWordConsonantMatches <- consonantMatchCount name0 name1 wordCombo;;
  Ok (bool_decide (minRequiredMatches < numWordConsonantMatches)
      || bool_decide (3 <= numWordConsonantMatches)).

(** [sum(1 for tup in wordCombo if tup[2] > 80)] *)
Definition goodScoreCount (wordCombo : Combo) : nat :=
  length (filter (fun tup => (80 < e_score tup)%Z) wordCombo).

Definition _spellingComparison (name0 name1 : str) : result (bool * Combo) :=
  wordCombo <- _findWhichWordsMatchAndHowWell name0 name1;;
  let count := goodScoreCount wordCombo in
  let minLength := length (py_split name0) `min` length (py_split name1) in
  if bool_decide (3 <= count) || bool_decide (count = minLength)
  then Ok (true, wordCombo)
  else
    consonants <- _consonantComparison name0 name1;;
    if (consonants : bool) then Ok (true, wordCombo)
    else Ok (false, wordCombo).

(** *** Worth-continuing gate *)

(** [name0[int(match[0])]] and [name1[int(match[1])]] index the two names
    themselves, so [word0] and [word1] are one-character strings. *)
Definition oneLetterMatchFails (name0 name1 : str) (m : Entry) : result bool :=
  c0 <- idx name0 (e_left m);;
  c1 <- idx name1 (e_right m);;
  let word0 : str := [c0] in
  let word1 : str := [c1] in
  let score := e_score m in
  Ok ((score =? 0)%Z
      && (bool_decide (length word0 = 1) || bool_decide (length word1 = 1))).

Definition _isWorthContinuing (name0 name1 : str) : result bool :=
  wordCombo <- _findWhichWordsMatchAndHowWell name0 name1;;
  oneLetterMatchFailCount <-
    foldR (fun n m => b <- oneLetterMatchFails name0 name1 m;;
                      Ok (if (b : bool) then n + 1 else n))
          0 wordCombo;;
  if bool_decide (1 <= oneLetterMatchFailCount) && bool_decide (length wordCombo <= 3)
  then Ok false
  else Ok true.

(** *** Editing words in place *)

(** [NameEditor]: the two word lists, updated by index. *)
Record NameEditor := { ne_words0 : list (list N); ne_words1 : list (list N) }.

Definition NameEditor_init (name0 name1 : str) : NameEditor :=
  {| ne_words0 := py_split name0; ne_words1 := py_split name1 |}.

Definition updateName0 (ne : NameEditor) (index : nat) (updatedWord : str) : result NameEditor :=
  ws <- set_item (ne_words0 ne) index updatedWord;;
  Ok {| ne_words0 := ws; ne_words1 := ne_words1 ne |}.

Definition updateName1 (ne : NameEditor) (index : nat) (updatedWord : str) : result NameEditor :=
  ws <- set_item (ne_words1 ne) index updatedWord;;
  Ok {| ne_words0 := ne_words0 ne; ne_words1 := ws |}.

Definition getModifiedNames (ne : NameEditor) : str * str :=
  (py_join [space] (ne_words0 ne), py_join [space] (ne_words1 ne)).

Definition _getPairIndicesAndWords (name0 name1 : str) : result (list (nat * nat * str * str)) :=
  combo <- _findWhichWordsMatchAndHowWell name0 name1;;
  let words0 := py_split name0 in
  let words1 := py_split name1 in
  mapR (fun tup : Entry =>
          w0 <- idx words0 (e_left tup);;
          w1 <- idx words1 (e_right tup);;
          Ok (e_left tup, e_right tup, w0, w1))
       combo.

(** [_calculateEditImprovement]: the float difference of the two averages. *)
Definition _calculateEditImprovement (name0 name1 name0Edited name1Edited : str)
  : result (float * Combo * Combo) :=
  ogWordCombo <- _findWhichWordsMatchAndHowWell name0 name1;;
  editedWordCombo <- _findWhichWordsMatchAndHowWell name0Edited name1Edited;;
  ogAverageScore <- averageScore ogWordCombo;;
  editedAverageScore <- averageScore editedWordCombo;;
  let diff := PrimFloat.sub editedAverageScore ogAverageScore in
  Ok (diff, ogWordCombo, editedWordCombo).

(** *** Single-name cleaner *)

Definition squeeze_spaces (s : str) : str := Re.squeeze (fun c => eqc c space) false s.
Definition squeeze_whitespace (s : str) : str := Re.squeeze isspace false s.

(** [re.sub] of a word between two word boundaries, by the empty string. *)
Definition remove_word (word : string) (name : str) : str :=
  Re.sub (Re.lit isw true true (py word)) [] name.

(** The input is a [str]; the [isinstance] test of the source only concerns
    other types. *)
Definition _cleanNameByItself (name : str) : str :=
  (* Deal with blank names *)
  if eqs name [] then py "_" else
  (* Deal with whitespace *)
  let name := Re.blank_to_space name in
  let name := squeeze_spaces name in
  let name := py_strip name in
  (* Standardize name into ascii *)
  let name := unidecode name in
  let name := lower name in
  (* Deal with blank names again *)
  if eqs name [] then py "_" else
  (* Remove punctuation *)
  let name := Re.drop_punct name in
  (* Remove spaces after apostrophe *)
  let name := Re.apostrophe_spaces false name in
  (* Remove jr and sr; the replace calls look for the text of the pattern,
     backslashes included *)
  let name := py_replace (remove_word "jr" name) (py "\bjunior\b") [] in
  let name := py_replace (remove_word "sr" name) (py "\bsenior\b") [] in
  (* Remove titles *)
  let name := py_replace (remove_word "prof" name) (py "\bprofessor\b") [] in
  let name := py_replace (remove_word "mr" name) (py "\bmister\b") [] in
  let name := py_replace (remove_word "mrs" name) (py "\bmissus\b") [] in
  let name := py_replace (remove_word "ms" name) (py "\bmiss\b") [] in
  let name := py_replace (remove_word "dr" name) (py "\bdoctor\b") [] in
  let name := remove_word "student" name in
  let name := remove_word "rev" name in
  let name := py_replace name (py "reverend") [] in
  (* Remove family relations *)
  let name := remove_word "sister" name in
  let name := remove_word "brother" name in
  let name := remove_word "mother" name in
  let name := remove_word "father" name in
  let name := Re.sub (Re.lit isw false false (py " in law")) [space] name in
  (* Removes head of household *)
  let name := py_replace name (py "head of household") [] in
  (* Remove more than one space again *)
  let name := squeeze_spaces name in
  (* Remove stuff like the 3rd *)
  let name := py_replace (Re.sub Re.digit_letter_26 [] name) (py " the ") [] in
  (* Remove Roman numerals *)
  let name := py_join [space]
                (map (Re.sub (Re.alt_words isw [py "ii"; py "iii"; py "iv"]) [])
                     (py_split name)) in
  let name := squeeze_spaces name in
  let name := py_strip name in
  (* Remove no suffix *)
  let name := py_replace name (py "no suffix") [] in
  (* Deal with Dutch names *)
  let name := Re.sub (Re.lit isw true false (py "van de")) (py "vande") name in
  let name := Re.sub (Re.lit isw true false (py "van den")) (py "vanden") name in
  let name := Re.sub (Re.lit isw true false (py "van der")) (py "vander") name in
  (* Deal with whitespace one last time, then return *)
  let name := squeeze_spaces name in
  let name := py_strip name in
  name.

(** *** Pair-aware cleaner *)

(** A [for] loop whose body may [return]: [Some r] leaves the function with
    [r], [None] goes on with the next element; [default] is the value
    returned after the loop. *)
Fixpoint forReturn {A R} (body : A -> result (option R)) (l : list A) (default : R) : result R :=
  match l with
  | [] => Ok default
  | x :: t =>
      r <- body x;;
      match r with
      | Some v => Ok v
      | None => forReturn body t default
      end
  end.

Definition abs_diff (a b : nat) : nat := (a - b) `max` (b - a).

(** The body of the loop of [_combineSplitWords]. *)
Definition combineSplitWordsStep (name0 name1 : str) (words0 : list str)
    (p : nat * nat * str * str) : result (option (bool * str * str)) :=
  let '(index0, _, word0, word1) := p in
  (* Skip if word0 and word1 are not a good match *)
  if (fuzz_partial_ratio lib word0 word1 <? 75)%Z then Ok None
  (* Skip if either word is only an initial *)
  else if bool_decide (length word0 = 1) || bool_decide (length word1 = 1) then Ok None
  else
    (* Find the left and right neighbors *)
    leftNeighbor <- (if bool_decide (1 <= index0) then idx words0 (index0 - 1) else Ok []);;
    rightNeighbor <- (if bool_decide (index0 + 1 < length words0) then idx words0 (index0 + 1) else Ok []);;
    (* Skip neighbors if they are initials *)
    let leftNeighbor : str := if bool_decide (1 < length leftNeighbor) then leftNeighbor else [] in
    let rightNeighbor : str := if bool_decide (1 < length rightNeighbor) then rightNeighbor else [] in
    if eqs leftNeighbor [] && eqs rightNeighbor [] then Ok (Some (false, name0, name1))
    else
      (* Choose the neighbor that best matches word0's match (word1) *)
      let leftWasChosen :=
        if eqs leftNeighbor [] then false
        else if eqs rightNeighbor [] then true
        else
          let leftScore := fuzz_partial_ratio lib leftNeighbor word1 in
          let rightScore := fuzz_partial_ratio lib rightNeighbor word1 in
          (rightScore <? leftScore)%Z in
      (* Initialize the chosen neighbor, compound, and neighbor index *)
      let chosenNeighbor := if leftWasChosen then leftNeighbor else rightNeighbor in
      let compound := if leftWasChosen then leftNeighbor ++ word0 else word0 ++ rightNeighbor in
      let indexN := if leftWasChosen then index0 - 1 else index0 + 1 in
      (* Skip if the neighbor is a bad partial match to word0's match *)
      if (fuzz_partial_ratio lib chosenNeighbor word1 <? 65)%Z then Ok None
      else
        (* Check if the compound is significantly better than the original *)
        let ogScore := fuzz_ratio lib word0 word1 in
        let compoundScore := fuzz_ratio lib compound word1 in
        if (compoundScore <? ogScore + 20)%Z then Ok None
        else
          let diffLength0 := abs_diff (length word1) (length word0) in
          let diffLengthCompound := abs_diff (length word1) (length compound) in
          if bool_decide (diffLength0 < diffLengthCompound) then Ok None
          else
            let ne := NameEditor_init name0 name1 in
            ne <- updateName0 ne index0 compound;;
            ne <- updateName0 ne indexN [];;
            let name0Edited := (getModifiedNames ne).1 in
            imp <- _calculateEditImprovement name0 name1 name0Edited name1;;
            let improvement := imp.1.1 in
            if PrimFloat.ltb (float_of_int (-1)) improvement
            then Ok (Some (true, name0Edited, name1))
            else Ok None.

Definition _combineSplitWords (name0 name1 : str) : result (bool * str * str) :=
  let words0 := py_split name0 in
  (* Do not combine words that are only two in length *)
  if bool_decide (length words0 < 3) then Ok (false, name0, name1)
  else
    (* Do not combine words that are already a good spelling match *)
    sc <- _spellingComparison name0 name1;;
    if sc.1 then Ok (false, name0, name1)
    else
      pairs <- _getPairIndicesAndWords name0 name1;;
      forReturn (combineSplitWordsStep name0 name1 words0) pairs (false, name0, name1).

Definition _dealWithDashes (name0 name1 : str) : result (str * str) :=
  (* Return old if no dash in either *)
  if negb (contains name0 [dash]) && negb (contains name1 [dash]) then Ok (name0, name1)
  (* Return old if dash in both *)
  else if contains name0 [dash] && contains name1 [dash] then Ok (name0, name1)
  else
    (* Try replacing the dash with a space, and combine words if necessary *)
    let name0Edited := py_replace name0 [dash] [space] in
    let name1Edited := py_replace name1 [dash] [space] in
    r <- _combineSplitWords name0Edited name1Edited;;
    let name0Edited := r.1.2 in
    let name1Edited := r.2 in
    (* Return old if the score did not improve *)
    imp <- _calculateEditImprovement name0 name1 name0Edited name1Edited;;
    let diff := imp.1.1 in
    if PrimFloat.leb diff (float_of_int 0) then Ok (name0, name1)
    else Ok (name0Edited, name1Edited).

Definition _fixRelatedPrefixes (name0 name1 prefixA prefixB : str) : str * str :=
  let spA := space :: prefixA in
  let spB := space :: prefixB in
  (* Return if prefix1 in neither or prefix2 in neither *)
  if negb (contains name0 spA) && negb (contains name1 spA) then (name0, name1)
  else if negb (contains name0 spB) && negb (contains name1 spB) then (name0, name1)
  (* Return if prefix1 or prefix2 is found in both *)
  else if contains name0 spA && contains name1 spA then (name0, name1)
  else if contains name0 spB && contains name1 spB then (name0, name1)
  (* Replace prefix2 with prefix1 *)
  else if contains name0 spB then (py_replace name0 spB spA, name1)
  else (name0, py_replace name1 spB spA).

(** The body of the inner loop of [_fixMcMac]. *)
Definition fixMcMacStep (prefix : str) (ne : NameEditor) (p : nat * nat * str * str)
  : result NameEditor :=
  let '(index0, index1, word0, word1) := p in
  (* Skip pair if the prefix is in both words *)
  if startswith word0 prefix && startswith word1 prefix then Ok ne
  (* Skip pair if the prefix is not in either of them *)
  else if negb (startswith word0 prefix) && negb (startswith word1 prefix) then Ok ne
  (* Skip pair if either word is a firstname *)
  else if bool_decide (index0 < 1) || bool_decide (index1 < 1) then Ok ne
  (* Skip pair if the shortest word is too short *)
  else if bool_decide (length word0 `min` length word1 < 3) then Ok ne
  (* Skip pair if they are already a solid match *)
  else if (80 <? fuzz_ratio lib word0 word1)%Z then Ok ne
  else
    (* Skip pair if the prefix is removed and not a good fuzzy match *)
    let updatedWord0 := if startswith word0 prefix then py_replace1 word0 prefix [] else word0 in
    let updatedWord1 := if startswith word0 prefix then word1 else py_replace1 word1 prefix [] in
    if (fuzz_ratio lib updatedWord0 updatedWord1 <? 75)%Z then Ok ne
    else
      (* Update the words *)
      ne <- updateName0 ne index0 updatedWord0;;
      updateName1 ne index1 updatedWord1.

Definition _fixMcMac (name0 name1 : str) : result (str * str) :=
  (* Return for most names *)
  if negb (contains name0 (py "mc")) && negb (contains name0 (py "mac"))
     && negb (contains name1 (py "mc")) && negb (contains name1 (py "mac"))
  then Ok (name0, name1)
  else
    (* Combine split words (if any) *)
    r <- _combineSplitWords name0 name1;;
    let name0 := r.1.2 in
    let name1 := r.2 in
    (* Edit the names, if necessary *)
    let ne := NameEditor_init name0 name1 in
    ne <- foldR (fun ne prefix =>
                  pairs <- _getPairIndicesAndWords name0 name1;;
                  foldR (fixMcMacStep prefix) ne pairs)
               ne [py "mc"; py "mac"];;
    Ok (getModifiedNames ne).

(** The repair of one of the two names in [_removeIrishO]. *)
Definition removeIrishOIn (name surname : str) : result str :=
  lastname <- last_item (py_split name);;
  if (75 <? fuzz_ratio lib lastname surname)%Z
  then
    first <- idx lastname 0;;
    if eqc first (ch "o")
    then Ok (py_replace name lastname surname)
    else Ok (py_replace name (py "o " ++ lastname) surname)
  else Ok name.

Definition _removeIrishO (name0 name1 surname : str) : result (str * str) :=
  (* Skip non applicable names *)
  if negb (contains name0 (py " o ")) && negb (contains name0 (py " o"))
     && negb (contains name1 (py " o")) && negb (contains name1 (py " o "))
  then Ok (name0, name1)
  else if negb (contains name0 surname) && negb (contains name1 surname)
  then Ok (name0, name1)
  else
    (* Edit the names *)
    name0 <- removeIrishOIn name0 surname;;
    name1 <- removeIrishOIn name1 surname;;
    Ok (name0, name1).

(** [match = re.search(pattern, name); matchedWord = match.group()]: the
    length of the matched word, [AttributeError] when nothing matches. *)
Definition matchedWordLength (spacePrefix name : str) : result nat :=
  match Re.search (Re.lit_then_word isw spacePrefix) name with
  | Some (a, b) => Ok (b - a)
  | None => Raise AttributeError
  end.

(** The body of the last loop of [_removeUnnecessaryPrefixes]. *)
Definition dropPrefixStep (prefix : str) (ne : NameEditor) (p : nat * nat * str * str)
  : result NameEditor :=
  let '(index0, index1, word0, word1) := p in
  if startswith word0 prefix && eqs (drop (length prefix) word0) word1
     && bool_decide (2 < length word1)
  then updateName0 ne index0 (drop (length prefix) word0)
  else if startswith word1 prefix && eqs (drop (length prefix) word1) word0
          && bool_decide (2 < length word0)
  then updateName1 ne index1 (drop (length prefix) word1)
  else Ok ne.

Definition _removeUnnecessaryPrefixes (name0 name1 prefix : str) : result (str * str) :=
  (* If the prefix is not in either names, return the names *)
  let name0 := squeeze_whitespace name0 in
  let name1 := squeeze_whitespace name1 in
  let spPrefixSp := space :: prefix ++ [space] in
  let spacePrefix := space :: prefix in
  if negb (contains name0 spacePrefix) && negb (contains name1 spacePrefix)
  then Ok (name0, name1)
  else
    (* Setup *)
    let name0Edited := name0 in
    let name1Edited := name1 in
    (* Make the edited names different *)
    let name0Edited :=
      if contains name0 spPrefixSp && contains name1 spPrefixSp then name0Edited
      else if contains name0 spPrefixSp && contains name1 spacePrefix
      then py_replace name0Edited spPrefixSp spacePrefix
      else name0Edited in
    let name1Edited :=
      if contains name0 spPrefixSp && contains name1 spPrefixSp then name1Edited
      else if contains name0 spPrefixSp && contains name1 spacePrefix then name1Edited
      else if contains name0 spacePrefix && contains name1 spPrefixSp
      then py_replace name1Edited spPrefixSp spacePrefix
      else name1Edited in
    let name0Edited := py_replace name0Edited spPrefixSp [space] in
    let name1Edited := py_replace name1Edited spPrefixSp [space] in
    let name0Edited := squeeze_whitespace name0Edited in
    let name1Edited := squeeze_whitespace name1Edited in
    (* If no edits were made, try removing spacePrefix if in just one name
       and it's a long word *)
    edited <-
      (if eqs name0 name0Edited && eqs name1 name1Edited
       then
         if contains name0 spacePrefix && negb (contains name1 spacePrefix)
         then
           len <- matchedWordLength spacePrefix name0;;
           if bool_decide (length prefix + 4 < len)
           then Ok (py_replace name0 spacePrefix [space], name1Edited)
           else Ok (name0Edited, name1Edited)
         else if contains name1 spacePrefix && negb (contains name0 spacePrefix)
         then
           len <- matchedWordLength spacePrefix name1;;
           if bool_decide (length prefix + 4 < len)
           then Ok (name0Edited, py_replace name1 spacePrefix [space])
           else Ok (name0Edited, name1Edited)
         else Ok (name0Edited, name1Edited)
       else Ok (name0Edited, name1Edited));;
    let name0Edited : str := edited.1 in
    let name1Edited : str := edited.2 in
    (* If the edits were significantly beneficial (or pass spell), return
       the edited versions *)
    imp <- _calculateEditImprovement name0 name1 name0Edited name1Edited;;
    let improvement := imp.1.1 in
    keep <-
      (if PrimFloat.leb (float_of_int 10) improvement then Ok true
       else
         scEdited <- _spellingComparison name0Edited name1Edited;;
         if scEdited.1
         then sc <- _spellingComparison name0 name1;; Ok (negb sc.1)
         else Ok false);;
    if (keep : bool) then Ok (name0Edited, name1Edited)
    else
      (* Finally, if the words are identical other than the prefix, remove
         the prefix *)
      let ne := NameEditor_init name0 name1 in
      pairs <- _getPairIndicesAndWords name0 name1;;
      ne <- foldR (dropPrefixStep prefix) ne pairs;;
      Ok (getModifiedNames ne).

Definition _combinePrefixWithSurnameifInBoth (name0 name1 prefix : str) : result (str * str) :=
  let spPrefixSp := space :: prefix ++ [space] in
  (* Return if ' prefix ' in neither *)
  if negb (bool_decide (is_Some (Re.search (Re.lit_then_any spPrefixSp) name0)))
     || negb (bool_decide (is_Some (Re.search (Re.lit_then_any spPrefixSp) name1)))
  then Ok (name0, name1)
  else
    (* Get the letter after ' prefix ' *)
    i0 <- py_index name0 spPrefixSp;;
    letter0 <- idx name0 (i0 + 4);;
    i1 <- py_index name1 spPrefixSp;;
    letter1 <- idx name1 (i1 + 4);;
    (* If the letter after matches, replace ' prefix ' with ' prefix' *)
    if eqc letter0 letter1
    then Ok (py_replace name0 spPrefixSp (space :: prefix),
             py_replace name1 spPrefixSp (space :: prefix))
    else Ok (name0, name1).

(** [while True: combined, name0, name1 = self._combineSplitWords(name0, name1)],
    left when nothing was combined.  Every round that combines merges two
    words of [name0]; [fuel] bounds the number of rounds. *)
Fixpoint combineUntilStable (fuel : nat) (name0 name1 : str) : result (str * str) :=
  match fuel with
  | O => Raise FuelExhausted
  | S fuel' =>
      r <- _combineSplitWords name0 name1;;
      let name0 := r.1.2 in
      let name1 := r.2 in
      if r.1.1 then combineUntilStable fuel' name0 name1 else Ok (name0, name1)
  end.

Definition oNames : list str :=
  map py
    ["beirne"; "berry"; "boyle"; "bryant"; "brian"; "brien"; "bryan"; "ceallaigh"; "conner";
     "connor"; "conor"; "daniel"; "day"; "dean"; "dea"; "doherty"; "donnell"; "donnel"; "donoghue";
     "donohue"; "donovan"; "dowd"; "driscoll"; "fallon"; "farrell"; "flaherty"; "flanagan"; "flynn";
     "gara"; "gorman"; "grady"; "guinn"; "guin"; "hagan"; "haire"; "hair"; "halloran"; "hanlon";
     "hara"; "hare"; "harra"; "harrow"; "haver"; "hearn"; "hern"; "herron"; "higgins"; "hora";
     "kane"; "keefe"; "keeffe"; "kelley"; "kelly"; "laughlin"; "leary"; "loughlin"; "mahoney";
     "mahony"; "maley"; "malley"; "mara"; "mary"; "meara"; "melia"; "moore"; "more"; "muir";
     "murchu"; "mure"; "murphy"; "neall"; "neal"; "neill"; "neil"; "ney"; "niall"; "quinn"; "regan";
     "reilly"; "riley"; "riordan"; "roark"; "rorke"; "rourke"; "ryan"; "shaughnessy"; "shea";
     "shields"; "sullivan"; "toole"; "tool"]%string.

Definition unnecessaryPrefixes : list str :=
  map py
    ["d'"; "de"; "fi"; "santa"; "san"; "de la"; "de los"; "del"; "la"; "le"; "du"; "dela";
     "los"; "der"; "den"; "vanden"; "vander"; "vande"; "van"; "von"]%string.

Definition _cleanNamesTogether (name0 name1 : str) : result (str * str) :=
  (* Returns if either name is blank *)
  if eqs name0 [] || eqs name1 [] then Ok (name0, name1)
  else
    (* Deal with dashes *)
    n <- _dealWithDashes name0 name1;;
    (* Deal with Scottish and Irish names *)
    let n := _fixRelatedPrefixes n.1 n.2 (py "mac") (py "mc") in
    n <- _fixMcMac n.1 n.2;;
    (* Deal with just Irish names *)
    n <- foldR (fun n surname => _removeIrishO n.1 n.2 surname) n oNames;;
    (* Deal with prefixes and optional intros that make the match worse *)
    let n := _fixRelatedPrefixes n.1 n.2 (py "de") (py "di") in
    let n := _fixRelatedPrefixes n.1 n.2 (py "del") (py "dil") in
    n <- foldR (fun n prefix => _removeUnnecessaryPrefixes n.1 n.2 prefix) n unnecessaryPrefixes;;
    n <- _combinePrefixWithSurnameifInBoth n.1 n.2 (py "de");;
    n <- _combinePrefixWithSurnameifInBoth n.1 n.2 (py "van");;
    (* Combine words that are one word in the other name *)
    n <- combineUntilStable (S (length n.1)) n.1 n.2;;
    m <- combineUntilStable (S (length n.2)) n.2 n.1;;
    let name1 := m.1 in
    let name0 := m.2 in
    (* Remove extra spaces *)
    let name0 := squeeze_whitespace name0 in
    let name1 := squeeze_whitespace name1 in
    let name0 := py_strip name0 in
    let name1 := py_strip name1 in
    (* Return the cleaned names *)
    Ok (name0, name1).

(** *** Name modifier *)

Definition _removeOrInNames (name0 name1 : str) : result (str * str) :=
  let name0 := lower name0 in
  let name1 := lower name1 in
  (* if or in neither *)
  if negb (contains name0 (py " or ")) && negb (contains name1 (py " or "))
  then Ok (name0, name1)
  (* if or in both *)
  else if contains name0 (py " or ") && contains name1 (py " or ")
  then Ok (name0, name1)
  (* if or in 1, not 2 *)
  else if contains name0 (py " or ")
  then
    (* Gets the score for if the word before 'or' is removed *)
    let name0EditedA := Re.sub Re.letters_or [space] name0 in
    wordComboA <- _findWhichWordsMatchAndHowWell name0EditedA name1;;
    averageScoreA <- averageScore wordComboA;;
    (* Gets the score for if the word after 'or' is removed *)
    let name0EditedB := Re.sub Re.or_letters [space] name0 in
    wordComboB <- _findWhichWordsMatchAndHowWell name0EditedB name1;;
    averageScoreB <- averageScore wordComboB;;
    (* If the before score is greater, returns A *)
    if PrimFloat.leb averageScoreB averageScoreA
    then Ok (name0EditedA, name1)
    else Ok (name0EditedB, name1)
  (* if or in 2, not 1 *)
  else
    let name1EditedA := Re.sub Re.letters_or [space] name1 in
    wordComboA <- _findWhichWordsMatchAndHowWell name1EditedA name0;;
    averageScoreA <- averageScore wordComboA;;
    let name1EditedB := Re.sub Re.or_letters [space] name1 in
    wordComboB <- _findWhichWordsMatchAndHowWell name1EditedB name0;;
    averageScoreB <- averageScore wordComboB;;
    if PrimFloat.leb averageScoreB averageScoreA
    then Ok (name0, name1EditedA)
    else Ok (name0, name1EditedB).

(** The search for the single difference in [_fixVowelMistakes]: the state is
    [(mismatchedIndex, tooManyDiffs, broke)] where [broke] records the [break].
    The test [if mismatchedIndex] is the truth value of the index, so a
    recorded index 0 does not count as a difference already seen. *)
Definition vowelScanStep (word0 word1 : str) (st : option nat * bool * bool) (i : nat)
  : result (option nat * bool * bool) :=
  let '(mismatchedIndex, tooManyDiffs, broke) := st in
  if (broke : bool) then Ok st
  else
    a <- idx word0 i;;
    b <- idx word1 i;;
    (* Skip matching chars *)
    if eqc a b then Ok st
    else
      (* Check if there are already too many differences *)
      match mismatchedIndex with
      | Some (S _) => Ok (mismatchedIndex, true, true)
      | _ => Ok (Some i, tooManyDiffs, false)
      end.

Definition cooresponding : list str := [py "ao"; py "ea"; py "iy"].

(** The body of the loop of [_fixVowelMistakes]. *)
Definition fixVowelMistakesStep (ne : NameEditor) (p : nat * nat * str * str)
  : result NameEditor :=
  let '(index0, _, word0, word1) := p in
  (* Continue if either word is less than 5 chars *)
  let len0 := length word0 in
  if bool_decide (len0 < 5) then Ok ne
  else
    let len1 := length word1 in
    if bool_decide (len1 < 5) then Ok ne
    (* Continue if they are not the same length *)
    else if negb (bool_decide (len0 = len1)) then Ok ne
    else
      (* Check if there is only one difference *)
      st <- foldR (vowelScanStep word0 word1) (None, false, false) (seq 0 len0);;
      let mismatchedIndex := st.1.1 in
      let tooManyDiffs := st.1.2 in
      (* Continue if there was not exactly one difference *)
      match mismatchedIndex with
      | None => Ok ne
      | Some mismatchedIndex =>
          if tooManyDiffs then Ok ne
          else
            (* Replace one of the letters to be the other if they are
               cooresponding *)
            charWord0 <- idx word0 mismatchedIndex;;
            charWord1 <- idx word1 mismatchedIndex;;
            if py_in [charWord0; charWord1] cooresponding
               || py_in [charWord1; charWord0] cooresponding
            then updateName0 ne index0 word1
            else Ok ne
      end.

Definition _fixVowelMistakes (name0 name1 : str) : result (str * str) :=
  let ne := NameEditor_init name0 name1 in
  pairs <- _getPairIndicesAndWords name0 name1;;
  ne <- foldR fixVowelMistakesStep ne pairs;;
  (* Return the modified (or not) names *)
  Ok (getModifiedNames ne).

(** [diffPositions]: the indices at which two words of equal length differ. *)
Definition diffPositions (word0 word1 : str) : list nat :=
  filter (fun i => word0 !! i <> word1 !! i) (seq 0 (length word0)).

(** The test of the loop of [_fixSwappedChars]: is [word0] overwritten with
    [word1]?  The last test of the source is the disjunction of the same
    comparison twice, [word0[posI] != word1[posJ]]. *)
Definition swapApplies (word0 word1 : str) : bool :=
  (* Skip if the words are not 5 long *)
  if negb (bool_decide (length word0 = 5)) then false
  (* Skip if lengths are different *)
  else if negb (bool_decide (length word0 = length word1)) then false
  (* Skip if already a match, or could not be fixed by the swap *)
  else if negb (fuzz_ratio lib word1 word0 =? 80)%Z then false
  else
    (* Find how many differences and where *)
    (* Skip if there are not two differences *)
    match diffPositions word0 word1 with
    | [posI; posJ] =>
        (* Skip if the differences are not sequential *)
        if negb (bool_decide (abs_diff posI posJ = 1)) then false
        (* Skip if the differences are not swappable *)
        else if bool_decide (word0 !! posI <> word1 !! posJ)
                || bool_decide (word0 !! posI <> word1 !! posJ)
        then false
        else true
    | _ => false
    end.

Definition fixSwappedCharsStep (ne : NameEditor) (p : nat * nat * str * str)
  : result NameEditor :=
  let '(index0, _, word0, word1) := p in
  if swapApplies word0 word1
  then updateName0 ne index0 word1  (* Update the word *)
  else Ok ne.

Definition _fixSwappedChars (name0 name1 : str) : result (str * str) :=
  let ne := NameEditor_init name0 name1 in
  pairs <- _getPairIndicesAndWords name0 name1;;
  ne <- foldR fixSwappedCharsStep ne pairs;;
  (* Return the modified (or not) names *)
  Ok (getModifiedNames ne).

Definition dealWithWrongFirstCharStep (ne : NameEditor) (p : nat * nat * str * str)
  : result NameEditor :=
  let '(index1, _, word1, word2) := p in
  if eqs word1 word2 then Ok ne
  else if eqs (drop 1 word1) (drop 1 word2)
          && bool_decide (4 < length word1) && bool_decide (4 < length word2)
  then updateName0 ne index1 word2
  else Ok ne.

Definition _dealWithWrongFirstChar (name0 name1 : str) : result (str * str) :=
  let ne := NameEditor_init name0 name1 in
  pairs <- _getPairIndicesAndWords name0 name1;;
  ne <- foldR dealWithWrongFirstCharStep ne pairs;;
  Ok (getModifiedNames ne).

(** *** Rule engine *)

Definition overwriteWithSubstring (string replacement : str) (startIndex endIndex : nat) : str :=
  set_slice string startIndex endIndex replacement.

(** The body of the loop over the top breads: the two words (with their dash
    sentinels) after one pair of breads has been tried.  Breads and meats are
    literal texts (letters, phonetic symbols and the dash). *)
Definition sandwichStep (meatOption1 meatOption2 bottomBread : str)
    (w : str * str) (topBread : str) : str * str :=
  let '(word0, word1) := w in
  (* Skip the bread if it doesn't appear in both matching words *)
  if negb (contains word0 topBread) || negb (contains word1 topBread) then w
  else
    (* Skip the bread if the pattern is not found in both *)
    let pattern := Re.sandwich bottomBread meatOption1 meatOption2 topBread in
    match Re.search pattern word0, Re.search pattern word1 with
    | Some (spanA1, spanB1), Some (spanA2, spanB2) =>
        (* Skip the bread if the two patterns are identical (middles are the
           same) *)
        if eqs (py_slice word0 spanA1 spanB1) (py_slice word1 spanA2 spanB2) then w
        (* Skip the bread if the two patterns are too far apart *)
        else if negb (bool_decide (abs_diff spanA1 spanA2 <= 2)
                      && bool_decide (abs_diff spanB1 spanB2 <= 2))
        then w
        else
          (* Update the words by replacing matching (different) middles with
             the meat option 2 *)
          let middleCoordsString1 := (spanA1 + length bottomBread, spanB1 - length topBread) in
          let middleCoordsString2 := (spanA2 + length bottomBread, spanB2 - length topBread) in
          (overwriteWithSubstring word0 meatOption2 middleCoordsString1.1 middleCoordsString1.2,
           overwriteWithSubstring word1 meatOption2 middleCoordsString2.1 middleCoordsString2.2)
    | _, _ => w
    end.

(** The body of the loop over the bottom breads. *)
Definition bottomBreadStep (meatOption1 meatOption2 : str) (topBreadOptions : list str)
    (w : str * str) (bottomBread : str) : str * str :=
  (* Skip the bread if it doesn't appear in both matching words *)
  if negb (contains w.1 bottomBread) || negb (contains w.2 bottomBread) then w
  else fold_left (sandwichStep meatOption1 meatOption2 bottomBread) topBreadOptions w.

(** The body of the loop over the word matches. *)
Definition sandwichPairStep (meatOption1 meatOption2 : str)
    (bottomBreadOptions topBreadOptions : list str) (minRequiredLetters : nat)
    (ne : NameEditor) (p : nat * nat * str * str) : result NameEditor :=
  let '(index0, index1, word0, word1) := p in
  (* Skip words that are not long enough for the given rule *)
  if bool_decide (length word0 < minRequiredLetters)
     || bool_decide (length word1 < minRequiredLetters)
  then Ok ne
  else
    (* Add clear word breaks *)
    let word0 := [dash] ++ word0 ++ [dash] in
    let word1 := [dash] ++ word1 ++ [dash] in
    let w := fold_left (bottomBreadStep meatOption1 meatOption2 topBreadOptions)
                       bottomBreadOptions (word0, word1) in
    (* Update the words for that match (though a change may not have
       occured) *)
    let word0 := py_replace w.1 [dash] [] in
    let word1 := py_replace w.2 [dash] [] in
    ne <- updateName0 ne index0 word0;;
    updateName1 ne index1 word1.

Definition _replaceSubstringSandwichMeatIfMatchingBread (name0 name1 : str)
    (meatOption1 meatOption2 : str) (bottomBreadOptions topBreadOptions : list str)
    (minRequiredLetters : nat) : result (str * str) :=
  (* Return if both middles not in different words *)
  if (negb (contains name0 meatOption1) && negb (contains name0 meatOption2))
     || (negb (contains name1 meatOption1) && negb (contains name1 meatOption2))
  then Ok (name0, name1)
  else
    (* Initialize the name editor *)
    let ne := NameEditor_init name0 name1 in
    (* Iterate through the word matches *)
    pairs <- _getPairIndicesAndWords name0 name1;;
    ne <- foldR (sandwichPairStep meatOption1 meatOption2 bottomBreadOptions
                                  topBreadOptions minRequiredLetters) ne pairs;;
    (* concatonates the two lists together back into strings *)
    Ok (getModifiedNames ne).

Definition applyRule (n : str * str) (r : rule) : result (str * str) :=
  _replaceSubstringSandwichMeatIfMatchingBread n.1 n.2
    (meatOption1 r) (meatOption2 r) (bottomBreadOptions r) (topBreadOptions r)
    (minRequiredLetters r).

Definition _modifyNamesTogether (name0 name1 : str) : result (str * str) :=
  (* Replaces 'ie' endings with 'y' endings *)
  let name0 := Re.sub (Re.lit isw false true (py "ie")) (py "y") name0 in
  let name1 := Re.sub (Re.lit isw false true (py "ie")) (py "y") name1 in
  (* Fix when records are indexed with " or " in the name *)
  n <- _removeOrInNames name0 name1;;
  (* Deal with names longer than 5 that are off by one specific char *)
  n <- _fixVowelMistakes n.1 n.2;;
  (* Deal with names longer than 5 that have swapped letters *)
  n <- _fixSwappedChars n.1 n.2;;
  (* Deal with longer names that are identical except for the first char *)
  n <- _dealWithWrongFirstChar n.1 n.2;;
  (* Use spelling rules to modify both *)
  n <- foldR applyRule n (spellingRules self);;
  (* Remove extra spaces *)
  let name0 := squeeze_whitespace n.1 in
  let name1 := squeeze_whitespace n.2 in
  let name0 := py_strip name0 in
  let name1 := py_strip name1 in
  (* Return modified names *)
  Ok (name0, name1).

(** *** Phonetic encoder *)

Definition _pronunciationHailMary (word : str) : str :=
  match namesToIpa self !! word with
  | Some namePronuncation => namePronuncation
  | None => word ++ [star]
  end.

Definition _convert (word : str) : str :=
  match syllableToIpa self !! word with
  | Some ipaPronunciation => ipaPronunciation
  | None => word ++ [star]
  end.

(** The fallback table of single letters; 230, 603, 618 and 676 are the
    phonetic symbols for a, e, i and j. *)
Definition letterToPronunciation : list (list N * list N) :=
  [(py "a", [230%N]); (py "b", py "b"); (py "c", py "k"); (py "d", py "d");
   (py "e", [603%N]); (py "f", py "f"); (py "g", py "g"); (py "h", py "h");
   (py "i", [618%N]); (py "j", [676%N]); (py "k", py "k"); (py "l", py "l");
   (py "m", py "m"); (py "n", py "n"); (py "o", py "o"); (py "p", py "p");
   (py "q", py "k"); (py "r", py "r"); (py "s", py "s"); (py "t", py "t");
   (py "u", py "u"); (py "v", py "v"); (py "w", py "w"); (py "x", py "ks");
   (py "y", py "j"); (py "z", py "z")].

(** [d.get(key, default)] on a dictionary written as its list of items. *)
Definition dict_get (d : list (list N * list N)) (key default : str) : str :=
  match List.find (fun kv => eqs kv.1 key) d with
  | Some kv => kv.2
  | None => default
  end.

Definition substringSplitsTh (substring word : str) (i j : nat) : result bool :=
  if bool_decide (i = j) then Ok false
  else
    first <- idx substring 0;;
    splitsBefore <-
      (if eqc first (ch "h")
       then before <- idxZ word (Z.of_nat i - 1);; Ok (eqc before (ch "t"))
       else Ok false);;
    if (splitsBefore : bool) then Ok true
    else if (Z.of_nat j <=? Z.of_nat (length word) - 1)%Z
    then
      final <- last_item substring;;
      if eqc final (ch "t")
      then after <- idx word j;; Ok (eqc after (ch "h"))
      else Ok false
    else Ok false.

(** The variables of one round of the [while] loop of [_getIpaOfOneWord]. *)
Record scan := Scan {
  substringAdded : bool;
  largestSubstring : list N;
  pronunciationOfLargestSubstring : list N;
  largestSubstringLen : nat;
  beginningIndexOfSubstring : nat;
  endIndexOfSubstring : nat;
}.

(** The body of the double loop over the substrings [word[i:j]]. *)
Definition scanStep (word : str) (st : scan) (ij : nat * nat) : result scan :=
  let '(i, j) := ij in
  let substring := py_slice word i j in
  let chosen (pronunciation : str) :=
    {| substringAdded := true;
       largestSubstring := substring;
       pronunciationOfLargestSubstring := pronunciation;
       largestSubstringLen := length substring;
       beginningIndexOfSubstring := i;
       endIndexOfSubstring := j |} in
  if bool_decide (length substring <= largestSubstringLen st) then Ok st
  else if contains substring [space] then Ok st
  else if bool_decide (1 < length substring)
  then
    let substringIpa := _convert substring in
    if contains substringIpa [star] then Ok st
    else if bool_decide (length substring * 2 <= length substringIpa) then Ok st
    else
      splits <- substringSplitsTh substring word i j;;
      if (splits : bool) then Ok st else Ok (chosen substringIpa)
  else if bool_decide (length substring = 1)
  then Ok (chosen (dict_get letterToPronunciation substring (largestSubstring st)))
  else Ok (chosen (pronunciationOfLargestSubstring st)).

(** [for i in range(len(word)): for j in range(i + 1, len(word) + 1)] *)
Definition substringBounds (n : nat) : list (nat * nat) :=
  flat_map (fun i => map (fun j => (i, j)) (seq (i + 1) (n - i))) (seq 0 n).

(** The [while substringAdded] loop.  Every round that adds a substring
    blanks at least one letter of the word; [fuel] bounds the rounds. *)
Fixpoint encodeLoop (fuel : nat) (word : str) (pronunciationList : list str)
  : result (list str) :=
  match fuel with
  | O => Raise FuelExhausted
  | S fuel' =>
      let start := {| substringAdded := false;
                      largestSubstring := [];
                      pronunciationOfLargestSubstring := [];
                      largestSubstringLen := 0;
                      beginningIndexOfSubstring := 0;
                      endIndexOfSubstring := 0 |} in
      st <- foldR (scanStep word) start (substringBounds (length word));;
      (* Adds the substring to the list *)
      pronunciationList <-
        (if substringAdded st
         then set_item pronunciationList (beginningIndexOfSubstring st)
                       (pronunciationOfLargestSubstring st)
         else Ok pronunciationList);;
      let spaces := repeat_char space (largestSubstringLen st) in
      let word := py_rstrip word in
      let word := take (beginningIndexOfSubstring st) word ++ spaces
                  ++ drop (endIndexOfSubstring st) word in
      if substringAdded st then encodeLoop fuel' word pronunciationList
      else Ok pronunciationList
  end.

(** The function that [lru_cache] wraps. *)
Definition getIpaOfOneWord_body (word : str) : result str :=
  (* Setup *)
  let word := py_replace word [space] [] in
  let word := unidecode word in
  let word := lower word in
  let pronunciationList : list str := replicate (length word) [] in
  (* Tries to get the ipa from the plain word *)
  let firstAttempt := _pronunciationHailMary word in
  if negb (contains firstAttempt [star]) then Ok firstAttempt
  else
    pronunciationList <- encodeLoop (S (length word)) word pronunciationList;;
    (* Concatenates the list together at the end to get the pronunciation *)
    Ok (concat pronunciationList).

(** *** The memoization cache

    [lru_cache(maxsize=1000)]: the entries, most recently used first.  A hit
    returns the stored value and moves the entry to the front; a miss calls
    the function, stores the value it returns and drops the entry used the
    longest ago once there are more than [maxsize].  A call that raises stores
    nothing. *)

Definition cache_find (c : list (list N * list N)) (key : str) : option str :=
  snd <$> List.find (fun kv => eqs kv.1 key) c.

Definition lru_cache (maxsize : nat) (f : str -> result str)
    (key : str) (c : list (list N * list N)) : result str * list (list N * list N) :=
  match cache_find c key with
  | Some v => (Ok v, (key, v) :: filter (fun kv => eqs kv.1 key = false) c)
  | None =>
      match f key with
      | Ok v => (Ok v, take maxsize ((key, v) :: c))
      | Raise e => (Raise e, c)
      end
  end.

Definition _getIpaOfOneWord := lru_cache 1000 getIpaOfOneWord_body.

End NameComparator.

(** ** Computations that use the cache *)

Abbreviation cache := (list (list N * list N)) (only parsing).

Definition cached (A : Type) : Type := list (list N * list N) -> result A * list (list N * list N).

Definition bindC {A B} (m : cached A) (f : A -> cached B) : cached B :=
  fun c =>
    match m c with
    | (Ok a, c') => f a c'
    | (Raise e, c') => (Raise e, c')
    end.

Definition retC {A} (a : A) : cached A := fun c => (Ok a, c).

(** A computation that does not touch the cache. *)
Definition liftC {A} (r : result A) : cached A := fun c => (r, c).

Notation "x <~ m ;; k" := (bindC m (fun x => k))
  (at level 100, m at next level, right associativity).

Fixpoint mapC {A B} (f : A -> cached B) (l : list A) : cached (list B) :=
  match l with
  | [] => retC []
  | x :: t => y <~ f x;; ys <~ mapC f t;; retC (y :: ys)
  end.

(** The result record of [compareTwoNames]; an attempt is the pair of names
    it compared and the word combination it found. *)
Record data := Data {
  match_ : bool;
  tooGeneric : bool;
  tooShort : bool;
  attempt1 : option (list N * list N * list (nat * nat * Z));
  attempt2 : option (list N * list N * list (nat * nat * Z));
  attempt3 : option (list N * list N * list (nat * nat * Z));
  attempt4 : option (list N * list N * list (nat * nat * Z));
}.

Section Pipeline.

Context (lib : externals) (self : comparator).

(** *** Pronunciation matcher *)

Definition _getPronunciation (name : str) : cached str :=
  pList <~ mapC (_getIpaOfOneWord lib self) (py_split name);;
  retC (py_join [space] pList).

Definition allIpaConsonants : list str :=
  [py "l"; py "d"; py "z"; py "b"; py "t"; py "k"; py "n"; py "s"; py "w"; py "v";
   [240%N]; [658%N]; [679%N]; [952%N]; py "h"; py "g"; [676%N]; [331%N]; py "p";
   py "m"; [643%N]; py "f"; py "j"; py "r"].

Definition _cleanIpa (ipa : str) : str :=
  let ipa :=
    fold_left (fun ipa consonant =>
                 let doubleConsonant := consonant ++ consonant in
                 if contains ipa doubleConsonant
                 then py_replace ipa doubleConsonant consonant
                 else ipa)
              allIpaConsonants ipa in
  let ipa := py_replace ipa [603%N; 603%N] (py "i") in
  let ipa := py_replace ipa [618%N; 618%N] [618%N] in
  let ipa := py_replace ipa [105%N; 618%N] (py "i") in
  let ipa := py_replace ipa [331%N; 103%N] [331%N] in
  let ipa := py_replace ipa (py ",") [] in
  ipa.

Definition _modifyIpasTogether (ipa0 ipa1 : str) : result (str * str) :=
  foldR (applyRule lib) (ipa0, ipa1) (ipaRules self).

(** The score of one pair of IPA words: the ratio, replaced by the score of
    the spelling combination when that one is 0 or 100 for the same pair. *)
Definition ipaPairScore (wordCombo : Combo) (i j : nat) (ipaWord0 ipaWord1 : str) : Z :=
  fold_left (fun score (t : Entry) =>
               if bool_decide (i = e_left t) && bool_decide (j = e_right t)
                  && ((e_score t =? 100)%Z || (e_score t =? 0)%Z)
               then e_score t else score)
            wordCombo (fuzz_ratio lib ipaWord0 ipaWord1).

Definition ipaScoreTable (wordCombo : Combo) (ipaWords0 ipaWords1 : list str) : Combo :=
  flat_map (fun iw : nat * str =>
              map (fun jw : nat * str => (iw.1, jw.1, ipaPairScore wordCombo iw.1 jw.1 iw.2 jw.2))
                  (enumerate ipaWords1))
           (enumerate ipaWords0).

Definition _pronunciationComparison (name0 name1 : str)
  : cached (bool * list (nat * nat * Z) * list N * list N) :=
  (* Necessary for pronunciation comparison *)
  wordCombo <~ liftC (_findWhichWordsMatchAndHowWell lib name0 name1);;
  (* Gets Ipas *)
  ipaOfName0 <~ _getPronunciation name0;;
  ipaOfName1 <~ _getPronunciation name1;;
  (* Cleans Ipas *)
  let ipaOfName0 := _cleanIpa ipaOfName0 in
  let ipaOfName1 := _cleanIpa ipaOfName1 in
  ipas <~ liftC (_modifyIpasTogether ipaOfName0 ipaOfName1);;
  let ipaOfName0 : str := ipas.1 in
  let ipaOfName1 : str := ipas.2 in
  (* Matches the ipa words within the two names *)
  let ipaWords0 := py_split ipaOfName0 in
  let ipaWords1 := py_split ipaOfName1 in
  let scores := ipaScoreTable wordCombo ipaWords0 ipaWords1 in
  (* Gets the length of the shortest word *)
  let minLength := length ipaWords0 `min` length ipaWords1 in
  let combinations := combinations scores minLength in
  let validCombinations := filter (fun c => valid_combo c = true) combinations in
  (* Finds the word combination with the maximum sum *)
  cleanedMaxCombination <~ liftC (max_by sum_scores validCombinations);;
  (* Gets the smallest score in the max combination *)
  lowest <~ liftC (min_by e_score cleanedMaxCombination);;
  let lowestScore := e_score lowest in
  if bool_decide (minLength <= 2)
  then
    (* If the shortest name is two words in length *)
    if (80 <=? lowestScore)%Z
    then retC (true, cleanedMaxCombination, ipaOfName0, ipaOfName1)
    else retC (false, cleanedMaxCombination, ipaOfName0, ipaOfName1)
  else
    (* If the shortest name is more than two words *)
    if (75 <? lowestScore)%Z
    then retC (true, cleanedMaxCombination, ipaOfName0, ipaOfName1)
    else retC (false, cleanedMaxCombination, ipaOfName0, ipaOfName1).

(** *** Pipeline controller *)

Definition compareTwoNames (name0 name1 : str) : cached data :=
  (* Clean names *)
  let name0 := _cleanNameByItself lib name0 in
  let name1 := _cleanNameByItself lib name1 in
  n <~ liftC (_cleanNamesTogether lib name0 name1);;
  let name0 : str := n.1 in
  let name1 : str := n.2 in
  (* Check if either name is too short (one word or less) *)
  tooShort <~ liftC (_eitherNameTooShort lib name0 name1);;
  (* Check if either name is too generic *)
  tooGeneric <~ liftC (_eitherNameTooGeneric lib self name0 name1);;
  (* Cleans away nicknames *)
  n <~ liftC (_removeNicknames lib self name0 name1);;
  let name0 : str := n.1 in
  let name1 : str := n.2 in
  (* 1st attempt: Checks if names are a match according to string comparison
     alone *)
  a1 <~ liftC (_spellingComparison lib name0 name1);;
  let data1 matched a2 a3 a4 :=
    {| match_ := matched; tooGeneric := tooGeneric; tooShort := tooShort;
       attempt1 := Some (name0, name1, a1.2);
       attempt2 := a2; attempt3 := a3; attempt4 := a4 |} in
  if a1.1 then retC (data1 true None None None)
  else
    (* Failed first attempt. Check if names are even worth continuing *)
    worth <~ liftC (_isWorthContinuing lib name0 name1);;
    if negb worth then retC (data1 false None None None)
    else
      (* 2nd attempt: Modify names via spelling rules, then check again if
         match according to string comparison *)
      m <~ liftC (_modifyNamesTogether lib self name0 name1);;
      let modifiedName0 : str := m.1 in
      let modifiedName1 : str := m.2 in
      a2 <~ liftC (_spellingComparison lib modifiedName0 modifiedName1);;
      let attempt2 := Some (modifiedName0, modifiedName1, a2.2) in
      if a2.1 then retC (data1 true attempt2 None None)
      else
        (* 3rd attempt: Checks if modified names are a match according to
           pronunciation *)
        a3 <~ _pronunciationComparison modifiedName0 modifiedName1;;
        let '(match3, wordCombo3, ipaModifiedName0, ipaModifiedName1) := a3 in
        let attempt3 := Some (ipaModifiedName0, ipaModifiedName1, wordCombo3) in
        if (match3 : bool) then retC (data1 true attempt2 attempt3 None)
        else
          (* 4th attempt: Check if original names are a match according to
             pronunciation *)
          a4 <~ _pronunciationComparison name0 name1;;
          let '(match4, wordCombo4, ipaName0, ipaName1) := a4 in
          let attempt4 := Some (ipaName0, ipaName1, wordCombo4) in
          if (match4 : bool) then retC (data1 true attempt2 attempt3 attempt4)
          (* If they are still not a match, returns false *)
          else retC (data1 false attempt2 attempt3 attempt4).

End Pipeline.

(** ** A reference instance of the external libraries

    The closed examples below need values for [fuzz.ratio] and
    [fuzz.partial_ratio].  [Difflib] follows fuzzywuzzy 0.18 over the
    [SequenceMatcher] of Python's [difflib] (the backend it uses when
    python-Levenshtein is not installed), for the strings shorter than 200
    characters on which [difflib] applies no junk heuristic. *)

Module Difflib.

Fixpoint common_prefix (a b : str) : nat :=
  match a, b with
  | x :: a', y :: b' => if eqc x y then S (common_prefix a' b') else 0
  | _, _ => 0
  end.

(** [find_longest_match(alo, ahi, blo, bhi)]: the longest block, the one
    that starts earliest in [a], then earliest in [b]. *)
Definition find_longest_match (a b : str) (alo ahi blo bhi : nat) : nat * nat * nat :=
  fold_left
    (fun best i =>
       fold_left
         (fun best j =>
            let k := common_prefix (py_slice a i ahi) (py_slice b j bhi) in
            if bool_decide (best.2 < k) then (i, j, k) else best)
         (seq blo (bhi - blo)) best)
    (seq alo (ahi - alo)) (alo, blo, 0).

(** The matching blocks, in increasing order. *)
Fixpoint blocks_go (fuel : nat) (a b : str) (alo ahi blo bhi : nat) : list (nat * nat * nat) :=
  match fuel with
  | O => []
  | S fuel' =>
      let '(i, j, k) := find_longest_match a b alo ahi blo bhi in
      if bool_decide (k = 0) then []
      else
        (if bool_decide (alo < i) && bool_decide (blo < j)
         then blocks_go fuel' a b alo i blo j else [])
        ++ [(i, j, k)]
        ++ (if bool_decide (i + k < ahi) && bool_decide (j + k < bhi)
            then blocks_go fuel' a b (i + k) ahi (j + k) bhi else [])
  end.

(** Adjacent blocks are merged and the sentinel block closes the list. *)
Fixpoint merge_adjacent (cur : nat * nat * nat) (l : list (nat * nat * nat)) : list (nat * nat * nat) :=
  match l with
  | [] => if bool_decide (cur.2 = 0) then [] else [cur]
  | (i2, j2, k2) :: l' =>
      let '(i1, j1, k1) := cur in
      if bool_decide (i1 + k1 = i2) && bool_decide (j1 + k1 = j2)
      then merge_adjacent (i1, j1, k1 + k2) l'
      else (if bool_decide (k1 = 0) then [] else [cur]) ++ merge_adjacent (i2, j2, k2) l'
  end.

Definition get_matching_blocks (a b : str) : list (nat * nat * nat) :=
  merge_adjacent (0, 0, 0) (blocks_go (S (length a)) a b 0 (length a) 0 (length b))
  ++ [(length a, length b, 0)].

(** [SequenceMatcher(None, a, b).ratio()] *)
Definition sm_ratio (a b : str) : float :=
  let matches := fold_right Nat.add 0 (map snd (get_matching_blocks a b)) in
  let len := length a + length b in
  if bool_decide (len = 0) then float_of_int 1
  else PrimFloat.div (PrimFloat.mul (float_of_int 2) (float_of_int (Z.of_nat matches)))
                     (float_of_int (Z.of_nat len)).

(** [int(round(x))] for a float [x >= 0]: to the nearest integer, ties to the
    even one. *)
Definition intr (x : float) : Z :=
  match Prim2SF x with
  | S754_finite false m e =>
      if (0 <=? e)%Z then (Z.pos m * 2 ^ e)%Z
      else
        let d := (2 ^ (- e))%Z in
        let q := (Z.pos m / d)%Z in
        let r := (Z.pos m mod d)%Z in
        if (d <? 2 * r)%Z then (q + 1)%Z
        else if (2 * r =? d)%Z then (if Z.even q then q else q + 1)%Z
        else q
  | _ => 0%Z
  end.

Definition hundred : float := float_of_int 100.

(** [fuzz.ratio] *)
Definition ratio (s1 s2 : str) : Z :=
  if eqs s1 s2 then 100%Z
  else if bool_decide (length s1 = 0) || bool_decide (length s2 = 0) then 0%Z
  else intr (PrimFloat.mul hundred (sm_ratio s1 s2)).

(** The loop of [fuzz.partial_ratio] over the blocks: [inl] is the early
    return of 100, [inr] the scores collected. *)
Fixpoint partial_scores (shorter longer : str) (blocks : list (nat * nat * nat))
  : unit + list float :=
  match blocks with
  | [] => inr []
  | (bi, bj, _) :: rest =>
      let long_start := bj - bi in
      let long_end := long_start + length shorter in
      let long_substr := py_slice longer long_start long_end in
      let r := sm_ratio shorter long_substr in
      if PrimFloat.ltb 0x1.fd70a3d70a3d7p-1%float r then inl tt  (* r > .995 *)
      else match partial_scores shorter longer rest with
           | inl u => inl u
           | inr l => inr (r :: l)
           end
  end.

Definition float_max (l : list float) : float :=
  match l with
  | [] => float_of_int 0
  | x :: t => fold_left (fun m y => if PrimFloat.ltb m y then y else m) t x
  end.

(** [fuzz.partial_ratio] *)
Definition partial_ratio (s1 s2 : str) : Z :=
  if eqs s1 s2 then 100%Z
  else if bool_decide (length s1 = 0) || bool_decide (length s2 = 0) then 0%Z
  else
    let shorter := if bool_decide (length s1 <= length s2) then s1 else s2 in
    let longer := if bool_decide (length s1 <= length s2) then s2 else s1 in
    match partial_scores shorter longer (get_matching_blocks shorter longer) with
    | inl _ => 100%Z
    | inr scores => intr (PrimFloat.mul hundred (float_max scores))
    end.

End Difflib.

(** The libraries, with [Difflib] for fuzzywuzzy.  The names of the examples
    are ASCII, so the tables for the other code points are never consulted;
    a set is iterated in the order of its first insertions. *)
Definition refLib : externals :=
  {| fuzz_ratio := Difflib.ratio;
     fuzz_partial_ratio := Difflib.partial_ratio;
     unidecode_table := fun _ => [];
     unicode_lower := fun c => [c];
     unicode_isalnum := fun _ => false;
     set_order := remove_dups |}.

(** * Vocabulary of the statements *)

(** The reference tables of the closed examples: every table empty. *)
Definition refTables : comparator := NameComparator_init ∅ ∅ [] [] [] [].

(** The [match] field of what [compareTwoNames] returns. *)
Definition verdict (r : result data) : result bool :=
  match r with
  | Ok d => Ok (match_ d)
  | Raise e => Raise e
  end.

(** The score table of two word lists from the offsets [a] and [b]: row by
    row, the shape of the list [scores] of the aligner. *)
Definition table (sc : list N -> list N -> Z) (a : nat) (ws0 : list (list N))
    (b : nat) (ws1 : list (list N)) : list (nat * nat * Z) :=
  flat_map (fun iw : nat * list N =>
              map (fun jw : nat * list N => (iw.1, jw.1, sc iw.2 jw.2)) (enumerate_from b ws1))
           (enumerate_from a ws0).

Definition in_range_of (ws0 ws1 : list (list N)) (t : nat * nat * Z) : Prop :=
  exists w0 w1, ws0 !! e_left t = Some w0 /\ ws1 !! e_right t = Some w1
                /\ w0 <> [] /\ w1 <> [].

(** The count of the worth-continuing gate as the code computes it: every
    pair of score 0. *)
Definition zeroScoreCount (combo : list (nat * nat * Z)) : nat :=
  length (filter (fun t => e_score t = 0%Z) combo).

(** Every whitespace character of [s] is a space that is followed by a
    character that is not whitespace. *)
Fixpoint tidy (s : list N) : bool :=
  match s with
  | [] => true
  | c :: s' =>
      (if isspace c
       then eqc c space && match s' with
                           | [] => false
                           | c' :: _ => negb (isspace c')
                           end
       else true) && tidy s'
  end.

Definition starts_with_letter (s : list N) : bool :=
  match s with
  | [] => false
  | c :: _ => negb (isspace c)
  end.

(** A character that the first steps of the cleaner keep as it is. *)
Definition plain (c : N) : bool :=
  is_ascii c && negb (is_upper_AZ c) && negb (Re.is_punct c).

Definition removedWords : list string :=
  ["jr"; "sr"; "prof"; "mr"; "mrs"; "ms"; "dr"; "student"; "rev";
   "sister"; "brother"; "mother"; "father"]%string.

Definition removedTexts : list string :=
  ["\bjunior\b"; "\bsenior\b"; "\bprofessor\b"; "\bmister\b"; "\bmissus\b";
   "\bmiss\b"; "\bdoctor\b"; "reverend"; "head of household"; " the ";
   "no suffix"; "' "]%string.

Definition absent (m : Re.matcher) (s : list N) : bool :=
  match Re.search m s with
  | None => true
  | Some _ => false
  end.

(** Nothing is left for the single-name cleaner to do on [s]. *)
Definition settled (lib : externals) (s : list N) : bool :=
  starts_with_letter s && tidy s && forallb plain s
  && forallb (fun w => absent (Re.lit (isw lib) true true (py w)) s) removedWords
  && forallb (fun t => negb (contains s (py t))) removedTexts
  && absent (Re.lit (isw lib) false false (py " in law")) s
  && absent Re.digit_letter_26 s
  && forallb (absent (Re.alt_words (isw lib) [py "ii"; py "iii"; py "iv"])) (py_split s)
  && absent (Re.lit (isw lib) true false (py "van de")) s
  && absent (Re.lit (isw lib) true false (py "van den")) s
  && absent (Re.lit (isw lib) true false (py "van der")) s.

Section Vocabulary.

Context (lib : externals) (self : comparator).

(** The score of a pair of words, 0 where [pairScore] raises. *)
Definition scoreOf (w0 w1 : list N) : Z :=
  match pairScore lib w0 w1 with
  | Ok z => z
  | Raise _ => 0%Z
  end.

(** What the aligner returns, for any two names. *)
Record aligned (name0 name1 : list N) (combo : list (nat * nat * Z)) : Prop := {
  al_length : length combo = length (py_split name0) `min` length (py_split name1);
  al_left : NoDup (map e_left combo);
  al_right : NoDup (map e_right combo);
  al_words : Forall (fun t => exists w0 w1,
                         py_split name0 !! e_left t = Some w0
                         /\ py_split name1 !! e_right t = Some w1
                         /\ e_score t = scoreOf w0 w1) combo;
}.

(** Every entry of the cache holds what the wrapped function returns. *)
Definition cache_ok (c : list (list N * list N)) : Prop :=
  Forall (fun kv => getIpaOfOneWord_body lib self kv.1 = Ok kv.2) c.

(** The caches a comparator can hold: empty at construction, then whatever
    the calls of [compareTwoNames] leave. *)
Inductive reachable : list (list N * list N) -> Prop :=
  | reach_new : reachable []
  | reach_call name0 name1 c :
      reachable c -> reachable (compareTwoNames lib self name0 name1 c).2.

(** A computation is transparent when, on a sound cache, its result is the
    same whatever the cache holds and it leaves a sound cache. *)
Definition transparent {A} (m : cached A) : Prop :=
  exists r, forall c, cache_ok c -> (m c).1 = r /\ cache_ok (m c).2.

End Vocabulary.

(** ** Vocabulary of the phonetic encoder *)

(** The letters of the working word that are not blanked yet. *)
Definition unblanked (word : list N) : nat :=
  length (filter (fun c => c <> space) word).

(** What a scan of the substrings of [word] has found. *)
Definition scan_ok (word : list N) (st : scan) : Prop :=
  if substringAdded st
  then beginningIndexOfSubstring st < endIndexOfSubstring st <= length word
       /\ largestSubstringLen st = endIndexOfSubstring st - beginningIndexOfSubstring st
       /\ contains (py_slice word (beginningIndexOfSubstring st) (endIndexOfSubstring st))
                   [space] = false
  else largestSubstringLen st = 0 /\ beginningIndexOfSubstring st = 0
       /\ endIndexOfSubstring st = 0.

(** * Facts *)

(** ** Examples of the primitives *)

Example split_ex : py_split (py "  john   q smith ") = [py "john"; py "q"; py "smith"].
Proof. reflexivity. Qed.

Example replace_ex : py_replace (py "a***b**") (py "**") (py "*") = py "a**b*".
Proof. reflexivity. Qed.

Example strip_ex : py_strip (py "  john smith  ") = py "john smith".
Proof. reflexivity. Qed.

Example combinations_ex : combinations [1; 2; 3] 2 = [[1; 2]; [1; 3]; [2; 3]].
Proof. reflexivity. Qed.

Example ratio_ex1 : Difflib.ratio (py "abxce") (py "abcde") = 80%Z.
Proof. vm_compute. reflexivity. Qed.

Example ratio_ex2 : Difflib.ratio (py "john") (py "jon") = 86%Z.
Proof. vm_compute. reflexivity. Qed.

Example partial_ratio_ex : Difflib.partial_ratio (py "smith") (py "smithson") = 100%Z.
Proof. vm_compute. reflexivity. Qed.

(** ** Results, lists and combinations *)

Lemma bindR_Ok {A B} (m : result A) (f : A -> result B) b :
  bindR m f = Ok b -> exists a, m = Ok a /\ f a = Ok b.
Proof. destruct m as [a|e]; simpl; [eauto | discriminate]. Qed.

Lemma mapR_Ok_map {A B} (f : A -> result B) (g : A -> B) (l : list A) :
  Forall (fun x => f x = Ok (g x)) l -> mapR f l = Ok (map g l).
Proof.
  induction 1 as [|x t Hx _ IH]; simpl; [reflexivity|].
  rewrite Hx; simpl. rewrite IH. reflexivity.
Qed.

Lemma py_split_nonempty (s : list N) : Forall (fun w => w <> []) (py_split s).
Proof.
  induction s as [|c s IH]; simpl; [constructor|].
  destruct (isspace c); [assumption|].
  destruct s as [|c' s']; [repeat constructor; discriminate|].
  destruct (isspace c'); [constructor; [discriminate | assumption]|].
  destruct (py_split (c' :: s')) as [|w ws]; [repeat constructor; discriminate|].
  inversion IH; subst. constructor; [discriminate | assumption].
Qed.

Lemma py_split_length (s : list N) : length (py_split s) <= length s.
Proof.
  induction s as [|c s IH]; simpl; [lia|].
  destruct (isspace c); [lia|].
  destruct s as [|c' s']; [simpl; lia|].
  destruct (isspace c'); [simpl in *; lia|].
  destruct (py_split (c' :: s')) as [|w ws]; simpl in *; lia.
Qed.

Lemma remove_dups_length (l : list nat) : length (remove_dups l) <= length l.
Proof.
  induction l as [|x l IH]; simpl; [lia|].
  destruct (decide_rel elem_of x l); simpl; lia.
Qed.

Lemma all_distinct_NoDup (l : list nat) : all_distinct l = true <-> NoDup l.
Proof.
  unfold all_distinct. rewrite bool_decide_eq_true.
  induction l as [|x l IH]; simpl.
  - split; [constructor | reflexivity].
  - destruct (decide_rel elem_of x l) as [Hin|Hnin]; simpl.
    + split.
      * intros H. pose proof (remove_dups_length l). lia.
      * intros H. apply NoDup_cons in H as [H _]. contradiction.
    + rewrite NoDup_cons. split.
      * intros H. split; [assumption|]. apply IH. lia.
      * intros [_ H]. apply IH in H. lia.
Qed.

Lemma combinations_length {A} (l : list A) k c :
  c ∈ combinations l k -> length c = k.
Proof.
  revert k c. induction l as [|x t IH]; intros [|k] c; simpl.
  - intros H. apply list_elem_of_singleton in H. subst. reflexivity.
  - intros H. inversion H.
  - intros H. apply list_elem_of_singleton in H. subst. reflexivity.
  - rewrite elem_of_app, list_elem_of_fmap. intros [(c' & -> & H) | H].
    + simpl. f_equal. eauto.
    + apply (IH (S k)). exact H.
Qed.

Lemma combinations_sublist {A} (l : list A) k c :
  c ∈ combinations l k -> sublist c l.
Proof.
  revert k c. induction l as [|x t IH]; intros [|k] c; simpl.
  - intros H. apply list_elem_of_singleton in H. subst. constructor.
  - intros H. inversion H.
  - intros H. apply list_elem_of_singleton in H. subst. apply sublist_nil_l.
  - rewrite elem_of_app, list_elem_of_fmap. intros [(c' & -> & H) | H].
    + apply sublist_skip. eauto.
    + apply sublist_cons. apply (IH (S k)). exact H.
Qed.

Lemma sublist_combinations {A} (c l : list A) :
  sublist c l -> c ∈ combinations l (length c).
Proof.
  induction 1 as [|x c l _ IH|x c l _ IH]; simpl.
  - left.
  - apply elem_of_app. left. apply list_elem_of_fmap. eauto.
  - destruct c as [|y c]; simpl in *.
    + destruct l; left.
    + apply elem_of_app. right. exact IH.
Qed.

(** ** The score table *)

Lemma enumerate_from_Forall {A} (P : A -> Prop) (l : list A) a :
  Forall P l -> Forall (fun iw => P iw.2) (enumerate_from a l).
Proof.
  intros H. revert a. induction H; intros a; simpl; constructor; auto.
Qed.

Lemma enumerate_from_bounds {A} (l : list A) a iw :
  iw ∈ enumerate_from a l -> a <= iw.1 < a + length l /\ l !! (iw.1 - a) = Some iw.2.
Proof.
  revert a. induction l as [|x t IH]; intros a; simpl.
  - intros H. inversion H.
  - intros H. apply elem_of_cons in H as [-> | H].
    + simpl. replace (a - a) with 0 by lia. split; [lia | reflexivity].
    + apply IH in H as [H1 H2]. split; [lia|].
      replace (iw.1 - a) with (S (iw.1 - S a)) by lia. exact H2.
Qed.

Lemma table_bounds sc ws0 ws1 t :
  t ∈ table sc 0 ws0 0 ws1 ->
  exists w0 w1, ws0 !! e_left t = Some w0 /\ ws1 !! e_right t = Some w1
                /\ e_score t = sc w0 w1.
Proof.
  unfold table. rewrite list_elem_of_In, in_flat_map.
  intros (iw & Hi & Ht). apply list_elem_of_In in Hi, Ht.
  apply list_elem_of_fmap in Ht as (jw & -> & Hj).
  apply enumerate_from_bounds in Hi as [_ Hi], Hj as [_ Hj].
  rewrite Nat.sub_0_r in Hi, Hj. exists iw.2, jw.2. auto.
Qed.

Lemma table_drop_column sc a ws0 b w ws1 :
  sublist (table sc a ws0 (S b) ws1) (table sc a ws0 b (w :: ws1)).
Proof.
  unfold table. generalize (enumerate_from a ws0) as rows.
  induction rows as [|iw rows IH]; simpl; [constructor|].
  apply sublist_cons. apply sublist_app; [reflexivity | exact IH].
Qed.

Lemma table_diagonal sc ws0 ws1 a b :
  exists c, sublist c (table sc a ws0 b ws1)
            /\ map e_left c = seq a (length ws0 `min` length ws1)
            /\ map e_right c = seq b (length ws0 `min` length ws1).
Proof.
  revert ws1 a b. induction ws0 as [|w0 ws0 IH]; intros ws1 a b.
  - exists []. simpl. repeat split. constructor.
  - destruct ws1 as [|w1 ws1].
    + exists []. simpl. repeat split. apply sublist_nil_l.
    + destruct (IH ws1 (S a) (S b)) as (c & Hc & Hl & Hr).
      exists ((a, b, sc w0 w1) :: c). simpl. repeat split.
      * apply sublist_skip. apply sublist_inserts_l.
        etrans; [exact Hc | apply table_drop_column].
      * f_equal. exact Hl.
      * f_equal. exact Hr.
Qed.

Section Aligner.
Context (lib : externals).

Lemma pairScore_ok (w0 w1 : list N) :
  w0 <> [] -> w1 <> [] -> pairScore lib w0 w1 = Ok (scoreOf lib w0 w1).
Proof.
  intros H0 H1. unfold scoreOf.
  destruct w0 as [|c0 t0]; [contradiction|]. destruct w1 as [|c1 t1]; [contradiction|].
  unfold pairScore. simpl. reflexivity.
Qed.

Lemma scoreTable_ok (ws0 ws1 : list (list N)) :
  Forall (fun w => w <> []) ws0 -> Forall (fun w => w <> []) ws1 ->
  scoreTable lib ws0 ws1 = Ok (table (scoreOf lib) 0 ws0 0 ws1).
Proof.
  intros H0 H1. unfold scoreTable, table, enumerate.
  rewrite (mapR_Ok_map _
             (fun iw : nat * list N =>
                map (fun jw : nat * list N => (iw.1, jw.1, scoreOf lib iw.2 jw.2))
                    (enumerate_from 0 ws1))).
  - simpl. f_equal. induction (enumerate_from 0 ws0); simpl; [reflexivity|]. f_equal. assumption.
  - eapply Forall_impl; [apply enumerate_from_Forall, H0|].
    intros iw Hiw. simpl in Hiw. unfold scoreRow, enumerate.
    apply mapR_Ok_map.
    eapply Forall_impl; [apply enumerate_from_Forall, H1|].
    intros jw Hjw. simpl in Hjw. rewrite pairScore_ok by assumption. reflexivity.
Qed.

End Aligner.

(** ** The word-pair aligner *)

Lemma fold_left_choice {A} (f : A -> A -> A) (l : list A) (x : A) :
  (forall a b, f a b = a \/ f a b = b) -> fold_left f l x ∈ x :: l.
Proof.
  intros Hf. revert x. induction l as [|y t IH]; intros x; simpl; [left|].
  destruct (Hf x y) as [-> | ->].
  - specialize (IH x). apply elem_of_cons in IH as [-> | IH]; [left | right; right; exact IH].
  - right. apply IH.
Qed.

Lemma max_by_ok {A} (key : A -> Z) (l : list A) :
  l <> [] -> exists best, max_by key l = Ok best /\ best ∈ l.
Proof.
  destruct l as [|x t]; [contradiction|]. intros _. eexists. split; [reflexivity|].
  apply fold_left_choice. intros a b. destruct (key a <? key b)%Z; auto.
Qed.

Lemma min_by_ok {A} (key : A -> Z) (l : list A) :
  l <> [] -> exists best, min_by key l = Ok best /\ best ∈ l.
Proof.
  destruct l as [|x t]; [contradiction|]. intros _. eexists. split; [reflexivity|].
  apply fold_left_choice. intros a b. destruct (key b <? key a)%Z; auto.
Qed.

Lemma letterCount_from ws0 ws1 (c : list (nat * nat * Z)) (acc : nat) :
  Forall (in_range_of ws0 ws1) c ->
  exists n, foldR (fun n (t : nat * nat * Z) =>
                     w0 <- idx ws0 (e_left t);;
                     w1 <- idx ws1 (e_right t);;
                     Ok (n + (length w0 + length w1))) acc c = Ok n
            /\ acc <= n /\ (c <> [] -> acc < n).
Proof.
  intros H. revert acc. induction H as [|t c (w0 & w1 & H0 & H1 & N0 & N1) _ IH]; intros acc; simpl.
  - exists acc. split; [reflexivity|]. split; [lia | congruence].
  - unfold idx at 1. rewrite H0. simpl. unfold idx at 1. rewrite H1. simpl.
    destruct (IH (acc + (length w0 + length w1))) as (n & -> & Hle & _).
    exists n. split; [reflexivity|].
    destruct w0; [contradiction|]. simpl in *. split; [lia | intros _; lia].
Qed.

Lemma letterCount_ok ws0 ws1 c :
  Forall (in_range_of ws0 ws1) c ->
  exists n, letterCount ws0 ws1 c = Ok n /\ (c <> [] -> 0 < n).
Proof.
  intros H. destruct (letterCount_from ws0 ws1 c 0 H) as (n & Hn & _ & Hpos).
  exists n. split; assumption.
Qed.

Lemma pick_fold ws0 ws1 (l : list (list (nat * nat * Z))) st :
  Forall (Forall (in_range_of ws0 ws1)) l ->
  exists st', foldR (pickMostLetters ws0 ws1) st l = Ok st'
              /\ (st' = st \/ st'.1 ∈ l)
              /\ st.2 <= st'.2
              /\ (forall c n, c ∈ l -> letterCount ws0 ws1 c = Ok n -> n <= st'.2).
Proof.
  intros H. revert st. induction H as [|c l Hc _ IH]; intros st; simpl.
  - exists st. repeat split; auto. intros c n Hin. inversion Hin.
  - unfold pickMostLetters at 1.
    destruct (letterCount_ok ws0 ws1 c Hc) as (n & Hn & _). rewrite Hn. simpl.
    destruct (bool_decide (st.2 < n)) eqn:Hlt.
    + apply bool_decide_eq_true in Hlt. simpl.
      destruct (IH (c, n)) as (st' & -> & Hor & Hle & Hmax). simpl in *.
      exists st'. split; [reflexivity|]. repeat split.
      * right. destruct Hor as [-> | Hin]; [left | right; exact Hin].
      * lia.
      * intros c' n' Hin Hn'. apply elem_of_cons in Hin as [-> | Hin]; [|eauto].
        rewrite Hn in Hn'. inversion Hn'; subst. exact Hle.
    + apply bool_decide_eq_false in Hlt. simpl.
      destruct (IH st) as (st' & -> & Hor & Hle & Hmax).
      exists st'. split; [reflexivity|]. repeat split.
      * destruct Hor as [-> | Hin]; [left; reflexivity | right; right; exact Hin].
      * exact Hle.
      * intros c' n' Hin Hn'. apply elem_of_cons in Hin as [-> | Hin]; [|eauto].
        rewrite Hn in Hn'. inversion Hn'; subst. lia.
Qed.

Section AlignerSpec.
Context (lib : externals).

(** The aligner returns for every pair of names, and what it returns is
    [aligned]. *)
Lemma findWhichWordsMatchAndHowWell_ok (name0 name1 : list N) :
  exists combo, _findWhichWordsMatchAndHowWell lib name0 name1 = Ok combo
                /\ aligned lib name0 name1 combo.
Proof.
  unfold _findWhichWordsMatchAndHowWell.
  set (ws0 := py_split name0). set (ws1 := py_split name1).
  assert (N0 : Forall (fun w => w <> []) ws0) by apply py_split_nonempty.
  assert (N1 : Forall (fun w => w <> []) ws1) by apply py_split_nonempty.
  rewrite (scoreTable_ok lib ws0 ws1 N0 N1). simpl.
  set (scores := table (scoreOf lib) 0 ws0 0 ws1).
  set (k := length ws0 `min` length ws1).
  set (valid := filter (fun c => valid_combo c = true) (combinations scores k)).
  (* every valid combination has the properties *)
  assert (Hvalid : forall c, c ∈ valid ->
            length c = k /\ NoDup (map e_left c) /\ NoDup (map e_right c)
            /\ Forall (fun t => t ∈ scores) c).
  { intros c Hc. apply list_elem_of_filter in Hc as [Hv Hc].
    unfold valid_combo in Hv. apply andb_true_iff in Hv as [Hl Hr].
    apply all_distinct_NoDup in Hl, Hr.
    repeat split; [eapply combinations_length; eauto | assumption | assumption |].
    apply combinations_sublist in Hc. apply Forall_forall. intros t Ht.
    apply sublist_subseteq in Hc. apply Hc, Ht. }
  assert (Hscores : forall t, t ∈ scores -> in_range_of ws0 ws1 t).
  { intros t Ht. apply table_bounds in Ht as (w0 & w1 & H0 & H1 & _).
    exists w0, w1. repeat split; try assumption.
    - eapply (Forall_lookup_1 _ _ _ _ N0 H0).
    - eapply (Forall_lookup_1 _ _ _ _ N1 H1). }
  (* the diagonal is a valid combination *)
  assert (Hne : valid <> []).
  { destruct (table_diagonal (scoreOf lib) ws0 ws1 0 0) as (c & Hsub & Hl & Hr).
    assert (Hlen : length c = k).
    { rewrite <- (length_map e_left), Hl, length_seq. reflexivity. }
    assert (Hin : c ∈ valid).
    { apply list_elem_of_filter. split.
      - unfold valid_combo. apply andb_true_iff.
        split; apply all_distinct_NoDup; [rewrite Hl | rewrite Hr]; apply NoDup_seq.
      - rewrite <- Hlen. apply sublist_combinations, Hsub. }
    intros E. rewrite E in Hin. inversion Hin. }
  destruct (max_by_ok sum_scores valid Hne) as (best & -> & Hbest). simpl.
  set (maxc := filter (fun c => sum_scores c = sum_scores best) valid).
  assert (Hmaxc : forall c, c ∈ maxc -> c ∈ valid).
  { intros c Hc. apply list_elem_of_filter in Hc as [_ Hc]. exact Hc. }
  assert (Hbest' : best ∈ maxc).
  { apply list_elem_of_filter. split; [reflexivity | exact Hbest]. }
  assert (Hrange : Forall (Forall (in_range_of ws0 ws1)) maxc).
  { apply Forall_forall. intros c Hc. apply Hmaxc, Hvalid in Hc as (_ & _ & _ & Hc).
    eapply Forall_impl; [exact Hc | exact Hscores]. }
  destruct (pick_fold ws0 ws1 maxc ([], 0) Hrange) as (st & -> & Hor & _ & Hmax). simpl.
  exists st.1. split; [reflexivity|].
  assert (Hgood : forall c, c ∈ valid -> aligned lib name0 name1 c).
  { intros c Hc. destruct (Hvalid c Hc) as (Hl & Hnl & Hnr & Hsc).
    split; try assumption.
    eapply Forall_impl; [exact Hsc|]. intros t Ht. apply table_bounds in Ht. exact Ht. }
  destruct Hor as [-> | Hin]; [|apply Hgood, Hmaxc, Hin].
  (* nothing was picked: the combinations are empty *)
  simpl in *.
  assert (Hb : Forall (in_range_of ws0 ws1) best).
  { eapply Forall_forall in Hrange; eauto. }
  destruct (letterCount_ok ws0 ws1 best Hb) as (n & Hn & Hpos).
  specialize (Hmax best n Hbest' Hn).
  destruct best as [|t best].
  - apply Hgood. exact Hbest.
  - specialize (Hpos ltac:(discriminate)). lia.
Qed.

(** C4. For every pair of names, in particular for two non-empty cleaned
    names, the aligner returns normally, the combination it returns has
    exactly min(|L|, |R|) pairs (token counts), its left indices are pairwise
    distinct and its right indices are pairwise distinct. *)
Theorem findWhichWordsMatchAndHowWell_alignment (name0 name1 : list N) :
  exists combo,
    _findWhichWordsMatchAndHowWell lib name0 name1 = Ok combo
    /\ length combo = length (py_split name0) `min` length (py_split name1)
    /\ NoDup (map e_left combo)
    /\ NoDup (map e_right combo).
Proof.
  destruct (findWhichWordsMatchAndHowWell_ok name0 name1) as (combo & Hc & [Hlen Hl Hr _]).
  exists combo. auto.
Qed.

End AlignerSpec.

(** ** Spelling matcher and worth-continuing gate *)

Section Spelling.
Context (lib : externals).

Lemma consonantPairMatches_ok name0 name1 (t : nat * nat * Z) :
  is_Some (py_split name0 !! e_left t) -> is_Some (py_split name1 !! e_right t) ->
  exists b, consonantPairMatches lib name0 name1 t = Ok b.
Proof.
  intros [w0 H0] [w1 H1]. unfold consonantPairMatches, idx. rewrite H0, H1. simpl.
  repeat (match goal with |- context [if ?b then _ else _] => destruct b end; eauto).
Qed.

Lemma consonantMatchCount_ok name0 name1 (combo : list (nat * nat * Z)) :
  aligned lib name0 name1 combo ->
  exists count, consonantMatchCount lib name0 name1 combo = Ok count.
Proof.
  intros [_ _ _ H]. unfold consonantMatchCount.
  cut (forall acc, exists count,
         foldR (fun n tup => b <- consonantPairMatches lib name0 name1 tup;;
                             Ok (if (b : bool) then n + 1 else n)) acc combo = Ok count).
  { intros Hacc. apply Hacc. }
  induction H as [|t c (w0 & w1 & H0 & H1 & _) _ IH]; intros acc; simpl; [eauto|].
  destruct (consonantPairMatches_ok name0 name1 t) as [b ->]; [eauto | eauto |].
  simpl. apply IH.
Qed.


Lemma oneLetterMatchFails_ok name0 name1 (t : nat * nat * Z) :
  e_left t < length name0 -> e_right t < length name1 ->
  oneLetterMatchFails name0 name1 t = Ok (bool_decide (e_score t = 0%Z)).
Proof.
  intros H0 H1. unfold oneLetterMatchFails, idx.
  destruct (lookup_lt_is_Some_2 name0 _ H0) as [c0 ->].
  destruct (lookup_lt_is_Some_2 name1 _ H1) as [c1 ->]. simpl.
  rewrite andb_true_r. f_equal.
  destruct (Z.eqb_spec (e_score t) 0).
  - rewrite bool_decide_eq_true_2; auto.
  - rewrite bool_decide_eq_false_2; auto.
Qed.

(** X8. What the worth-continuing gate computes, for every pair of names: it
    returns, and it refuses exactly when some pair of the word combination
    has score 0 and the combination has at most three pairs, whether or not
    a word of the pair is an initial. *)
Lemma isWorthContinuing_counts_every_zero (name0 name1 : list N) :
  exists combo,
    _findWhichWordsMatchAndHowWell lib name0 name1 = Ok combo
    /\ _isWorthContinuing lib name0 name1
       = Ok (negb (bool_decide (1 <= zeroScoreCount combo) && bool_decide (length combo <= 3))).
Proof.
  destruct (findWhichWordsMatchAndHowWell_ok lib name0 name1) as (combo & Hc & Hal).
  exists combo. split; [exact Hc|].
  unfold _isWorthContinuing. rewrite Hc. simpl.
  assert (Hfold : forall acc,
    foldR (fun n m => b <- oneLetterMatchFails name0 name1 m;;
                      Ok (if (b : bool) then n + 1 else n)) acc combo
    = Ok (acc + zeroScoreCount combo)).
  { destruct Hal as [_ _ _ H]. unfold zeroScoreCount. clear Hc.
    induction H as [|t c (w0 & w1 & H0 & H1 & _) _ IH]; intros acc; simpl.
    - f_equal. lia.
    - rewrite oneLetterMatchFails_ok.
      2:{ apply lookup_lt_Some in H0. pose proof (py_split_length name0). lia. }
      2:{ apply lookup_lt_Some in H1. pose proof (py_split_length name1). lia. }
      simpl. rewrite filter_cons.
      destruct (decide (e_score t = 0%Z)) as [E|E].
      + rewrite bool_decide_eq_true_2 by assumption. rewrite IH. f_equal. simpl. lia.
      + rewrite bool_decide_eq_false_2 by assumption. rewrite IH. f_equal. }
  rewrite Hfold. simpl.
  destruct (bool_decide (1 <= zeroScoreCount combo) && bool_decide (length combo <= 3)); reflexivity.
Qed.

End Spelling.

(** ** Strings *)

Lemma eqc_eq (a b : N) : eqc a b = true <-> a = b.
Proof. apply N.eqb_eq. Qed.

Lemma eqs_eq (a b : list N) : eqs a b = true <-> a = b.
Proof.
  revert b. induction a as [|x a IH]; intros [|y b]; simpl; try (split; [discriminate | congruence]).
  - tauto.
  - rewrite andb_true_iff, eqc_eq, IH. split; [intros [-> ->]; reflexivity | intros [= -> ->]; auto].
Qed.

Lemma startswith_app (s p : list N) :
  startswith s p = true <-> exists t, s = p ++ t.
Proof.
  revert s. induction p as [|x p IH]; intros s; simpl.
  - split; [intros _; exists s; reflexivity | reflexivity].
  - destruct s as [|y s]; [split; [discriminate | intros [t [=]]]|].
    rewrite andb_true_iff, eqc_eq, IH. split.
    + intros [-> [t ->]]. exists t. reflexivity.
    + intros [t [= -> ->]]. split; [reflexivity | exists t; reflexivity].
Qed.

Lemma contains_startswith (s p : list N) : startswith s p = true -> contains s p = true.
Proof. intros H. destruct s; simpl; rewrite H; reflexivity. Qed.

Lemma contains_app (x p y : list N) : contains (x ++ p ++ y) p = true.
Proof.
  induction x as [|c x IH]; simpl.
  - apply contains_startswith, startswith_app. eauto.
  - rewrite IH. apply orb_true_r.
Qed.

Section Scores.
Context (lib : externals).

(** C5. For a pair of words with first characters [c0] and [c1]: when
    either word has length 1 the score is 100 if [c0 = c1] and 0 otherwise;
    when both are longer the score is the larger of [ratio] and
    [partial_ratio] if [c0 = c1], and it is [ratio] if they differ. *)
Theorem pairScore_spec (word0 word1 : list N) (c0 c1 : N) :
  head word0 = Some c0 -> head word1 = Some c1 ->
  (length word0 = 1 \/ length word1 = 1 ->
     pairScore lib word0 word1 = Ok (if decide (c0 = c1) then 100%Z else 0%Z))
  /\ (1 < length word0 -> 1 < length word1 -> c0 = c1 ->
        pairScore lib word0 word1
        = Ok (fuzz_ratio lib word0 word1 `max` fuzz_partial_ratio lib word0 word1)%Z)
  /\ (1 < length word0 -> 1 < length word1 -> c0 <> c1 ->
        pairScore lib word0 word1 = Ok (fuzz_ratio lib word0 word1)).
Proof.
  intros H0 H1.
  destruct word0 as [|x t0]; [discriminate|]. destruct word1 as [|y t1]; [discriminate|].
  simpl in H0, H1. injection H0 as ->. injection H1 as ->.
  unfold pairScore, idx. cbn [lookup list_lookup bindR].
  repeat split.
  - intros Hlen.
    replace (bool_decide (length (c0 :: t0) = 1) || bool_decide (length (c1 :: t1) = 1)) with true.
    2:{ symmetry. apply orb_true_iff. destruct Hlen; [left | right]; apply bool_decide_eq_true; assumption. }
    unfold eqc. destruct (N.eqb_spec c0 c1); destruct (decide (c0 = c1)); congruence.
  - intros L0 L1 ->.
    rewrite !bool_decide_eq_false_2 by lia. unfold eqc. rewrite N.eqb_refl. reflexivity.
  - intros L0 L1 Hne.
    rewrite !bool_decide_eq_false_2 by lia. unfold eqc.
    destruct (N.eqb_spec c0 c1); [contradiction | reflexivity].
Qed.

End Scores.

(** ** The rule engine *)

Lemma search_go_spec (m : Re.matcher) pos prev s a b :
  Re.search_go m pos prev s = Some (a, b) ->
  exists pre t prev' n, s = pre ++ t /\ a = pos + length pre /\ b = a + n /\ m prev' t = Some n.
Proof.
  revert pos prev. induction s as [|c s IH]; intros pos prev; simpl.
  - destruct (m prev []) as [n|] eqn:E; [|discriminate].
    intros [= <- <-]. exists [], [], prev, n. simpl. repeat split; [lia | exact E].
  - destruct (m prev (c :: s)) as [n|] eqn:E.
    + intros [= <- <-]. exists [], (c :: s), prev, n. simpl. repeat split; [lia | exact E].
    + intros H. apply IH in H as (pre & t & prev' & n & -> & -> & -> & Hm).
      exists (c :: pre), t, prev', n. simpl. repeat split; [lia | exact Hm].
Qed.






(** ** The memoization cache *)

Section CacheFacts.
Context (lib : externals) (self : comparator).

Lemma transparent_ret {A} (a : A) : transparent lib self (retC a).
Proof. exists (Ok a). intros c Hc. split; [reflexivity | exact Hc]. Qed.

Lemma transparent_lift {A} (r : result A) : transparent lib self (liftC r).
Proof. exists r. intros c Hc. split; [reflexivity | exact Hc]. Qed.

Lemma transparent_bind {A B} (m : cached A) (f : A -> cached B) :
  transparent lib self m -> (forall a, transparent lib self (f a)) -> transparent lib self (bindC m f).
Proof.
  intros [r Hm] Hf. destruct r as [a|e].
  - destruct (Hf a) as [r' Hr']. exists r'. intros c Hc.
    destruct (Hm c Hc) as [H1 H2]. unfold bindC.
    destruct (m c) as [r1 c1]. simpl in *. subst r1. apply Hr', H2.
  - exists (Raise e). intros c Hc.
    destruct (Hm c Hc) as [H1 H2]. unfold bindC.
    destruct (m c) as [r1 c1]. simpl in *. subst r1. split; [reflexivity | exact H2].
Qed.

Lemma cache_find_ok c key v :
  cache_ok lib self c -> cache_find c key = Some v -> getIpaOfOneWord_body lib self key = Ok v.
Proof.
  intros Hc. unfold cache_find.
  destruct (List.find _ c) as [kv|] eqn:E; [|discriminate].
  simpl. intros [= <-]. apply find_some in E as [Hin Hk].
  apply eqs_eq in Hk. subst key.
  apply list_elem_of_In in Hin. eapply Forall_forall in Hc; eauto.
Qed.

Lemma transparent_getIpaOfOneWord (word : list N) :
  transparent lib self (_getIpaOfOneWord lib self word).
Proof.
  exists (getIpaOfOneWord_body lib self word). intros c Hc.
  unfold _getIpaOfOneWord, lru_cache.
  destruct (cache_find c word) as [v|] eqn:E.
  - pose proof (cache_find_ok c word v Hc E) as Hv. simpl. split; [congruence|].
    constructor; [exact Hv|]. apply Forall_forall. intros kv Hkv.
    apply list_elem_of_filter in Hkv as [_ Hkv]. eapply Forall_forall in Hc; eauto.
  - destruct (getIpaOfOneWord_body lib self word) as [v|e] eqn:Hv; simpl.
    + split; [reflexivity|]. constructor; [exact Hv|]. apply Forall_take. exact Hc.
    + split; [reflexivity | exact Hc].
Qed.

Lemma transparent_mapC {A B} (f : A -> cached B) (l : list A) :
  (forall x, transparent lib self (f x)) -> transparent lib self (mapC f l).
Proof.
  intros Hf. induction l as [|x t IH]; simpl.
  - apply transparent_ret.
  - apply transparent_bind; [apply Hf|]. intros y.
    apply transparent_bind; [exact IH|]. intros ys. apply transparent_ret.
Qed.

Ltac transparency :=
  repeat first
    [ apply transparent_ret
    | apply transparent_lift
    | apply transparent_getIpaOfOneWord
    | apply transparent_mapC; intros
    | apply transparent_bind; [|intros]
    | match goal with
      | |- transparent _ _ (if ?b then _ else _) => destruct b
      | |- transparent _ _ (match ?x with _ => _ end) => destruct x
      end ].

Lemma transparent_getPronunciation (name : list N) :
  transparent lib self (_getPronunciation lib self name).
Proof. unfold _getPronunciation. transparency. Qed.

Lemma transparent_pronunciationComparison (name0 name1 : list N) :
  transparent lib self (_pronunciationComparison lib self name0 name1).
Proof.
  unfold _pronunciationComparison.
  repeat first
    [ apply transparent_getPronunciation
    | apply transparent_ret
    | apply transparent_lift
    | apply transparent_bind; [|intros]
    | match goal with
      | |- transparent _ _ (if ?b then _ else _) => destruct b
      end ].
Qed.

Lemma transparent_compareTwoNames (name0 name1 : list N) :
  transparent lib self (compareTwoNames lib self name0 name1).
Proof.
  unfold compareTwoNames.
  repeat first
    [ apply transparent_pronunciationComparison
    | apply transparent_ret
    | apply transparent_lift
    | apply transparent_bind; [|intros]
    | match goal with
      | |- transparent _ _ (if ?b then _ else _) => destruct b
      | |- transparent _ _ (let '(_, _) := ?x in _) => destruct x
      end ].
Qed.

Lemma reachable_ok c : reachable lib self c -> cache_ok lib self c.
Proof.
  induction 1 as [|name0 name1 c _ IH]; [constructor|].
  destruct (transparent_compareTwoNames name0 name1) as [r Hr]. apply Hr, IH.
Qed.

(** C10. On a comparator with fixed reference tables, whatever calls came
    before, two successive calls of [compareTwoNames] on the same two names
    return the same result (record or exception), which is also the result on
    a cold cache: the memoization of [_getIpaOfOneWord] changes no returned
    value. *)
Theorem compareTwoNames_deterministic (name0 name1 : list N) (c : list (list N * list N)) :
  reachable lib self c ->
  let first := compareTwoNames lib self name0 name1 c in
  let second := compareTwoNames lib self name0 name1 first.2 in
  second.1 = first.1 /\ first.1 = (compareTwoNames lib self name0 name1 []).1.
Proof.
  intros Hc first second.
  destruct (transparent_compareTwoNames name0 name1) as [r Hr].
  pose proof (reachable_ok c Hc) as Hok.
  destruct (Hr c Hok) as [H1 H2].
  destruct (Hr _ H2) as [H3 _].
  destruct (Hr [] (Forall_nil_2 _)) as [H4 _].
  subst first second. split; congruence.
Qed.

End CacheFacts.

(** ** The single-name cleaner on a settled name

    Steps that find nothing to do. *)

Lemma sub_go_absent m repl pos prev s :
  Re.search_go m pos prev s = None -> Re.sub_go m repl 0 prev s = s.
Proof.
  revert pos prev. induction s as [|c s IH]; intros pos prev; simpl; [reflexivity|].
  destruct (m prev (c :: s)); [discriminate|]. intros H. f_equal. eapply IH, H.
Qed.

Lemma sub_absent m repl s : absent m s = true -> Re.sub m repl s = s.
Proof.
  unfold absent, Re.sub, Re.search. destruct (Re.search_go m 0 None s) eqn:E; [discriminate|].
  intros _. eapply sub_go_absent, E.
Qed.

Lemma replace_go_absent old new s :
  contains s old = false -> py_replace_go old new 0 s = s.
Proof.
  induction s as [|c s IH]; simpl; [reflexivity|].
  intros H. apply orb_false_iff in H as [H1 H2]. rewrite H1. f_equal. apply IH, H2.
Qed.

Lemma replace_absent s old new :
  contains s old = false -> py_replace s old new = s.
Proof.
  intros H. unfold py_replace. destruct old as [|x old].
  - destruct s; discriminate.
  - apply replace_go_absent, H.
Qed.

Lemma tidy_only_spaces s : tidy s = true -> Re.blank_to_space s = s.
Proof.
  unfold Re.blank_to_space. induction s as [|c s IH]; simpl; [reflexivity|].
  intros H. apply andb_true_iff in H as [H1 H2]. rewrite (IH H2). f_equal.
  destruct (isspace c); [|reflexivity].
  apply andb_true_iff in H1 as [H1 _]. rewrite H1. reflexivity.
Qed.

Lemma squeeze_tidy s inrun :
  tidy s = true -> (inrun = true -> starts_with_letter s = true \/ s = []) ->
  Re.squeeze (fun c => eqc c space) inrun s = s.
Proof.
  revert inrun. induction s as [|c s IH]; intros inrun; simpl; [reflexivity|].
  intros H Hrun. apply andb_true_iff in H as [H1 H2].
  destruct (eqc c space) eqn:Ec.
  - apply eqc_eq in Ec. subst c. change (isspace space) with true in *.
    simpl in H1. destruct inrun.
    + destruct (Hrun eq_refl) as [Hs | Hs]; discriminate.
    + f_equal. apply IH; [exact H2|]. intros _.
      destruct s as [|c' s']; [discriminate|]. left. simpl. exact H1.
  - f_equal. apply IH; [exact H2 | discriminate].
Qed.

Lemma squeeze_spaces_tidy s : tidy s = true -> squeeze_spaces s = s.
Proof. intros H. apply squeeze_tidy; [exact H | discriminate]. Qed.

Lemma lstrip_letter s : starts_with_letter s = true -> py_lstrip s = s.
Proof.
  destruct s as [|c s]; [discriminate|]. simpl.
  destruct (isspace c); [discriminate | reflexivity].
Qed.

Lemma tidy_last s c : tidy s = true -> last s = Some c -> isspace c = false.
Proof.
  induction s as [|x s IH]; [discriminate|].
  intros H. simpl in H. apply andb_true_iff in H as [H1 H2].
  destruct s as [|y s'].
  - simpl. intros [= ->]. destruct (isspace c); [|reflexivity].
    apply andb_true_iff in H1 as [_ H1]. discriminate.
  - intros Hl. apply IH; [exact H2|]. exact Hl.
Qed.

Lemma rstrip_tidy s : tidy s = true -> py_rstrip s = s.
Proof.
  intros H. unfold py_rstrip.
  destruct (rev s) as [|c r] eqn:E.
  - rewrite <- (rev_involutive s), E. reflexivity.
  - assert (Hl : last s = Some c).
    { rewrite <- (rev_involutive s), E. simpl. apply last_snoc. }
    simpl. rewrite (tidy_last s c H Hl). rewrite <- E. apply rev_involutive.
Qed.

Lemma strip_tidy s : starts_with_letter s = true -> tidy s = true -> py_strip s = s.
Proof. intros H1 H2. unfold py_strip. rewrite lstrip_letter by exact H1. apply rstrip_tidy, H2. Qed.

Section Plain.
Context (lib : externals).

Lemma unidecode_plain s : forallb plain s = true -> unidecode lib s = s.
Proof.
  unfold unidecode. induction s as [|c s IH]; simpl; [reflexivity|].
  intros H. apply andb_true_iff in H as [H1 H2]. rewrite (IH H2).
  unfold plain in H1. apply andb_true_iff in H1 as [H1 _]. apply andb_true_iff in H1 as [H1 _].
  rewrite H1. reflexivity.
Qed.

Lemma lower_plain s : forallb plain s = true -> lower lib s = s.
Proof.
  unfold lower, py_lower. induction s as [|c s IH]; simpl; [reflexivity|].
  intros H. apply andb_true_iff in H as [H1 H2]. rewrite (IH H2).
  unfold plain in H1. apply andb_true_iff in H1 as [H1 _]. apply andb_true_iff in H1 as [H1 H3].
  rewrite H1. apply negb_true_iff in H3. rewrite H3. reflexivity.
Qed.

End Plain.

Lemma drop_punct_plain s : forallb plain s = true -> Re.drop_punct s = s.
Proof.
  unfold Re.drop_punct. induction s as [|c s IH]; [reflexivity|].
  simpl. intros H. apply andb_true_iff in H as [H1 H2].
  unfold plain in H1. apply andb_true_iff in H1 as [_ H1]. apply negb_true_iff in H1.
  rewrite filter_cons. destruct (decide (Re.is_punct c = false)); [|contradiction].
  f_equal. apply IH, H2.
Qed.

Lemma apostrophe_spaces_absent s after :
  contains s (py "' ") = false ->
  (after = true -> forall c s', s = c :: s' -> eqc c space = false) ->
  Re.apostrophe_spaces after s = s.
Proof.
  revert after. induction s as [|c s IH]; intros after; [reflexivity|].
  cbn [contains Re.apostrophe_spaces].
  intros H Hafter. apply orb_false_iff in H as [H1 H2].
  assert (Hskip : after && eqc c space = false).
  { destruct after; [|reflexivity]. simpl. eapply Hafter; reflexivity. }
  rewrite Hskip. f_equal. apply IH; [exact H2|].
  intros Ea c' s' ->. apply eqc_eq in Ea. subst c.
  change (py "' ") with [apostrophe; space] in H1. cbn [startswith] in H1.
  unfold eqc in *. rewrite N.eqb_refl in H1. cbn [andb] in H1.
  rewrite andb_true_r in H1. rewrite N.eqb_sym. exact H1.
Qed.

Lemma join_cons_letter c w ws : py_join [space] ((c :: w) :: ws) = c :: py_join [space] (w :: ws).
Proof. destruct ws; reflexivity. Qed.

Lemma join_split_tidy s : tidy s = true -> py_join [space] (py_split s) = py_lstrip s.
Proof.
  induction s as [|c s IH]; [reflexivity|].
  intros H. cbn [tidy] in H. apply andb_true_iff in H as [H1 H2].
  specialize (IH H2). cbn [py_split py_lstrip].
  destruct (isspace c) eqn:Ec; [exact IH|].
  destruct s as [|c' s']; [reflexivity|].
  cbn [tidy] in H2. apply andb_true_iff in H2 as [H3 H4].
  cbn [py_lstrip] in IH.
  destruct (isspace c') eqn:Ec'.
  - apply andb_true_iff in H3 as [H3 H5]. apply eqc_eq in H3. subst c'.
    destruct s' as [|c'' s'']; [discriminate|].
    cbn [py_lstrip] in IH. apply negb_true_iff in H5. rewrite H5 in IH.
    destruct (py_split (space :: c'' :: s'')) as [|w ws]; [discriminate|].
    change (py_join [space] ([c] :: w :: ws))
      with ([c] ++ [space] ++ py_join [space] (w :: ws)).
    rewrite IH. reflexivity.
  - destruct (py_split (c' :: s')) as [|w ws]; [discriminate|].
    rewrite join_cons_letter, IH. reflexivity.
Qed.

Lemma map_id_Forall {A} (f : A -> A) (l : list A) :
  Forall (fun x => f x = x) l -> map f l = l.
Proof. induction 1; simpl; congruence. Qed.

Section Fixed.
Context (lib : externals).

(** A settled name is a fixed point of the cleaner. *)
Lemma cleanNameByItself_settled (s : list N) :
  settled lib s = true -> _cleanNameByItself lib s = s.
Proof.
  unfold settled, removedWords, removedTexts. cbn [forallb].
  rewrite !andb_true_iff, !negb_true_iff.
  intros H. decompose record H. clear H.
  assert (Hne : eqs s [] = false) by (destruct s; [discriminate | reflexivity]).
  assert (Hroman : map (Re.sub (Re.alt_words (isw lib) [py "ii"; py "iii"; py "iv"]) []) (py_split s)
                   = py_split s).
  { apply map_id_Forall. apply Forall_forall. intros w Hw. apply sub_absent.
    match goal with H : forallb _ (py_split s) = true |- _ =>
      rewrite forallb_forall in H; apply H, list_elem_of_In, Hw end. }
  unfold _cleanNameByItself, remove_word. cbv zeta.
  rewrite Hne.
  rewrite tidy_only_spaces by assumption.
  rewrite squeeze_spaces_tidy by assumption.
  rewrite strip_tidy by assumption.
  rewrite unidecode_plain by assumption.
  rewrite lower_plain by assumption.
  rewrite Hne.
  rewrite drop_punct_plain by assumption.
  rewrite apostrophe_spaces_absent by (assumption || discriminate).
  repeat first [ rewrite (sub_absent _ _ s) by assumption
               | rewrite (replace_absent s) by assumption
               | rewrite (squeeze_spaces_tidy s) by assumption
               | rewrite (strip_tidy s) by assumption ].
  rewrite Hroman, join_split_tidy, lstrip_letter by assumption.
  repeat first [ rewrite (sub_absent _ _ s) by assumption
               | rewrite (replace_absent s) by assumption
               | rewrite (squeeze_spaces_tidy s) by assumption
               | rewrite (strip_tidy s) by assumption ].
  reflexivity.
Qed.

(** C3, amended. Single-name cleaning is idempotent at every string whose
    cleaned form is settled: non-empty, lower-case ASCII without the removed
    punctuation, single spaces between words only, and no pattern of the
    cleaner (title, suffix, relation word, Roman numeral, Dutch prefix) left
    in it. *)
Theorem cleanNameByItself_idempotent_when_settled (name : list N) :
  settled lib (_cleanNameByItself lib name) = true ->
  _cleanNameByItself lib (_cleanNameByItself lib name) = _cleanNameByItself lib name.
Proof. apply cleanNameByItself_settled. Qed.

End Fixed.

(** ** The pipeline on concrete names *)

(** C1. On the names [mr] and [john smith] the comparison raises instead of
    returning a record, whatever the libraries, the tables and the cache: the
    title is removed after the blank-name tests, the cleaned name is the
    empty string, and [_hasRareSurname] takes the last word of no words. *)
Theorem compareTwoNames_title_only_raises (lib : externals) (self : comparator)
    (c : list (list N * list N)) :
  _cleanNameByItself lib (py "mr") = []
  /\ compareTwoNames lib self (py "mr") (py "john smith") c = (Raise IndexError, c).
Proof. split; vm_compute; reflexivity. Qed.

(** C2. With the reference libraries and empty tables the verdict for
    [john abcde] against [john abxce] is a match, and the verdict for the same
    two names in the other order is no match. *)
Theorem compareTwoNames_verdict_depends_on_order :
  verdict (compareTwoNames refLib refTables (py "john abcde") (py "john abxce") []).1
    = Ok true
  /\ verdict (compareTwoNames refLib refTables (py "john abxce") (py "john abcde") []).1
    = Ok false.
Proof. split; vm_compute; reflexivity. Qed.

(** C3, as stated, fails: cleaning [m the r] gives [mr], which a second pass
    empties; cleaning [mr] gives the empty string, which a second pass turns
    into the sentinel. *)
Theorem cleanNameByItself_not_idempotent :
  _cleanNameByItself refLib (_cleanNameByItself refLib (py "m the r"))
    <> _cleanNameByItself refLib (py "m the r")
  /\ _cleanNameByItself refLib (_cleanNameByItself refLib (py "mr"))
    <> _cleanNameByItself refLib (py "mr").
Proof. split; vm_compute; discriminate. Qed.

(** C7. For [john abc] against [john xyz] the aligned pair of score 0 joins
    two three-letter words, no word of either name is an initial, and the gate
    still refuses to continue. *)
Theorem isWorthContinuing_refuses_without_initial :
  _findWhichWordsMatchAndHowWell refLib (py "john abc") (py "john xyz")
    = Ok [(0, 0, 100%Z); (1, 1, 0%Z)]
  /\ Forall (fun w => 1 < length w) (py_split (py "john abc") ++ py_split (py "john xyz"))
  /\ _isWorthContinuing refLib (py "john abc") (py "john xyz") = Ok false.
Proof.
  split; [vm_compute; reflexivity|]. split; [|vm_compute; reflexivity].
  repeat constructor.
Qed.

(** C9. [abcde] and [abxce] differ at the adjacent positions 2 and 3 with
    [L[2] = R[3]] but [L[3] <> R[2]], which is no transposition, and the
    repair still overwrites the left word with the right one. *)
Theorem fixSwappedChars_overwrites_without_transposition :
  diffPositions (py "abcde") (py "abxce") = [2; 3]
  /\ py "abcde" !! 2 = py "abxce" !! 3
  /\ py "abcde" !! 3 <> py "abxce" !! 2
  /\ _fixSwappedChars refLib (py "abcde") (py "abxce") = Ok (py "abxce", py "abxce").
Proof.
  split; [vm_compute; reflexivity|]. split; [reflexivity|].
  split; [vm_compute; discriminate | vm_compute; reflexivity].
Qed.

Lemma pairScore_spec_witness :
  pairScore refLib (py "john") (py "jon") = Ok 86%Z.
Proof.
  destruct (pairScore_spec refLib (py "john") (py "jon") (ch "j") (ch "j") eq_refl eq_refl)
    as (_ & H & _).
  rewrite H; [vm_compute; reflexivity | simpl; lia | simpl; lia | reflexivity].
Defined.

(** Two names that reach the pronunciation attempts, on a cache that an
    earlier call has filled: the earlier call leaves three words in the
    cache, the first call below finds three of its four words there and
    stores the fourth, and the second call finds all four. *)
Lemma compareTwoNames_deterministic_witness :
  let c := (compareTwoNames refLib refTables (py "john abxce") (py "john abcde") []).2 in
  let first := compareTwoNames refLib refTables (py "john abxce") (py "jane abcde") c in
  let second := compareTwoNames refLib refTables (py "john abxce") (py "jane abcde") first.2 in
  (length c = 3 /\ length first.2 = 4 /\ verdict first.1 = Ok false)
  /\ second.1 = first.1
  /\ first.1 = (compareTwoNames refLib refTables (py "john abxce") (py "jane abcde") []).1.
Proof.
  split; [repeat split; vm_compute; reflexivity|].
  apply (compareTwoNames_deterministic refLib refTables (py "john abxce") (py "jane abcde")
           (compareTwoNames refLib refTables (py "john abxce") (py "john abcde") []).2).
  apply reach_call, reach_new.
Defined.

Lemma cleanNameByItself_idempotent_witness :
  _cleanNameByItself refLib (_cleanNameByItself refLib (py "  Dr. John   van der Berg Jr.  "))
  = _cleanNameByItself refLib (py "  Dr. John   van der Berg Jr.  ").
Proof.
  apply (cleanNameByItself_idempotent_when_settled refLib). vm_compute. reflexivity.
Defined.

(** * Further properties

    Error and edge behaviour, invariants and extremal properties of the
    comparator, read off the code.

    ** What the word-pair aligner maximises *)

Lemma fold_left_max {A} (key : A -> Z) (l : list A) (x : A) :
  let best := fold_left (fun best y => if (key best <? key y)%Z then y else best) l x in
  (key x <= key best)%Z /\ forall y, y ∈ l -> (key y <= key best)%Z.
Proof.
  revert x. induction l as [|y l IH]; intros x; simpl.
  - split; [lia|]. intros y Hy. inversion Hy.
  - destruct (key x <? key y)%Z eqn:E.
    + apply Z.ltb_lt in E. destruct (IH y) as [H1 H2]. split; [lia|].
      intros z Hz. apply elem_of_cons in Hz as [-> | Hz]; [exact H1 | apply H2, Hz].
    + apply Z.ltb_ge in E. destruct (IH x) as [H1 H2]. split; [exact H1|].
      intros z Hz. apply elem_of_cons in Hz as [-> | Hz]; [lia | apply H2, Hz].
Qed.

Lemma max_by_max {A} (key : A -> Z) (l : list A) (best : A) :
  max_by key l = Ok best -> forall y, y ∈ l -> (key y <= key best)%Z.
Proof.
  destruct l as [|x l]; [discriminate|]. simpl. intros [= <-] y Hy.
  destruct (fold_left_max key l x) as [H1 H2].
  apply elem_of_cons in Hy as [-> | Hy]; [exact H1 | apply H2, Hy].
Qed.

Lemma pick_fold_count ws0 ws1 (l : list (list (nat * nat * Z))) st :
  Forall (Forall (in_range_of ws0 ws1)) l ->
  letterCount ws0 ws1 st.1 = Ok st.2 ->
  exists st', foldR (pickMostLetters ws0 ws1) st l = Ok st'
              /\ (st' = st \/ st'.1 ∈ l)
              /\ letterCount ws0 ws1 st'.1 = Ok st'.2
              /\ (forall c n, c ∈ l -> letterCount ws0 ws1 c = Ok n -> n <= st'.2).
Proof.
  intros H. revert st. induction H as [|c l Hc H IH]; intros st Hst; simpl.
  - exists st. repeat split; auto. intros c n Hin. inversion Hin.
  - unfold pickMostLetters at 1.
    destruct (letterCount_ok ws0 ws1 c Hc) as (n & Hn & _). rewrite Hn. simpl.
    destruct (bool_decide (st.2 < n)) eqn:Hlt; simpl.
    + apply bool_decide_eq_true in Hlt.
      destruct (IH (c, n) Hn) as (st' & E & Hor & Hcount & Hmax).
      destruct (pick_fold ws0 ws1 l (c, n) H) as (st3 & E3 & _ & Hle3 & _).
      assert (st' = st3) by congruence. subst st3.
      exists st'. split; [exact E|]. repeat split; [| exact Hcount |].
      * right. destruct Hor as [-> | Hin]; [left | right; exact Hin].
      * intros c' n' Hin Hn'. apply elem_of_cons in Hin as [-> | Hin]; [|eauto].
        rewrite Hn in Hn'. injection Hn' as <-. exact Hle3.
    + apply bool_decide_eq_false in Hlt.
      destruct (IH st Hst) as (st' & E & Hor & Hcount & Hmax).
      exists st'. split; [exact E|]. repeat split; [| exact Hcount |].
      * destruct Hor as [-> | Hin]; [left; reflexivity | right; right; exact Hin].
      * intros c' n' Hin Hn'. apply elem_of_cons in Hin as [-> | Hin]; [|eauto].
        rewrite Hn in Hn'. injection Hn' as <-.
        destruct (pick_fold ws0 ws1 l st H) as (st3 & E3 & _ & Hle3 & _).
        assert (st' = st3) by congruence. subst. simpl in *. lia.
Qed.

Lemma enumerate_from_lookup {A} (l : list A) a i x :
  l !! i = Some x -> (a + i, x) ∈ enumerate_from a l.
Proof.
  revert a i. induction l as [|y t IH]; intros a [|i]; simpl; try discriminate.
  - intros [= ->]. rewrite Nat.add_0_r. left.
  - intros H. right. replace (a + S i) with (S a + i) by lia. apply IH, H.
Qed.

Lemma table_elem sc ws0 ws1 i j w0 w1 :
  ws0 !! i = Some w0 -> ws1 !! j = Some w1 ->
  (i, j, sc w0 w1) ∈ table sc 0 ws0 0 ws1.
Proof.
  intros H0 H1. unfold table. apply list_elem_of_In, in_flat_map.
  exists (i, w0). split.
  - apply list_elem_of_In. apply (enumerate_from_lookup ws0 0 i w0 H0).
  - apply list_elem_of_In, list_elem_of_fmap. exists (j, w1). split; [reflexivity|].
    apply (enumerate_from_lookup ws1 0 j w1 H1).
Qed.

Lemma sum_scores_perm (c c' : list (nat * nat * Z)) :
  c ≡ₚ c' -> sum_scores c = sum_scores c'.
Proof.
  unfold sum_scores. induction 1; simpl; lia.
Qed.

Lemma letterCount_sum ws0 ws1 (c : list (nat * nat * Z)) (acc : nat) :
  Forall (in_range_of ws0 ws1) c ->
  foldR (fun n (t : nat * nat * Z) =>
           w0 <- idx ws0 (e_left t);;
           w1 <- idx ws1 (e_right t);;
           Ok (n + (length w0 + length w1))) acc c
  = Ok (acc + sum_list_with (fun t => length (default [] (ws0 !! e_left t))
                                      + length (default [] (ws1 !! e_right t))) c).
Proof.
  intros H. revert acc. induction H as [|t c (w0 & w1 & H0 & H1 & _) _ IH]; intros acc; simpl.
  - f_equal. lia.
  - unfold idx at 1. rewrite H0. simpl. unfold idx at 1. rewrite H1. simpl.
    rewrite IH. f_equal. lia.
Qed.

Lemma letterCount_perm ws0 ws1 (c c' : list (nat * nat * Z)) :
  Forall (in_range_of ws0 ws1) c -> c ≡ₚ c' ->
  letterCount ws0 ws1 c = letterCount ws0 ws1 c'.
Proof.
  intros H P. unfold letterCount.
  rewrite (letterCount_sum ws0 ws1 c 0 H).
  rewrite (letterCount_sum ws0 ws1 c' 0) by (rewrite <- P; exact H).
  f_equal. f_equal. apply sum_list_with_Permutation_proper. exact P.
Qed.

Section AlignerExtremal.
Context (lib : externals).

(** Every list of pairs that is [aligned] is, up to the order of its pairs,
    one of the combinations the aligner filters. *)
Lemma aligned_is_valid_combination (name0 name1 : list N) (c : list (nat * nat * Z)) :
  aligned lib name0 name1 c ->
  exists c', c ≡ₚ c'
    /\ c' ∈ filter (fun c => valid_combo c = true)
              (combinations (table (scoreOf lib) 0 (py_split name0) 0 (py_split name1))
                            (length (py_split name0) `min` length (py_split name1))).
Proof.
  intros [Hlen Hl Hr Hw].
  set (scores := table (scoreOf lib) 0 (py_split name0) 0 (py_split name1)).
  assert (Hnd : NoDup c) by (eapply NoDup_fmap_1; exact Hl).
  assert (Hin : forall t, t ∈ c -> t ∈ scores).
  { intros t Ht. eapply Forall_forall in Hw; [|exact Ht].
    destruct Hw as (w0 & w1 & H0 & H1 & Hs).
    destruct t as [[i j] s]. simpl in *. subst s. apply table_elem; assumption. }
  destruct (proj1 (submseteq_sublist_r c scores) (NoDup_submseteq c scores Hnd Hin))
    as (c' & P & Hsub).
  exists c'. split; [exact P|]. apply list_elem_of_filter. split.
  - unfold valid_combo. apply andb_true_iff. split; apply all_distinct_NoDup.
    + rewrite <- P. exact Hl.
    + rewrite <- P. exact Hr.
  - rewrite <- Hlen, P. apply sublist_combinations, Hsub.
Qed.

Lemma aligned_in_range (name0 name1 : list N) (c : list (nat * nat * Z)) :
  aligned lib name0 name1 c -> Forall (in_range_of (py_split name0) (py_split name1)) c.
Proof.
  intros [_ _ _ Hw]. eapply Forall_impl; [exact Hw|].
  intros t (w0 & w1 & H0 & H1 & _). exists w0, w1. repeat split; try assumption.
  - exact (Forall_lookup_1 _ _ _ _ (py_split_nonempty name0) H0).
  - exact (Forall_lookup_1 _ _ _ _ (py_split_nonempty name1) H1).
Qed.

(** The aligner returns, for every pair of names, an [aligned] list whose
    total score is maximal among the aligned lists, and whose letter count is
    maximal among those of maximal total score. *)
Lemma findWhichWordsMatchAndHowWell_extremal (name0 name1 : list N) :
  exists combo m, _findWhichWordsMatchAndHowWell lib name0 name1 = Ok combo
    /\ aligned lib name0 name1 combo
    /\ (forall c, aligned lib name0 name1 c -> (sum_scores c <= sum_scores combo)%Z)
    /\ letterCount (py_split name0) (py_split name1) combo = Ok m
    /\ (forall c, aligned lib name0 name1 c -> sum_scores c = sum_scores combo ->
          exists n, letterCount (py_split name0) (py_split name1) c = Ok n /\ n <= m).
Proof.
  destruct (findWhichWordsMatchAndHowWell_ok lib name0 name1) as (combo0 & E0 & A0).
  pose proof (aligned_is_valid_combination name0 name1) as Hperm.
  pose proof (aligned_in_range name0 name1) as Hin_range.
  revert E0 Hperm. unfold _findWhichWordsMatchAndHowWell.
  set (ws0 := py_split name0) in *. set (ws1 := py_split name1) in *.
  rewrite (scoreTable_ok lib ws0 ws1 (py_split_nonempty name0) (py_split_nonempty name1)).
  simpl.
  set (scores := table (scoreOf lib) 0 ws0 0 ws1).
  set (k := length ws0 `min` length ws1).
  set (valid := filter (fun c => valid_combo c = true) (combinations scores k)).
  destruct (max_by sum_scores valid) as [best|e] eqn:Ebest; [|discriminate]. simpl.
  set (maxc := filter (fun c => sum_scores c = sum_scores best) valid).
  intros E0 Hperm.
  assert (Hvalid_range : forall c, c ∈ valid -> Forall (in_range_of ws0 ws1) c).
  { intros c Hc. apply list_elem_of_filter in Hc as [_ Hc].
    apply combinations_sublist, sublist_subseteq in Hc.
    apply Forall_forall. intros t Ht. apply Hc, table_bounds in Ht as (w0 & w1 & H0 & H1 & _).
    exists w0, w1. repeat split; try assumption.
    - exact (Forall_lookup_1 _ _ _ _ (py_split_nonempty name0) H0).
    - exact (Forall_lookup_1 _ _ _ _ (py_split_nonempty name1) H1). }
  assert (Hrange : Forall (Forall (in_range_of ws0 ws1)) maxc).
  { apply Forall_forall. intros c Hc. apply list_elem_of_filter in Hc as [_ Hc]. auto. }
  destruct (pick_fold_count ws0 ws1 maxc ([], 0) Hrange eq_refl)
    as (st & Est & Hor & Hcount & Hmax).
  rewrite Est in E0. simpl in E0. injection E0 as <-.
  assert (Hbest_in : best ∈ valid).
  { destruct valid as [|x t] eqn:Ev; [discriminate|].
    destruct (max_by_ok sum_scores (x :: t) ltac:(discriminate)) as (b & Eb & Hb).
    congruence. }
  assert (Hbest_max : best ∈ maxc).
  { apply list_elem_of_filter. split; [reflexivity | exact Hbest_in]. }
  assert (Hsum : sum_scores st.1 = sum_scores best).
  { destruct Hor as [-> | Hin].
    - simpl in *.
      destruct (letterCount_ok ws0 ws1 best (Hvalid_range _ Hbest_in)) as (n & Hn & Hpos).
      specialize (Hmax best n Hbest_max Hn).
      destruct best as [|t best]; [reflexivity|].
      specialize (Hpos ltac:(discriminate)). simpl in Hmax. lia.
    - apply list_elem_of_filter in Hin as [Hs _]. exact Hs. }
  exists st.1, st.2. split; [rewrite Est; reflexivity|]. split; [exact A0|]. split; [|split].
  - intros c Hc. destruct (Hperm c Hc) as (c' & P & Hc').
    rewrite (sum_scores_perm c c' P), Hsum.
    eapply max_by_max; eauto.
  - exact Hcount.
  - intros c Hc Hs. destruct (Hperm c Hc) as (c' & P & Hc').
    destruct (letterCount_ok ws0 ws1 c (Hin_range c Hc)) as (n & Hn & _).
    exists n. split; [exact Hn|].
    rewrite (letterCount_perm ws0 ws1 c c' (Hin_range c Hc) P) in Hn.
    apply (Hmax c' n); [|exact Hn].
    apply list_elem_of_filter. split; [|exact Hc'].
    rewrite <- (sum_scores_perm c c' P). congruence.
Qed.

(** X1. For every pair of names the aligner returns a one-to-one pairing of
    min(|L|, |R|) words whose total score is the largest possible: no list
    of min(|L|, |R|) scored pairs with pairwise distinct left words and
    pairwise distinct right words has a larger sum of scores. *)
Theorem findWhichWordsMatchAndHowWell_maximal_sum (name0 name1 : list N) :
  exists combo,
    _findWhichWordsMatchAndHowWell lib name0 name1 = Ok combo
    /\ aligned lib name0 name1 combo
    /\ forall c, aligned lib name0 name1 c -> (sum_scores c <= sum_scores combo)%Z.
Proof.
  destruct (findWhichWordsMatchAndHowWell_extremal name0 name1) as (combo & m & H1 & H2 & H3 & _).
  exists combo. auto.
Qed.

(** X2. Among the pairings of maximal total score the aligner returns one
    that covers the most letters: its letter count (the lengths of the paired
    words, summed) is defined, and every pairing with the same total score
    has a letter count that is no larger. *)
Theorem findWhichWordsMatchAndHowWell_most_letters (name0 name1 : list N) :
  exists combo m,
    _findWhichWordsMatchAndHowWell lib name0 name1 = Ok combo
    /\ letterCount (py_split name0) (py_split name1) combo = Ok m
    /\ forall c, aligned lib name0 name1 c -> sum_scores c = sum_scores combo ->
         exists n, letterCount (py_split name0) (py_split name1) c = Ok n /\ n <= m.
Proof.
  destruct (findWhichWordsMatchAndHowWell_extremal name0 name1)
    as (combo & m & H1 & _ & _ & H4 & H5).
  exists combo, m. auto.
Qed.

End AlignerExtremal.

(** ** The gates on short and generic names *)

Section Gates.
Context (lib : externals) (self : comparator).

Lemma eitherNameTooShort_spec_aux (name0 name1 : list N) :
  _eitherNameTooShort lib name0 name1
  = Ok (bool_decide (length (py_split name0) `min` length (py_split name1) < 2)).
Proof.
  unfold _eitherNameTooShort.
  destruct (findWhichWordsMatchAndHowWell_ok lib name0 name1) as (combo & -> & [Hlen _ _ _]).
  simpl. rewrite Hlen. reflexivity.
Qed.

Lemma initial_count_ok (ws0 ws1 : list (list N)) (c : list (nat * nat * Z)) (acc : nat) :
  Forall (in_range_of ws0 ws1) c ->
  exists n,
    foldR (fun n (t : nat * nat * Z) =>
             word0 <- idx ws0 (e_left t);;
             word1 <- idx ws1 (e_right t);;
             let initialInWord1 := bool_decide (length word0 = 1) in
             let initialInWord2 := bool_decide (length word1 = 1) in
             Ok (if initialInWord1 || initialInWord2 then n + 1 else n))
          acc c = Ok n
    /\ acc <= n <= acc + length c
    /\ (Forall (fun w => length w <> 1) ws0 -> Forall (fun w => length w <> 1) ws1 -> n = acc).
Proof.
  intros H. revert acc. induction H as [|t c (w0 & w1 & H0 & H1 & _) _ IH]; intros acc; simpl.
  - exists acc. split; [reflexivity|]. split; [lia | reflexivity].
  - unfold idx at 1. rewrite H0. simpl. unfold idx at 1. rewrite H1. simpl.
    destruct (IH (if bool_decide (length w0 = 1) || bool_decide (length w1 = 1)
                  then acc + 1 else acc)) as (n & E & Hn & Hno).
    exists n. split; [exact E|]. split.
    + destruct (bool_decide (length w0 = 1) || bool_decide (length w1 = 1)); lia.
    + intros F0 F1. rewrite (Hno F0 F1).
      pose proof (Forall_lookup_1 _ _ _ _ F0 H0) as L0.
      pose proof (Forall_lookup_1 _ _ _ _ F1 H1) as L1. simpl in L0, L1.
      rewrite (bool_decide_eq_false_2 _ L0), (bool_decide_eq_false_2 _ L1). reflexivity.
Qed.

Lemma hasRareSurname_spec (name : list N) (surname : list N) :
  last (py_split (lower lib name)) = Some surname ->
  _hasRareSurname lib self name = Ok (bool_decide (surname ∉ topSurnames self)).
Proof. intros H. unfold _hasRareSurname, last_item. rewrite H. reflexivity. Qed.

Lemma hasRareSurname_blank (name : list N) :
  py_split (lower lib name) = [] -> _hasRareSurname lib self name = Raise IndexError.
Proof. intros H. unfold _hasRareSurname, last_item. rewrite H. reflexivity. Qed.


(** X3. The too-short gate returns for every pair of names, and it answers
    true exactly when the shorter name has fewer than two words. *)
Theorem eitherNameTooShort_spec (name0 name1 : list N) :
  _eitherNameTooShort lib name0 name1
  = Ok (bool_decide (length (py_split name0) `min` length (py_split name1) < 2)).
Proof. apply eitherNameTooShort_spec_aux. Qed.

(** X4. When both names have a last word and neither last word is in the
    table of common surnames, the too-generic gate answers false, whatever
    the initials in the names. *)
Theorem eitherNameTooGeneric_rare_surnames (name0 name1 surname0 surname1 : list N) :
  last (py_split (lower lib name0)) = Some surname0 ->
  last (py_split (lower lib name1)) = Some surname1 ->
  surname0 ∉ topSurnames self -> surname1 ∉ topSurnames self ->
  _eitherNameTooGeneric lib self name0 name1 = Ok false.
Proof.
  intros L0 L1 R0 R1. unfold _eitherNameTooGeneric.
  destruct (findWhichWordsMatchAndHowWell_ok lib name0 name1) as (combo & -> & _). simpl.
  rewrite (hasRareSurname_spec name0 surname0 L0), (hasRareSurname_spec name1 surname1 L1).
  rewrite (bool_decide_eq_true_2 _ R0). simpl.
  rewrite (bool_decide_eq_true_2 _ R1). reflexivity.
Qed.

(** X5. When a last word of either name is in the table of common surnames:
    if the shorter name has at most one word the too-generic gate answers
    true; and if no word of either name is a single letter, it answers true
    exactly when the shorter name has at most one word. *)
Theorem eitherNameTooGeneric_common_surname (name0 name1 surname0 surname1 : list N) :
  last (py_split (lower lib name0)) = Some surname0 ->
  last (py_split (lower lib name1)) = Some surname1 ->
  surname0 ∈ topSurnames self \/ surname1 ∈ topSurnames self ->
  let k := length (py_split name0) `min` length (py_split name1) in
  (k <= 1 -> _eitherNameTooGeneric lib self name0 name1 = Ok true)
  /\ (Forall (fun w => length w <> 1) (py_split name0) ->
      Forall (fun w => length w <> 1) (py_split name1) ->
      _eitherNameTooGeneric lib self name0 name1 = Ok (bool_decide (k <= 1))).
Proof.
  intros L0 L1 Hc k. unfold _eitherNameTooGeneric.
  destruct (findWhichWordsMatchAndHowWell_ok lib name0 name1) as (combo & -> & A).
  cbn beta iota delta [bindR].
  rewrite (hasRareSurname_spec name0 surname0 L0).
  assert (Hb : (if bool_decide (surname0 ∉ topSurnames self)
                then _hasRareSurname lib self name1 else Ok false) = Ok false).
  { rewrite (hasRareSurname_spec name1 surname1 L1).
    destruct Hc as [Hc | Hc].
    - rewrite bool_decide_eq_false_2; [reflexivity | tauto].
    - rewrite (bool_decide_eq_false_2 (surname1 ∉ topSurnames self)) by tauto.
      destruct (bool_decide (surname0 ∉ topSurnames self)); reflexivity. }
  cbn beta iota delta [bindR]. rewrite Hb. cbn beta iota zeta delta [bindR].
  destruct (initial_count_ok (py_split name0) (py_split name1) combo 0 (aligned_in_range lib _ _ _ A))
    as (n & E & Hn & Hno). cbn beta iota zeta in E. rewrite E.
  cbn beta iota delta [bindR].
  rewrite (al_length _ _ _ _ A). fold k. split.
  - intros Hk. rewrite bool_decide_eq_true_2; [reflexivity | lia].
  - intros F0 F1. rewrite (Hno F0 F1). reflexivity.
Qed.

Lemma spellingComparison_blank_aux (name0 name1 : list N) :
  py_split name0 = [] \/ py_split name1 = [] ->
  _spellingComparison lib name0 name1 = Ok (true, []).
Proof.
  intros H. unfold _spellingComparison.
  destruct (findWhichWordsMatchAndHowWell_ok lib name0 name1) as (combo & -> & [Hlen _ _ _]).
  simpl.
  assert (Hk : length (py_split name0) `min` length (py_split name1) = 0).
  { destruct H as [-> | ->]; simpl; lia. }
  rewrite Hk in *. destruct combo; [|discriminate]. reflexivity.
Qed.

(** X6. When either name has no word, the spelling matcher reports a match
    with an empty word combination. *)
Theorem spellingComparison_blank (name0 name1 : list N) :
  py_split name0 = [] \/ py_split name1 = [] ->
  _spellingComparison lib name0 name1 = Ok (true, []).
Proof. apply spellingComparison_blank_aux. Qed.

(** X9. Whenever the first name cleans to the empty string, the comparison
    raises [IndexError] instead of returning a record, for every second name,
    all tables and every cache, and leaves the cache as it was. *)
Theorem compareTwoNames_blank_first_name_raises (name0 name1 : list N)
    (c : list (list N * list N)) :
  _cleanNameByItself lib name0 = [] ->
  compareTwoNames lib self name0 name1 c = (Raise IndexError, c).
Proof.
  intros H. unfold compareTwoNames. rewrite H.
  unfold bindC at 1. unfold liftC at 1. unfold _cleanNamesTogether. simpl.
  unfold bindC at 1. unfold liftC at 1. rewrite eitherNameTooShort_spec_aux.
  unfold bindC at 1. unfold liftC at 1.
  unfold _eitherNameTooGeneric.
  destruct (findWhichWordsMatchAndHowWell_ok lib [] (_cleanNameByItself lib name1))
    as (combo & -> & _). simpl.
  reflexivity.
Qed.

End Gates.

(** ** A name against itself *)

Section SelfMatch.
Context (lib : externals).

Lemma scoreOf_le (w0 w1 : list N) :
  (fuzz_ratio lib w0 w1 <= 100)%Z -> (fuzz_partial_ratio lib w0 w1 <= 100)%Z ->
  (scoreOf lib w0 w1 <= 100)%Z.
Proof.
  intros Hr Hp. unfold scoreOf, pairScore.
  destruct w0 as [|c0 t0]; [simpl; lia|]. destruct w1 as [|c1 t1]; [simpl; lia|].
  unfold idx. cbn [lookup list_lookup]. cbn beta iota delta [bindR].
  repeat match goal with |- context [if ?b then _ else _] => destruct b end; lia.
Qed.

Lemma scoreOf_self (w : list N) :
  fuzz_ratio lib w w = 100%Z -> (fuzz_partial_ratio lib w w <= 100)%Z ->
  w <> [] -> scoreOf lib w w = 100%Z.
Proof.
  intros Hr Hp Hw. unfold scoreOf, pairScore. destruct w as [|c t]; [contradiction|].
  unfold idx. cbn [lookup list_lookup]. cbn beta iota delta [bindR].
  rewrite Hr.
  assert (E : eqc c c = true) by (apply eqc_eq; reflexivity). rewrite E.
  cbn [negb]. repeat match goal with |- context [if ?b then _ else _] => destruct b end; lia.
Qed.

Lemma diagonal_from_aligned (ws : list (list N)) (a : nat) :
  Forall (fun w => scoreOf lib w w = 100%Z) ws ->
  let c := imap (fun i w => (a + i, a + i, scoreOf lib w w)) ws in
  map e_left c = seq a (length ws) /\ map e_right c = seq a (length ws)
  /\ sum_scores c = (100 * Z.of_nat (length ws))%Z
  /\ Forall (fun t => exists w, ws !! (e_left t - a) = Some w /\ e_right t = e_left t
                         /\ a <= e_left t /\ e_score t = scoreOf lib w w) c.
Proof.
  intros H. revert a. induction H as [|w ws Hw _ IH]; intros a c.
  - repeat split. constructor.
  - subst c. cbn [imap]. 
    specialize (IH (S a)). cbv zeta in IH.
    assert (E : imap ((fun i w0 => (a + i, a + i, scoreOf lib w0 w0)) ∘ S) ws
                = imap (fun i w0 => (S a + i, S a + i, scoreOf lib w0 w0)) ws).
    { apply imap_ext. intros i x _. simpl. repeat f_equal; lia. }
    rewrite E. destruct IH as (H1 & H2 & H3 & H4).
    rewrite Nat.add_0_r. repeat split.
    + cbn [map]. rewrite H1. reflexivity.
    + cbn [map]. rewrite H2. reflexivity.
    + unfold sum_scores in *. cbn [map fold_right]. rewrite H3.
      unfold e_score at 1. cbn [snd]. rewrite Hw. cbn [length]. lia.
    + constructor.
      * exists w. unfold e_left, e_right, e_score. simpl. rewrite Nat.sub_diag. auto.
      * eapply Forall_impl; [exact H4|]. intros t (w' & L & R & G & Sc).
        exists w'. replace (e_left t - a) with (S (e_left t - S a)) by lia.
        repeat split; try assumption. lia.
Qed.

Lemma all_hundred (c : list (nat * nat * Z)) :
  Forall (fun t => (e_score t <= 100)%Z) c ->
  (100 * Z.of_nat (length c) <= sum_scores c)%Z ->
  Forall (fun t => e_score t = 100%Z) c.
Proof.
  unfold sum_scores. induction 1 as [|t c Ht Hc IH]; [constructor|].
  cbn [map fold_right length]. intros Hs.
  assert (Hb : (fold_right Z.add 0 (map e_score c) <= 100 * Z.of_nat (length c))%Z).
  { clear -Hc. induction Hc as [|t c Ht _ IH]; simpl; [lia|]. lia. }
  constructor; [lia|]. apply IH. lia.
Qed.

Lemma spellingComparison_self_aux (name : list N) :
  Forall (fun w0 => Forall (fun w1 => (fuzz_ratio lib w0 w1 <= 100)%Z
                                      /\ (fuzz_partial_ratio lib w0 w1 <= 100)%Z)
                           (py_split name)) (py_split name) ->
  Forall (fun w => fuzz_ratio lib w w = 100%Z) (py_split name) ->
  exists combo, _spellingComparison lib name name = Ok (true, combo)
                /\ Forall (fun t => e_score t = 100%Z) combo.
Proof.
  intros Hle Hrefl.
  destruct (findWhichWordsMatchAndHowWell_extremal lib name name)
    as (combo & m & E & A & Hmax & _).
  exists combo. unfold _spellingComparison. rewrite E. cbn beta iota zeta delta [bindR].
  assert (Hself : Forall (fun w => scoreOf lib w w = 100%Z) (py_split name)).
  { apply Forall_forall. intros w Hw.
    apply scoreOf_self.
    - rewrite Forall_forall in Hrefl. auto.
    - rewrite Forall_forall in Hle. specialize (Hle w Hw). rewrite Forall_forall in Hle.
      apply Hle, Hw.
    - pose proof (py_split_nonempty name) as Hn. rewrite Forall_forall in Hn. auto. }
  pose proof (diagonal_from_aligned (py_split name) 0 Hself) as D.
  cbv zeta in D. destruct D as (D1 & D2 & D3 & D4).
  set (d := imap (fun i w => (0 + i, 0 + i, scoreOf lib w w)) (py_split name)) in *.
  assert (Ad : aligned lib name name d).
  { split.
    - rewrite <- (length_map e_left), D1, length_seq. lia.
    - rewrite D1. apply NoDup_seq.
    - rewrite D2. apply NoDup_seq.
    - eapply Forall_impl; [exact D4|]. intros t (w & L & R & _ & Sc).
      rewrite Nat.sub_0_r in L. exists w, w. rewrite R. auto. }
  specialize (Hmax d Ad). rewrite D3 in Hmax.
  assert (Hlen : length combo = length (py_split name)).
  { rewrite (al_length _ _ _ _ A). lia. }
  assert (Hall : Forall (fun t => e_score t = 100%Z) combo).
  { apply all_hundred.
    - eapply Forall_impl; [exact (al_words _ _ _ _ A)|].
      intros t (w0 & w1 & L0 & L1 & ->).
      apply list_elem_of_lookup_2 in L0, L1.
      rewrite Forall_forall in Hle. specialize (Hle w0 L0). rewrite Forall_forall in Hle.
      destruct (Hle w1 L1). apply scoreOf_le; assumption.
    - rewrite Hlen. exact Hmax. }
  split; [|exact Hall].
  assert (Hgood : goodScoreCount combo = length combo).
  { unfold goodScoreCount. clear -Hall. induction Hall as [|t c Ht _ IH]; [reflexivity|].
    rewrite filter_cons. destruct (decide (80 < e_score t)%Z); [|lia]. simpl. f_equal. exact IH. }
  rewrite Hgood, Hlen, Nat.min_id.
  rewrite (bool_decide_eq_true_2 (length (py_split name) = length (py_split name)) eq_refl).
  rewrite orb_true_r. reflexivity.
Qed.

(** X7. A name is a spelling match of itself: when the scores of the library
    on the words of the name are at most 100, and the ratio of each word with
    itself is 100, the spelling matcher reports a match of the name against
    itself, and every pair of the combination it returns has score 100. *)
Theorem spellingComparison_self (name : list N) :
  Forall (fun w0 => Forall (fun w1 => (fuzz_ratio lib w0 w1 <= 100)%Z
                                      /\ (fuzz_partial_ratio lib w0 w1 <= 100)%Z)
                           (py_split name)) (py_split name) ->
  Forall (fun w => fuzz_ratio lib w w = 100%Z) (py_split name) ->
  exists combo, _spellingComparison lib name name = Ok (true, combo)
                /\ Forall (fun t => e_score t = 100%Z) combo.
Proof. apply spellingComparison_self_aux. Qed.

End SelfMatch.


(** ** What the single-name cleaner returns *)

Lemma contains_spec (s p : list N) :
  contains s p = true <-> exists x y, s = x ++ p ++ y.
Proof.
  split.
  - induction s as [|c s IH]; simpl.
    + rewrite orb_false_r. intros H. apply startswith_app in H as [t ->]. exists [], t. reflexivity.
    + intros H. apply orb_true_iff in H as [H | H].
      * apply startswith_app in H as [t ->]. exists [], t. reflexivity.
      * destruct (IH H) as (x & y & ->). exists (c :: x), y. reflexivity.
  - intros (x & y & ->). apply contains_app.
Qed.

Lemma contains_middle (a s b p : list N) :
  contains (a ++ s ++ b) p = false -> contains s p = false.
Proof.
  intros H. destruct (contains s p) eqn:E; [|reflexivity].
  apply contains_spec in E as (x & y & ->).
  rewrite <- H. symmetry. apply contains_spec. exists (a ++ x), (y ++ b).
  rewrite <- !app_assoc. reflexivity.
Qed.

Lemma lstrip_splits (s : list N) : exists p, s = p ++ py_lstrip s.
Proof.
  induction s as [|c s [p IH]]; [exists []; reflexivity|].
  simpl. destruct (isspace c).
  - exists (c :: p). simpl. f_equal. exact IH.
  - exists []. reflexivity.
Qed.

Lemma rstrip_splits (s : list N) : exists q, s = py_rstrip s ++ q.
Proof.
  unfold py_rstrip. destruct (lstrip_splits (rev s)) as [p Hp].
  exists (rev p). rewrite <- rev_app_distr, <- Hp, rev_involutive. reflexivity.
Qed.

Lemma strip_splits (s : list N) : exists p q, s = p ++ py_strip s ++ q.
Proof.
  destruct (lstrip_splits s) as [p Hp]. destruct (rstrip_splits (py_lstrip s)) as [q Hq].
  exists p, q. unfold py_strip. rewrite <- Hq. exact Hp.
Qed.

Lemma lstrip_idem (s : list N) : py_lstrip (py_lstrip s) = py_lstrip s.
Proof.
  induction s as [|c s IH]; [reflexivity|]. simpl.
  destruct (isspace c) eqn:E; [exact IH|]. simpl. rewrite E. reflexivity.
Qed.

Lemma rstrip_idem (s : list N) : py_rstrip (py_rstrip s) = py_rstrip s.
Proof. unfold py_rstrip. rewrite rev_involutive, lstrip_idem. reflexivity. Qed.

Lemma lstrip_head (s : list N) : py_lstrip s = [] \/ starts_with_letter (py_lstrip s) = true.
Proof.
  induction s as [|c s IH]; [left; reflexivity|]. simpl.
  destruct (isspace c) eqn:E; [exact IH|]. right. simpl. rewrite E. reflexivity.
Qed.

Lemma rstrip_keeps_head (s : list N) :
  starts_with_letter s = true -> starts_with_letter (py_rstrip s) = true.
Proof.
  intros H. destruct (rstrip_splits s) as [q Hq].
  destruct (py_rstrip s) as [|c r] eqn:E.
  - (* everything was stripped: then the head of s is whitespace *)
    exfalso. unfold py_rstrip in E.
    assert (Hall : forall t, py_lstrip t = [] -> Forall (fun c => isspace c = true) t).
    { induction t as [|x t IH]; [constructor|]. simpl.
      destruct (isspace x) eqn:Ex; [|discriminate]. intros Ht. constructor; auto. }
    assert (E' : py_lstrip (rev s) = []).
    { rewrite <- (rev_involutive (py_lstrip (rev s))), E. reflexivity. }
    apply Hall in E'. destruct s as [|x s]; [discriminate|]. simpl in H.
    rewrite Forall_forall in E'. specialize (E' x).
    rewrite E' in H; [discriminate|]. apply list_elem_of_In, in_rev. rewrite rev_involutive. left. reflexivity.
  - destruct s as [|x s]; [discriminate|]. simpl in Hq. injection Hq as -> _. exact H.
Qed.

Lemma strip_idem (s : list N) : py_strip (py_strip s) = py_strip s.
Proof.
  unfold py_strip at 1 3.
  destruct (lstrip_head s) as [E | H].
  - unfold py_strip. rewrite E. reflexivity.
  - unfold py_strip. rewrite (lstrip_letter _ (rstrip_keeps_head _ H)). apply rstrip_idem.
Qed.

Lemma eqc_sym (a b : N) : eqc a b = eqc b a.
Proof. apply N.eqb_sym. Qed.

Lemma squeeze_no_double (s : list N) (inrun : bool) :
  contains (Re.squeeze (fun c => eqc c space) inrun s) [space; space] = false
  /\ (inrun = true -> startswith (Re.squeeze (fun c => eqc c space) inrun s) [space] = false).
Proof.
  revert inrun. induction s as [|c s IH]; intros inrun.
  - split; [reflexivity | intros _; reflexivity].
  - cbn [Re.squeeze]. destruct (eqc c space) eqn:Ec.
    + destruct inrun.
      * apply IH.
      * destruct (IH true) as [H1 H2]. split; [|discriminate].
        cbn [contains]. rewrite H1, orb_false_r.
        specialize (H2 eq_refl). cbn [startswith] in *.
        destruct (Re.squeeze _ true s) as [|d r]; [reflexivity|].
        rewrite andb_true_r in H2. rewrite andb_true_r. rewrite H2. apply andb_false_r.
    + destruct (IH false) as [H1 _]. split.
      * cbn [contains]. rewrite H1, orb_false_r. cbn [startswith].
        rewrite (eqc_sym space c), Ec. reflexivity.
      * intros _. cbn [startswith]. rewrite (eqc_sym space c), Ec. reflexivity.
Qed.

Lemma strip_all_space (s : list N) : Forall (fun c => isspace c = true) s -> py_strip s = [].
Proof.
  intros H. unfold py_strip. replace (py_lstrip s) with (@nil N); [reflexivity|].
  induction H as [|c s Hc _ IH]; [reflexivity|]. simpl. rewrite Hc. exact IH.
Qed.

Lemma squeeze_all_space (s : list N) (inrun : bool) :
  Forall (fun c => isspace c = true) s ->
  Forall (fun c => isspace c = true) (Re.squeeze (fun c => eqc c space) inrun s).
Proof.
  intros H. revert inrun. induction H as [|c s Hc _ IH]; intros inrun; simpl; [constructor|].
  destruct (eqc c space); [destruct inrun|]; auto.
Qed.

Lemma blank_to_space_all_space (s : list N) :
  Forall (fun c => isspace c = true) s -> Forall (fun c => isspace c = true) (Re.blank_to_space s).
Proof.
  intros H. unfold Re.blank_to_space. induction H as [|c s Hc _ IH]; simpl; constructor; auto.
  rewrite Hc. simpl. destruct (eqc c space); simpl; [exact Hc | reflexivity].
Qed.

Section Preserved.
Context (P : N -> Prop).

Lemma sub_go_Forall m repl skip prev s :
  Forall P repl -> Forall P s -> Forall P (Re.sub_go m repl skip prev s).
Proof.
  intros Hr Hs. revert skip prev. induction Hs as [|c s Hc Hs IH]; intros skip prev; simpl.
  - constructor.
  - destruct skip; [|apply IH].
    destruct (m prev (c :: s)) as [[|n]|].
    + constructor; auto.
    + apply Forall_app. auto.
    + constructor; auto.
Qed.

Lemma sub_Forall m repl s : Forall P repl -> Forall P s -> Forall P (Re.sub m repl s).
Proof. apply sub_go_Forall. Qed.

Lemma replace_go_Forall old new skip s :
  Forall P new -> Forall P s -> Forall P (py_replace_go old new skip s).
Proof.
  intros Hr Hs. revert skip. induction Hs as [|c s Hc Hs IH]; intros skip; simpl.
  - constructor.
  - destruct skip; [|apply IH].
    destruct (startswith (c :: s) old).
    + apply Forall_app. auto.
    + constructor; auto.
Qed.

Lemma replace_Forall s old new : Forall P new -> Forall P s -> Forall P (py_replace s old new).
Proof.
  intros Hn Hs. unfold py_replace. destruct old as [|x old].
  - apply Forall_app. split; [exact Hn|].
    induction Hs; simpl; [constructor|]. constructor; [assumption|]. apply Forall_app. auto.
  - apply replace_go_Forall; assumption.
Qed.

Lemma split_Forall s : Forall P s -> Forall (Forall P) (py_split s).
Proof.
  induction 1 as [|c s Hc Hs IH]; [constructor|]. cbn [py_split].
  destruct (isspace c); [exact IH|].
  destruct s as [|c' s']; [repeat constructor; exact Hc|].
  destruct (isspace c'); [constructor; [repeat constructor; exact Hc | exact IH]|].
  destruct (py_split (c' :: s')) as [|w ws].
  - repeat constructor; exact Hc.
  - inversion IH; subst. constructor; [constructor|]; assumption.
Qed.

Lemma join_Forall sep ws : Forall P sep -> Forall (Forall P) ws -> Forall P (py_join sep ws).
Proof.
  intros Hsep. induction 1 as [|w ws Hw Hws IH]; [constructor|].
  cbn [py_join]. destruct ws as [|w' ws']; [exact Hw|].
  apply Forall_app. split; [exact Hw|]. apply Forall_app. split; [exact Hsep | exact IH].
Qed.

Lemma squeeze_Forall p inrun s : P space -> Forall P s -> Forall P (Re.squeeze p inrun s).
Proof.
  intros Hsp Hs. revert inrun. induction Hs as [|c s Hc Hs IH]; intros inrun; simpl; [constructor|].
  destruct (p c); [destruct inrun|]; auto.
Qed.

Lemma strip_Forall s : Forall P s -> Forall P (py_strip s).
Proof.
  intros H. destruct (strip_splits s) as (p & q & E). rewrite E in H.
  apply Forall_app in H as [_ H]. apply Forall_app in H as [H _]. exact H.
Qed.

Lemma apostrophe_spaces_Forall after s : Forall P s -> Forall P (Re.apostrophe_spaces after s).
Proof.
  intros Hs. revert after. induction Hs as [|c s Hc Hs IH]; intros after; simpl; [constructor|].
  destruct (after && eqc c space); auto.
Qed.

End Preserved.

Lemma drop_punct_Forall (s : list N) : Forall (fun c => Re.is_punct c = false) (Re.drop_punct s).
Proof.
  unfold Re.drop_punct. apply Forall_forall. intros c Hc.
  apply list_elem_of_filter in Hc as [Hc _]. exact Hc.
Qed.

Section Cleaner.
Context (lib : externals).

(** X11. A name that is empty or made of whitespace only is cleaned to the
    sentinel, one underscore. *)
Theorem cleanNameByItself_blank (name : list N) :
  Forall (fun c => isspace c = true) name ->
  _cleanNameByItself lib name = py "_".
Proof.
  intros H. unfold _cleanNameByItself.
  destruct (eqs name []); [reflexivity|].
  rewrite (strip_all_space (squeeze_spaces (Re.blank_to_space name))).
  - reflexivity.
  - apply squeeze_all_space, blank_to_space_all_space, H.
Qed.

(** X12. What the single-name cleaner returns has no leading or trailing
    whitespace (stripping it again changes nothing) and never two spaces in
    a row. *)
Theorem cleanNameByItself_trimmed (name : list N) :
  py_strip (_cleanNameByItself lib name) = _cleanNameByItself lib name
  /\ contains (_cleanNameByItself lib name) (py "  ") = false.
Proof.
  unfold _cleanNameByItself.
  destruct (eqs name []); [split; reflexivity|].
  destruct (eqs _ []); [split; reflexivity|].
  cbv zeta. split; [apply strip_idem|].
  match goal with |- contains (py_strip (squeeze_spaces ?x)) _ = false =>
    destruct (strip_splits (squeeze_spaces x)) as (p & q & E);
    pose proof (proj1 (squeeze_no_double x false)) as Hd end.
  fold (squeeze_spaces) in Hd. unfold squeeze_spaces in E, Hd |- *.
  rewrite E in Hd. apply contains_middle in Hd. exact Hd.
Qed.

(** X13. What the single-name cleaner returns holds none of the punctuation
    characters it removes: full stop, comma, question mark, semicolon, double
    quote, asterisk and parentheses; no later step brings one back. *)
Theorem cleanNameByItself_no_punctuation (name : list N) :
  Forall (fun c => Re.is_punct c = false) (_cleanNameByItself lib name).
Proof.
  unfold _cleanNameByItself.
  destruct (eqs name []); [repeat constructor|].
  destruct (eqs _ []); [repeat constructor|].
  cbv zeta. unfold remove_word, squeeze_spaces.
  repeat first
    [ apply drop_punct_Forall
    | apply strip_Forall
    | apply squeeze_Forall; [reflexivity|]
    | apply sub_Forall; [repeat constructor|]
    | apply replace_Forall; [repeat constructor|]
    | apply apostrophe_spaces_Forall
    | apply join_Forall; [repeat constructor|]
    | apply Forall_fmap, Forall_forall; intros w Hw; simpl;
      apply sub_Forall; [constructor|];
      revert w Hw; apply Forall_forall, split_Forall ].
Qed.

End Cleaner.

(** ** The reverse nickname index *)

Lemma indexNickname_lookup (i : nat) (m : gmap (list N) (list nat)) (name name' : list N) (j : nat) :
  j ∈ default [] (indexNickname i m name !! name')
  <-> j ∈ default [] (m !! name') \/ (j = i /\ name' = name).
Proof.
  unfold indexNickname.
  destruct (decide (name' = name)) as [-> | Hne].
  - destruct (m !! name) as [[|n l]|] eqn:E; rewrite lookup_insert_eq; simpl.
    + rewrite list_elem_of_singleton. split; [auto | intros [H | [-> _]]; [inversion H | reflexivity]].
    + rewrite (elem_of_app (n :: l) [i] j), list_elem_of_singleton. tauto.
    + rewrite list_elem_of_singleton. split; [auto | intros [H | [-> _]]; [inversion H | reflexivity]].
  - destruct (m !! name) as [[|n l]|] eqn:E; rewrite lookup_insert_ne by congruence; tauto.
Qed.

Lemma indexNickname_fold (i : nat) (ns : list (list N)) (m : gmap (list N) (list nat))
    (name : list N) (j : nat) :
  j ∈ default [] (fold_left (indexNickname i) ns m !! name)
  <-> j ∈ default [] (m !! name) \/ (j = i /\ name ∈ ns).
Proof.
  revert m. induction ns as [|n ns IH]; intros m; simpl.
  - split; [auto | intros [H | [_ H]]; [exact H | inversion H]].
  - rewrite IH, indexNickname_lookup, elem_of_cons. tauto.
Qed.

Lemma buildNicknameIndex_from (sets : list (list (list N))) (a : nat)
    (m : gmap (list N) (list nat)) (name : list N) (j : nat) :
  j ∈ default [] (fold_left (fun m '(i, ns) => fold_left (indexNickname i) ns m)
                            (enumerate_from a sets) m !! name)
  <-> j ∈ default [] (m !! name)
      \/ (a <= j /\ exists ns, sets !! (j - a) = Some ns /\ name ∈ ns).
Proof.
  revert a m. induction sets as [|s sets IH]; intros a m; simpl.
  - split; [auto | intros [H | (_ & ns & H & _)]; [exact H | discriminate]].
  - rewrite IH, indexNickname_fold. split.
    + intros [[H | [-> H]] | (Ha & ns & H1 & H2)].
      * left. exact H.
      * right. split; [lia|]. exists s. rewrite Nat.sub_diag. auto.
      * right. split; [lia|]. exists ns. replace (j - a) with (S (j - S a)) by lia. auto.
    + intros [H | (Ha & ns & H1 & H2)]; [auto|].
      destruct (decide (j = a)) as [-> | Hne].
      * rewrite Nat.sub_diag in H1. injection H1 as ->. auto.
      * right. split; [lia|]. exists ns. replace (j - a) with (S (j - S a)) in H1 by lia. auto.
Qed.

Lemma buildNicknameIndex_members (sets : list (list (list N))) (name : list N) (i : nat) :
  i ∈ default [] (buildNicknameIndex sets !! name)
  <-> exists ns, sets !! i = Some ns /\ name ∈ ns.
Proof.
  unfold buildNicknameIndex, enumerate. rewrite buildNicknameIndex_from.
  rewrite lookup_empty, Nat.sub_0_r. simpl. split.
  - intros [H | (_ & H)]; [inversion H | exact H].
  - intros H. right. split; [lia | exact H].
Qed.

(** X14. The reverse nickname index that the constructor builds is exact: a
    set number is listed under a name exactly when the set of that number
    holds the name (a name that is in no set has no numbers). *)
Theorem buildNicknameIndex_spec (sets : list (list (list N))) (name : list N) (i : nat) :
  i ∈ default [] (buildNicknameIndex sets !! name)
  <-> exists ns, sets !! i = Some ns /\ name ∈ ns.
Proof. apply buildNicknameIndex_members. Qed.

Lemma py_in_elem (x : list N) (l : list (list N)) : py_in x l = true <-> x ∈ l.
Proof.
  unfold py_in. rewrite existsb_exists. split.
  - intros (y & Hy & E). apply eqs_eq in E. subst. apply list_elem_of_In, Hy.
  - intros H. exists x. split; [apply list_elem_of_In, H | apply eqs_eq; reflexivity].
Qed.

Lemma literal_pattern_template (s : list N) :
  Re.literal_pattern s = true -> Re.literal_template s = true.
Proof.
  unfold Re.literal_pattern, Re.literal_template, Re.is_special.
  induction s as [|c s IH]; [reflexivity|]. cbn [forallb].
  intros H. apply andb_true_iff in H as [H1 H2]. rewrite (IH H2), andb_true_r.
  destruct (eqc c 92); [|reflexivity].
  rewrite orb_true_r in H1. discriminate.
Qed.

Section Nicknames.
Context (lib : externals) (self : comparator).

(** The loop over the sets of a word returns when the set numbers exist and
    their sets hold the word; the nickname it finds is a word of the second
    name, taken from one of these sets. *)
Lemma nicknameInSets_total (word0 : list N) (words0 words1 : list (list N)) (nums : list nat) :
  Forall (fun num => exists ns, nicknameSets self !! num = Some ns /\ word0 ∈ ns) nums ->
  exists r, nicknameInSets lib self word0 words0 words1 nums = Ok r
    /\ forall nickname, r = Some nickname ->
         nickname ∈ words1
         /\ exists num ns, num ∈ nums /\ nicknameSets self !! num = Some ns
                           /\ nickname ∈ set_order lib ns.
Proof.
  induction 1 as [|num nums (ns & Hns & Hin) _ (r & IH & Hr)]; cbn [nicknameInSets].
  - exists None. split; [reflexivity | discriminate].
  - unfold idx. rewrite Hns. cbn beta iota delta [bindR].
    rewrite (proj2 (py_in_elem word0 ns) Hin).
    destruct (firstUsableNickname words0 words1 _) as [nickname|] eqn:E.
    + exists (Some nickname). split; [reflexivity|]. intros n [= <-].
      unfold firstUsableNickname in E. apply find_some in E as [Hin' Hf].
      apply andb_true_iff in Hf as [_ Hf]. apply py_in_elem in Hf.
      split; [exact Hf|]. exists num, ns. split; [left|]. split; [exact Hns|].
      apply list_elem_of_In in Hin'. apply list_elem_of_filter in Hin' as [_ Hin']. exact Hin'.
    + exists r. split; [exact IH|]. intros n Hn.
      destruct (Hr n Hn) as (H1 & num' & ns' & H2 & H3 & H4).
      split; [exact H1|]. exists num', ns'. split; [right; exact H2 | auto].
Qed.

End Nicknames.

Lemma removeNicknames_loop (lib : externals) (self : comparator)
    (words0 words1 todo : list (list N)) (acc : list N) :
  (forall word0 nums num, nicknameToNicknameSetNum self !! word0 = Some nums -> num ∈ nums ->
     exists ns, nicknameSets self !! num = Some ns /\ word0 ∈ ns) ->
  (forall word0 nums num ns nickname,
     nicknameToNicknameSetNum self !! word0 = Some nums -> num ∈ nums ->
     nicknameSets self !! num = Some ns -> nickname ∈ set_order lib ns -> nickname ∈ words1 ->
     Re.literal_pattern word0 && Re.literal_template nickname = true) ->
  exists r,
    foldR (fun name0 word0 =>
             if py_in word0 words1 then Ok name0
             else match nicknameToNicknameSetNum self !! word0 with
                  | None => Ok name0
                  | Some setNumbers =>
                      found <- nicknameInSets lib self word0 words0 words1 setNumbers;;
                      match found with
                      | Some nickname => substituteNickname lib word0 nickname name0
                      | None => Ok name0
                      end
                  end)
          acc todo = Ok r
    /\ (words1 = [] -> r = acc).
Proof.
  intros Hidx Hlit. revert acc.
  induction todo as [|word0 todo IH]; intros acc; cbn [foldR]; [eauto|].
  destruct (py_in word0 words1); cbn beta iota delta [bindR]; [apply IH|].
  destruct (nicknameToNicknameSetNum self !! word0) as [nums|] eqn:E;
    cbn beta iota delta [bindR]; [|apply IH].
  destruct (nicknameInSets_total lib self word0 words0 words1 nums) as (r & Hr & Hfound).
  - apply Forall_forall. intros num Hnum. eapply Hidx; eauto.
  - rewrite Hr. cbn beta iota delta [bindR]. destruct r as [nickname|]; [|apply IH].
    destruct (Hfound nickname eq_refl) as (Hw1 & num & ns & Hnum & Hns & Hin).
    unfold substituteNickname. rewrite (Hlit word0 nums num ns nickname E Hnum Hns Hin Hw1).
    cbn beta iota delta [bindR].
    destruct (IH (Re.sub (Re.lit_ci (isw lib) word0) nickname acc)) as (r & Hfold & Hsame).
    exists r. split; [exact Hfold|]. intros ->. inversion Hw1.
Qed.

Lemma buildNicknameIndex_sound (nicknames : list (list (list N))) (word0 : list N)
    (nums : list nat) (num : nat) :
  buildNicknameIndex nicknames !! word0 = Some nums -> num ∈ nums ->
  exists ns, nicknames !! num = Some ns /\ word0 ∈ ns.
Proof.
  intros E Hnum. apply (buildNicknameIndex_members nicknames word0 num). rewrite E. exact Hnum.
Qed.

(** With no word in the second name nothing is substituted. *)
Lemma removeNicknames_blank_second (lib : externals)
    (names syllables : gmap (list N) (list N)) (surnames : list (list N))
    (rulesIpa rulesSpelling : list rule) (nicknames : list (list (list N)))
    (name0 name1 : list N) :
  py_split name1 = [] ->
  _removeNicknames lib
    (NameComparator_init names syllables surnames rulesIpa rulesSpelling nicknames)
    name0 name1
  = Ok (name0, name1).
Proof.
  intros Hblank.
  set (self := NameComparator_init names syllables surnames rulesIpa rulesSpelling nicknames).
  unfold _removeNicknames. rewrite Hblank.
  destruct (removeNicknames_loop lib self (py_split name0) [] (py_split name0) name0)
    as (r & Hr & Hsame).
  - intros word0 nums num E Hnum. exact (buildNicknameIndex_sound nicknames word0 nums num E Hnum).
  - intros word0 nums num ns nickname _ _ _ _ Hin. inversion Hin.
  - rewrite Hr, (Hsame eq_refl). reflexivity.
Qed.

(** X15. On a comparator built by the constructor, whose nickname sets hold
    only names without regex operator characters (so that the word pasted
    into the pattern and the nickname used as replacement are read as they
    are), the nickname substitution never raises, whatever the names: every
    set number the index gives exists and holds the word, so neither the
    list index nor the removal from the set fails.  The second name is
    returned as it was.  The iteration of a set yields members of the set. *)
Theorem removeNicknames_total (lib : externals)
    (names syllables : gmap (list N) (list N)) (surnames : list (list N))
    (rulesIpa rulesSpelling : list rule) (nicknames : list (list (list N)))
    (name0 name1 : list N) :
  (forall (l : list (list N)) (x : list N), x ∈ set_order lib l -> x ∈ l) ->
  Forall (Forall (fun name => Re.literal_pattern name = true)) nicknames ->
  exists name0',
    _removeNicknames lib
      (NameComparator_init names syllables surnames rulesIpa rulesSpelling nicknames)
      name0 name1
    = Ok (name0', name1).
Proof.
  intros Horder Hplain.
  set (self := NameComparator_init names syllables surnames rulesIpa rulesSpelling nicknames).
  assert (Hmember : forall num ns x, nicknames !! num = Some ns -> x ∈ ns ->
                                     Re.literal_pattern x = true).
  { intros num ns x Hns Hx.
    pose proof (Forall_lookup_1 _ _ _ _ Hplain Hns) as Hn.
    rewrite Forall_forall in Hn. exact (Hn x Hx). }
  unfold _removeNicknames.
  destruct (removeNicknames_loop lib self (py_split name0) (py_split name1) (py_split name0) name0)
    as (r & Hr & _).
  - intros word0 nums num E Hnum. exact (buildNicknameIndex_sound nicknames word0 nums num E Hnum).
  - intros word0 nums num ns nickname E Hnum Hns Hin _.
    destruct (buildNicknameIndex_sound nicknames word0 nums num E Hnum) as (ns' & Hns' & Hw).
    apply andb_true_iff. split.
    + exact (Hmember num ns' word0 Hns' Hw).
    + apply literal_pattern_template. exact (Hmember num ns nickname Hns (Horder ns nickname Hin)).
  - exists r. rewrite Hr. reflexivity.
Qed.

(** ** A blank second name *)

Section BlankSecond.
Context (lib : externals).

Lemma eitherNameTooGeneric_blank_second (self : comparator) (name0 surname : list N) :
  last (py_split (lower lib name0)) = Some surname ->
  surname ∈ topSurnames self ->
  _eitherNameTooGeneric lib self name0 [] = Ok true.
Proof.
  intros L S. unfold _eitherNameTooGeneric.
  destruct (findWhichWordsMatchAndHowWell_ok lib name0 []) as (combo & -> & [Hlen _ _ _]).
  cbn beta iota delta [bindR].
  rewrite (hasRareSurname_spec lib self name0 surname L).
  rewrite bool_decide_eq_false_2 by tauto.
  cbn beta iota delta [bindR].
  simpl in Hlen. rewrite Nat.min_0_r in Hlen. destruct combo; [|discriminate]. reflexivity.
Qed.

(** X10. Whenever the second name cleans to the empty string and the last
    word of the cleaned first name is a common surname, the comparison
    returns a record that reports a match, flagged too short and too generic,
    at the first attempt and without touching the cache (compare X9: with
    the blank name first the call raises). *)
Theorem compareTwoNames_blank_second_name
    (names syllables : gmap (list N) (list N)) (surnames : list (list N))
    (rulesIpa rulesSpelling : list rule) (nicknames : list (list (list N)))
    (name0 name1 surname : list N) (c : list (list N * list N)) :
  _cleanNameByItself lib name1 = [] ->
  last (py_split (lower lib (_cleanNameByItself lib name0))) = Some surname ->
  surname ∈ surnames ->
  exists d,
    compareTwoNames lib (NameComparator_init names syllables surnames rulesIpa rulesSpelling nicknames)
                    name0 name1 c = (Ok d, c)
    /\ match_ d = true /\ tooShort d = true /\ tooGeneric d = true.
Proof.
  intros H1 L S.
  set (self := NameComparator_init names syllables surnames rulesIpa rulesSpelling nicknames).
  unfold compareTwoNames. rewrite H1.
  set (n0 := _cleanNameByItself lib name0) in *.
  assert (Ect : _cleanNamesTogether lib n0 [] = Ok (n0, [])).
  { unfold _cleanNamesTogether. destruct (eqs n0 []); reflexivity. }
  unfold bindC at 1. unfold liftC at 1. rewrite Ect. cbn beta iota delta [fst snd].
  unfold bindC at 1. unfold liftC at 1. rewrite eitherNameTooShort_spec_aux.
  unfold bindC at 1. unfold liftC at 1.
  rewrite (eitherNameTooGeneric_blank_second self n0 surname L).
  2:{ unfold self. simpl. apply elem_of_list_to_set. exact S. }
  pose proof (removeNicknames_blank_second lib names syllables surnames rulesIpa rulesSpelling
                nicknames n0 [] eq_refl) as Hn.
  fold self in Hn.
  unfold bindC at 1. unfold liftC at 1. rewrite Hn. cbn beta iota delta [fst snd].
  unfold bindC at 1. unfold liftC at 1.
  rewrite (spellingComparison_blank_aux lib n0 [] (or_intror eq_refl)).
  cbn beta iota zeta delta [fst snd]. unfold retC.
  eexists. split; [reflexivity|]. simpl. repeat split.
  rewrite Nat.min_0_r. reflexivity.
Qed.

End BlankSecond.

(** ** The repairs of the name modifier *)

Section PairList.
Context (lib : externals).

Lemma getPairIndicesAndWords_ok (name0 name1 : list N) :
  exists pairs,
    _getPairIndicesAndWords lib name0 name1 = Ok pairs
    /\ Forall (fun p : nat * nat * list N * list N =>
                 py_split name0 !! p.1.1.1 = Some p.1.2
                 /\ py_split name1 !! p.1.1.2 = Some p.2) pairs.
Proof.
  unfold _getPairIndicesAndWords.
  destruct (findWhichWordsMatchAndHowWell_ok lib name0 name1) as (combo & -> & [_ _ _ Hw]).
  cbn beta iota delta [bindR].
  induction Hw as [|t c (w0 & w1 & H0 & H1 & _) _ (pairs & IH & Hp)]; simpl.
  - exists []. split; [reflexivity | constructor].
  - unfold idx at 1. rewrite H0. simpl. unfold idx at 1. rewrite H1. simpl.
    rewrite IH. simpl. eexists. split; [reflexivity|]. constructor; [|exact Hp]. simpl. auto.
Qed.

End PairList.

Section Repairs.
Context (R : list N -> list N -> Prop)
        (step : NameEditor -> nat * nat * list N * list N -> result NameEditor).
Hypothesis step_spec : forall ne i0 i1 w0 w1,
  step ne (i0, i1, w0, w1) = Ok ne
  \/ (R w0 w1 /\ step ne (i0, i1, w0, w1) = updateName0 ne i0 w1).

Lemma repair_fold (ws0 ws1 : list (list N)) (pairs : list (nat * nat * list N * list N))
    (ne : NameEditor) :
  Forall (fun p : nat * nat * list N * list N =>
            ws0 !! p.1.1.1 = Some p.1.2 /\ ws1 !! p.1.1.2 = Some p.2) pairs ->
  Forall2 (fun w0 w => w = w0 \/ (w ∈ ws1 /\ R w0 w)) ws0 (ne_words0 ne) ->
  exists ne', foldR step ne pairs = Ok ne'
    /\ ne_words1 ne' = ne_words1 ne
    /\ Forall2 (fun w0 w => w = w0 \/ (w ∈ ws1 /\ R w0 w)) ws0 (ne_words0 ne').
Proof using step_spec.
  intros Hp. revert ne. induction Hp as [|[[[i0 i1] w0] w1] pairs [H0 H1] _ IH]; intros ne Hne.
  - exists ne. simpl. auto.
  - simpl in H0, H1. cbn [foldR].
    destruct (step_spec ne i0 i1 w0 w1) as [E | [HR E]]; rewrite E.
    + cbn beta iota delta [bindR]. apply IH, Hne.
    + unfold updateName0, set_item.
      assert (Hlt : i0 < length (ne_words0 ne)).
      { rewrite <- (Forall2_length _ _ _ Hne). eapply lookup_lt_Some, H0. }
      destruct (decide (i0 < length (ne_words0 ne))); [|contradiction].
      cbn beta iota delta [bindR].
      destruct (IH {| ne_words0 := <[i0 := w1]> (ne_words0 ne); ne_words1 := ne_words1 ne |})
        as (ne' & E' & H1' & H2').
      * simpl. rewrite <- (list_insert_id ws0 i0 w0 H0).
        apply Forall2_insert; [exact Hne|]. right. split; [|exact HR].
        eapply list_elem_of_lookup_2, H1.
      * exists ne'. auto.
Qed.

Lemma repair_spec (lib : externals) (name0 name1 : list N) :
  exists words0',
    (pairs <- _getPairIndicesAndWords lib name0 name1;;
     ne <- foldR step (NameEditor_init name0 name1) pairs;;
     Ok (getModifiedNames ne))
    = Ok (py_join [space] words0', py_join [space] (py_split name1))
    /\ Forall2 (fun w0 w => w = w0 \/ (w ∈ py_split name1 /\ R w0 w)) (py_split name0) words0'.
Proof using step_spec.
  destruct (getPairIndicesAndWords_ok lib name0 name1) as (pairs & -> & Hp).
  cbn beta iota delta [bindR].
  destruct (repair_fold (py_split name0) (py_split name1) pairs (NameEditor_init name0 name1) Hp)
    as (ne' & -> & H1 & H2).
  - simpl. apply Forall2_same_length_lookup_2; [reflexivity|].
    intros i x y Hx Hy. left. congruence.
  - cbn beta iota delta [bindR]. exists (ne_words0 ne'). split; [|exact H2].
    unfold getModifiedNames. rewrite H1. reflexivity.
Qed.

End Repairs.

Section RepairSteps.
Context (lib : externals).

Lemma vowelScan_fold (word0 word1 : list N) (l : list nat) (st : option nat * bool * bool) :
  length word0 = length word1 ->
  Forall (fun i => i < length word0) l ->
  (forall m, st.1.1 = Some m -> m < length word0) ->
  exists st', foldR (vowelScanStep word0 word1) st l = Ok st'
              /\ (forall m, st'.1.1 = Some m -> m < length word0).
Proof.
  intros Hlen Hl. revert st. induction Hl as [|i l Hi _ IH]; intros st Hst; simpl; [eauto|].
  destruct st as [[mi tm] broke]. unfold vowelScanStep at 1.
  destruct broke; cbn beta iota delta [bindR]; [apply IH, Hst|].
  destruct (lookup_lt_is_Some_2 word0 i Hi) as [a Ha].
  destruct (lookup_lt_is_Some_2 word1 i ltac:(lia)) as [b Hb].
  unfold idx. rewrite Ha, Hb. cbn beta iota delta [bindR].
  destruct (eqc a b); [apply IH, Hst|].
  destruct mi as [[|m]|]; apply IH; simpl; intros m' [= <-]; try assumption.
  apply (Hst (S m) eq_refl).
Qed.

Lemma fixVowelMistakesStep_spec (ne : NameEditor) (i0 i1 : nat) (w0 w1 : list N) :
  fixVowelMistakesStep ne (i0, i1, w0, w1) = Ok ne
  \/ ((length w0 = length w1 /\ 5 <= length w0
       /\ exists i a b, w0 !! i = Some a /\ w1 !! i = Some b /\ a <> b
                        /\ ([a; b] ∈ cooresponding \/ [b; a] ∈ cooresponding))
      /\ fixVowelMistakesStep ne (i0, i1, w0, w1) = updateName0 ne i0 w1).
Proof.
  unfold fixVowelMistakesStep.
  destruct (bool_decide (length w0 < 5)) eqn:E0; [left; reflexivity|].
  destruct (bool_decide (length w1 < 5)) eqn:E1; [left; reflexivity|].
  destruct (bool_decide (length w0 = length w1)) eqn:E2; [|left; reflexivity].
  apply bool_decide_eq_false in E0. apply bool_decide_eq_true in E2.
  cbn beta iota zeta delta [negb].
  destruct (vowelScan_fold w0 w1 (seq 0 (length w0)) (None, false, false) E2)
    as (st & -> & Hst).
  { apply Forall_forall. intros i Hi. apply elem_of_seq in Hi. lia. }
  { discriminate. }
  cbn beta iota delta [bindR].
  destruct st as [[[m|] tm] broke]; [|left; reflexivity]. cbn beta iota delta [fst snd].
  destruct tm; [left; reflexivity|].
  specialize (Hst m eq_refl).
  destruct (lookup_lt_is_Some_2 w0 m Hst) as [a Ha].
  destruct (lookup_lt_is_Some_2 w1 m ltac:(lia)) as [b Hb].
  unfold idx. rewrite Ha, Hb. cbn beta iota delta [bindR].
  destruct (py_in [a; b] cooresponding || py_in [b; a] cooresponding) eqn:Ec; [|left; reflexivity].
  right. split; [|reflexivity]. split; [exact E2|]. split; [lia|].
  exists m, a, b. repeat split; try assumption.
  - intros ->. revert Ec. unfold py_in, cooresponding. simpl.
    rewrite !andb_true_r, !orb_false_r.
    unfold eqc. intros Hc. repeat (apply orb_true_iff in Hc as [Hc | Hc]);
      apply andb_true_iff in Hc as [H1 H2];
      apply N.eqb_eq in H1, H2; subst; discriminate.
  - apply orb_true_iff in Ec as [Ec | Ec]; [left | right];
      apply list_elem_of_In; unfold py_in in Ec; apply existsb_exists in Ec as (x & Hx & Ex);
      apply eqs_eq in Ex; subst; exact Hx.
Qed.

Lemma fixSwappedCharsStep_spec (ne : NameEditor) (i0 i1 : nat) (w0 w1 : list N) :
  fixSwappedCharsStep lib ne (i0, i1, w0, w1) = Ok ne
  \/ (swapApplies lib w0 w1 = true
      /\ fixSwappedCharsStep lib ne (i0, i1, w0, w1) = updateName0 ne i0 w1).
Proof.
  unfold fixSwappedCharsStep. destruct (swapApplies lib w0 w1); auto.
Qed.

Lemma dealWithWrongFirstCharStep_spec (ne : NameEditor) (i0 i1 : nat) (w0 w1 : list N) :
  dealWithWrongFirstCharStep ne (i0, i1, w0, w1) = Ok ne
  \/ ((w0 <> w1 /\ drop 1 w0 = drop 1 w1 /\ 4 < length w0)
      /\ dealWithWrongFirstCharStep ne (i0, i1, w0, w1) = updateName0 ne i0 w1).
Proof.
  unfold dealWithWrongFirstCharStep.
  destruct (eqs w0 w1) eqn:E; [left; reflexivity|].
  destruct (eqs (drop 1 w0) (drop 1 w1) && bool_decide (4 < length w0)
            && bool_decide (4 < length w1)) eqn:E'; [|left; reflexivity].
  right. split; [|reflexivity].
  apply andb_true_iff in E' as [E' _]. apply andb_true_iff in E' as [E1 E2].
  apply eqs_eq in E1. apply bool_decide_eq_true in E2. repeat split; try assumption.
  intros ->. rewrite (proj2 (eqs_eq w1 w1) eq_refl) in E. discriminate.
Qed.

(** X16. The vowel repair returns for every pair of names.  The second name
    comes back as its words joined by single spaces; the first name keeps its
    number of words, and each of its words is either unchanged or replaced by
    a word of the second name of the same length, at least five letters,
    that differs from it at some position by one of the letter pairs a/o,
    e/a, i/y. *)
Theorem fixVowelMistakes_spec (name0 name1 : list N) :
  exists words0',
    _fixVowelMistakes lib name0 name1
    = Ok (py_join [space] words0', py_join [space] (py_split name1))
    /\ Forall2 (fun w0 w =>
                  w = w0
                  \/ (w ∈ py_split name1
                      /\ length w0 = length w /\ 5 <= length w0
                      /\ exists i a b, w0 !! i = Some a /\ w !! i = Some b /\ a <> b
                           /\ ([a; b] ∈ cooresponding \/ [b; a] ∈ cooresponding)))
               (py_split name0) words0'.
Proof.
  apply (repair_spec _ fixVowelMistakesStep fixVowelMistakesStep_spec lib).
Qed.

(** X17. The swapped-letters repair returns for every pair of names.  The
    second name comes back as its words joined by single spaces; each word of
    the first name is either unchanged or replaced by a word of the second
    name for which the test of the loop holds. *)
Theorem fixSwappedChars_spec (name0 name1 : list N) :
  exists words0',
    _fixSwappedChars lib name0 name1
    = Ok (py_join [space] words0', py_join [space] (py_split name1))
    /\ Forall2 (fun w0 w => w = w0 \/ (w ∈ py_split name1 /\ swapApplies lib w0 w = true))
               (py_split name0) words0'.
Proof.
  apply (repair_spec _ (fixSwappedCharsStep lib) fixSwappedCharsStep_spec lib).
Qed.

(** X18. The first-letter repair returns for every pair of names.  The second
    name comes back as its words joined by single spaces; each word of the
    first name is either unchanged or replaced by a different word of the
    second name that agrees with it from the second letter on, the replaced
    word having more than four letters. *)
Theorem dealWithWrongFirstChar_spec (name0 name1 : list N) :
  exists words0',
    _dealWithWrongFirstChar lib name0 name1
    = Ok (py_join [space] words0', py_join [space] (py_split name1))
    /\ Forall2 (fun w0 w =>
                  w = w0
                  \/ (w ∈ py_split name1
                      /\ w0 <> w /\ drop 1 w0 = drop 1 w /\ 4 < length w0))
               (py_split name0) words0'.
Proof.
  apply (repair_spec _ dealWithWrongFirstCharStep dealWithWrongFirstCharStep_spec lib).
Qed.

End RepairSteps.

(** ** Prefix fusion *)

Lemma py_find_contains (s sub : list N) :
  contains s sub = true ->
  exists i, py_find s sub = Some i /\ startswith (drop i s) sub = true.
Proof.
  induction s as [|c s IH]; cbn [contains py_find].
  - rewrite orb_false_r. intros H. rewrite H. exists 0. auto.
  - destruct (startswith (c :: s) sub) eqn:E.
    + intros _. exists 0. auto.
    + simpl. intros H. destruct (IH H) as (i & -> & Hi). exists (S i). auto.
Qed.

Lemma search_lit_then_any_contains (text s : list N) :
  is_Some (Re.search (Re.lit_then_any text) s) -> contains s text = true.
Proof.
  intros [[a b] H]. unfold Re.search in H.
  apply search_go_spec in H as (pre & t & prev & n & -> & _ & _ & Hm).
  unfold Re.lit_then_any in Hm.
  destruct (startswith t text) eqn:E; [|discriminate].
  apply startswith_app in E as [r ->].
  apply (contains_app pre text r).
Qed.

Section PrefixFusion.
Context (lib : externals).

Lemma letter_after_three (name prefix : list N) :
  length prefix = 3 ->
  contains name (space :: prefix ++ [space]) = true ->
  exists i, py_index name (space :: prefix ++ [space]) = Ok i
            /\ idx name (i + 4) = Ok space.
Proof.
  intros Hlen Hc. destruct (py_find_contains _ _ Hc) as (i & Hi & Hs).
  unfold py_index. rewrite Hi. exists i. split; [reflexivity|].
  apply startswith_app in Hs as [t Ht].
  unfold idx. rewrite <- (lookup_drop name i 4), Ht.
  destruct prefix as [|a [|b [|c [|d p]]]]; try discriminate. reflexivity.
Qed.

(** X19. For a prefix of three letters (the source calls it with van) the
    letter that is compared sits at offset 4 from the match, which is the
    space that closes the prefix: whenever both names hold the prefix between
    spaces followed by a character, the prefix is fused with the next word in
    both names, whatever the letters that follow it. *)
Theorem combinePrefixWithSurnameifInBoth_three_letters (name0 name1 prefix : list N) :
  length prefix = 3 ->
  is_Some (Re.search (Re.lit_then_any (space :: prefix ++ [space])) name0) ->
  is_Some (Re.search (Re.lit_then_any (space :: prefix ++ [space])) name1) ->
  _combinePrefixWithSurnameifInBoth name0 name1 prefix
  = Ok (py_replace name0 (space :: prefix ++ [space]) (space :: prefix),
        py_replace name1 (space :: prefix ++ [space]) (space :: prefix)).
Proof.
  intros Hlen H0 H1. unfold _combinePrefixWithSurnameifInBoth.
  rewrite (bool_decide_eq_true_2 _ H0), (bool_decide_eq_true_2 _ H1).
  cbn beta iota zeta delta [negb orb].
  destruct (letter_after_three name0 prefix Hlen (search_lit_then_any_contains _ _ H0))
    as (i0 & E0 & L0).
  destruct (letter_after_three name1 prefix Hlen (search_lit_then_any_contains _ _ H1))
    as (i1 & E1 & L1).
  rewrite E0. cbn beta iota delta [bindR]. rewrite L0. cbn beta iota delta [bindR].
  rewrite E1. cbn beta iota delta [bindR]. rewrite L1. cbn beta iota delta [bindR].
  reflexivity.
Qed.

End PrefixFusion.

(** ** The rule engine returns *)

Section RuleEngine.
Context (lib : externals).

Lemma sandwichPair_fold (meat1 meat2 : list N) (bottoms tops : list (list N)) (minLetters : nat)
    (n0 n1 : nat) (pairs : list (nat * nat * list N * list N)) (ne : NameEditor) :
  Forall (fun p : nat * nat * list N * list N => p.1.1.1 < n0 /\ p.1.1.2 < n1) pairs ->
  length (ne_words0 ne) = n0 -> length (ne_words1 ne) = n1 ->
  exists ne', foldR (sandwichPairStep meat1 meat2 bottoms tops minLetters) ne pairs = Ok ne'
              /\ length (ne_words0 ne') = n0 /\ length (ne_words1 ne') = n1.
Proof.
  intros Hp. revert ne. induction Hp as [|[[[i0 i1] w0] w1] pairs [H0 H1] _ IH]; intros ne L0 L1.
  - exists ne. simpl. auto.
  - simpl in H0, H1. cbn [foldR]. unfold sandwichPairStep at 1.
    destruct (bool_decide (length w0 < minLetters) || bool_decide (length w1 < minLetters)).
    + cbn beta iota delta [bindR]. apply IH; assumption.
    + cbv zeta. unfold updateName0, updateName1, set_item.
      destruct (decide (i0 < length (ne_words0 ne))); [|lia].
      cbn beta iota delta [bindR ne_words0 ne_words1].
      destruct (decide (i1 < length (ne_words1 ne))); [|lia].
      cbn beta iota delta [bindR]. apply IH; simpl; rewrite length_insert; assumption.
Qed.

Lemma replaceSubstringSandwichMeatIfMatchingBread_returns (name0 name1 meat1 meat2 : list N)
    (bottoms tops : list (list N)) (minLetters : nat) :
  exists r,
    _replaceSubstringSandwichMeatIfMatchingBread lib name0 name1 meat1 meat2 bottoms tops minLetters
    = Ok r.
Proof.
  unfold _replaceSubstringSandwichMeatIfMatchingBread.
  destruct (_ || _); [eauto|].
  destruct (getPairIndicesAndWords_ok lib name0 name1) as (pairs & -> & Hp).
  cbn beta iota zeta delta [bindR].
  destruct (sandwichPair_fold meat1 meat2 bottoms tops minLetters
              (length (py_split name0)) (length (py_split name1)) pairs
              (NameEditor_init name0 name1)) as (ne' & -> & _); [| reflexivity | reflexivity |].
  - eapply Forall_impl; [exact Hp|]. intros p [H0 H1].
    split; eapply lookup_lt_Some; eassumption.
  - cbn beta iota delta [bindR]. eauto.
Qed.

(** X20. The rule engine never raises: for all names, every rule (given by
    literal texts) and every minimum length, the indices at which it writes
    the rewritten words back are inside the two word lists. *)
Theorem replaceSubstringSandwichMeatIfMatchingBread_total (name0 name1 meat1 meat2 : list N)
    (bottoms tops : list (list N)) (minLetters : nat) :
  exists r,
    _replaceSubstringSandwichMeatIfMatchingBread lib name0 name1 meat1 meat2 bottoms tops minLetters
    = Ok r.
Proof. apply replaceSubstringSandwichMeatIfMatchingBread_returns. Qed.

(** *** The rule engine fires *)






End RuleEngine.

(** ** The or-removal against a blank name *)

Lemma split_nil_blank (s : list N) : py_split s = [] -> Forall (fun c => isspace c = true) s.
Proof.
  induction s as [|c s IH]; [constructor|]. cbn [py_split].
  destruct (isspace c) eqn:E.
  - intros H. constructor; auto.
  - destruct s as [|c' s']; [discriminate|].
    destruct (isspace c'); [discriminate|].
    destruct (py_split (c' :: s')); discriminate.
Qed.

Lemma blank_contains_no_letter (s p : list N) (x : N) :
  Forall (fun c => isspace c = true) s -> x ∈ p -> isspace x = false -> contains s p = false.
Proof.
  intros Hs Hx Hn. destruct (contains s p) eqn:E; [|reflexivity].
  apply contains_spec in E as (a & b & ->).
  apply Forall_app in Hs as [_ Hs]. apply Forall_app in Hs as [Hs _].
  rewrite Forall_forall in Hs. rewrite (Hs x Hx) in Hn. discriminate.
Qed.

Section OrNames.
Context (lib : externals).

Lemma findWhich_blank (name0 name1 : list N) :
  py_split name0 = [] \/ py_split name1 = [] ->
  _findWhichWordsMatchAndHowWell lib name0 name1 = Ok [].
Proof.
  intros H.
  destruct (findWhichWordsMatchAndHowWell_ok lib name0 name1) as (combo & -> & [Hlen _ _ _]).
  assert (Hk : length (py_split name0) `min` length (py_split name1) = 0).
  { destruct H as [-> | ->]; simpl; lia. }
  rewrite Hk in Hlen. destruct combo; [reflexivity | discriminate].
Qed.

(** X22. When exactly one name holds the word or between spaces and the other
    name has no word, the or-removal raises [ZeroDivisionError]: the average
    score is taken over an empty word combination. *)
Theorem removeOrInNames_blank_other_name (name0 name1 : list N) :
  (contains (lower lib name0) (py " or ") = true /\ py_split (lower lib name1) = [])
  \/ (contains (lower lib name1) (py " or ") = true /\ py_split (lower lib name0) = []) ->
  _removeOrInNames lib name0 name1 = Raise ZeroDivisionError.
Proof.
  assert (Hno : forall s, py_split s = [] -> contains s (py " or ") = false).
  { intros s Hs. apply (blank_contains_no_letter s (py " or ") 111%N).
    - apply split_nil_blank, Hs.
    - right. left.
    - reflexivity. }
  intros [[Hc Hb] | [Hc Hb]]; unfold _removeOrInNames; rewrite Hc, (Hno _ Hb);
    cbn beta iota zeta delta [negb andb];
    rewrite findWhich_blank by (auto); reflexivity.
Qed.

End OrNames.

(** ** The phonetic encoder returns *)

Lemma unblanked_app (a b : list N) : unblanked (a ++ b) = unblanked a + unblanked b.
Proof. unfold unblanked. rewrite filter_app, length_app. reflexivity. Qed.

Lemma unblanked_spaces n : unblanked (repeat_char space n) = 0.
Proof.
  unfold unblanked, repeat_char. induction n as [|n IH]; [reflexivity|].
  simpl. rewrite filter_cons. destruct (decide (space <> space)); [contradiction | exact IH].
Qed.

Lemma unblanked_no_space (s : list N) : contains s [space] = false -> unblanked s = length s.
Proof.
  unfold unblanked. induction s as [|c s IH]; [reflexivity|].
  cbn [contains]. intros H. apply orb_false_iff in H as [H1 H2].
  rewrite filter_cons. destruct (decide (c <> space)) as [_|E].
  - simpl. f_equal. apply IH, H2.
  - exfalso. assert (c = space) as -> by (destruct (decide (c = space)); tauto).
    cbn [startswith] in H1. unfold eqc in H1. rewrite N.eqb_refl in H1. discriminate.
Qed.

(** Blanking [word[b:e]] after the trailing whitespace is stripped. *)
Lemma blank_shrinks (word : list N) (b e : nat) :
  b < e <= length word -> contains (py_slice word b e) [space] = false ->
  let word' := take b (py_rstrip word) ++ repeat_char space (e - b) ++ drop e (py_rstrip word) in
  length word' <= length word /\ unblanked word' < unblanked word.
Proof.
  intros Hbe Hns word'. destruct (rstrip_splits word) as [q Hq].
  set (r := py_rstrip word) in *.
  assert (Hlen : length word = length r + length q) by (rewrite Hq at 1; apply length_app).
  split.
  - unfold word'. rewrite !length_app, length_take, length_drop.
    unfold repeat_char. rewrite length_replicate. lia.
  - unfold word'. rewrite !unblanked_app, unblanked_spaces.
    assert (Hw : word = take b word ++ py_slice word b e ++ drop e word).
    { unfold py_slice. rewrite <- (take_drop b word) at 1. f_equal.
      rewrite <- (take_drop (e - b) (drop b word)) at 1.
      rewrite drop_drop. replace (b + (e - b)) with e by lia.
      f_equal. rewrite take_drop_commute. replace (b + (e - b)) with e by lia. reflexivity. }
    assert (Hcount : unblanked word
                     = unblanked (take b word) + (e - b) + unblanked (drop e word)).
    { rewrite Hw at 1. rewrite !unblanked_app, (unblanked_no_space _ Hns).
      unfold py_slice. rewrite length_drop, length_take. lia. }
    assert (H1 : unblanked (take b r) <= unblanked (take b word)).
    { rewrite Hq, take_app, unblanked_app. lia. }
    assert (H2 : unblanked (drop e r) <= unblanked (drop e word)).
    { rewrite Hq, drop_app, unblanked_app. lia. }
    lia.
Qed.

Section Encoder.
Context (lib : externals) (self : comparator).

Lemma substringSplitsTh_total (substring word : list N) (i j : nat) :
  i < j <= length word -> 1 < length substring ->
  exists b, substringSplitsTh substring word i j = Ok b.
Proof.
  intros Hij Hlen. unfold substringSplitsTh.
  rewrite bool_decide_eq_false_2 by lia.
  destruct substring as [|x t]; [simpl in Hlen; lia|].
  unfold idx at 1. cbn [lookup list_lookup bindR].
  assert (Hbefore : exists before, idxZ word (Z.of_nat i - 1) = Ok before).
  { unfold idxZ, idx. destruct (Z.of_nat i - 1 <? 0)%Z eqn:E.
    - apply Z.ltb_lt in E. rewrite (proj2 (Z.ltb_ge _ _)) by lia.
      destruct (lookup_lt_is_Some_2 word (Z.to_nat (Z.of_nat i - 1 + Z.of_nat (length word))))
        as [c ->]; [lia | eauto].
    - apply Z.ltb_ge in E.
      destruct (lookup_lt_is_Some_2 word (Z.to_nat (Z.of_nat i - 1))) as [c ->]; [lia | eauto]. }
  destruct Hbefore as [before ->].
  assert (Hlast : exists final, last_item (x :: t) = Ok final).
  { unfold last_item. destruct (last (x :: t)) eqn:E; [eauto|].
    apply last_None in E. discriminate. }
  destruct Hlast as [final ->].
  destruct (eqc x (ch "h")); cbn [bindR].
  - destruct (eqc before (ch "t")); [eauto|].
    destruct (Z.of_nat j <=? Z.of_nat (length word) - 1)%Z eqn:E; [|eauto].
    apply Z.leb_le in E. cbn [bindR]. destruct (eqc final (ch "t")); [|eauto].
    unfold idx. destruct (lookup_lt_is_Some_2 word j) as [c ->]; [lia | simpl; eauto].
  - destruct (Z.of_nat j <=? Z.of_nat (length word) - 1)%Z eqn:E; [|eauto].
    apply Z.leb_le in E. cbn [bindR]. destruct (eqc final (ch "t")); [|eauto].
    unfold idx. destruct (lookup_lt_is_Some_2 word j) as [c ->]; [lia | simpl; eauto].
Qed.

Lemma slice_length (word : list N) (i j : nat) :
  i < j <= length word -> length (py_slice word i j) = j - i.
Proof. intros H. unfold py_slice. rewrite length_drop, length_take. lia. Qed.

Lemma scanStep_total (word : list N) (st : scan) (ij : nat * nat) :
  ij.1 < ij.2 <= length word -> scan_ok word st ->
  exists st', scanStep self word st ij = Ok st' /\ scan_ok word st'.
Proof.
  destruct ij as [i j]. cbn [fst snd]. intros Hij Hst. unfold scanStep.
  pose proof (slice_length word i j Hij) as Hlen.
  destruct (bool_decide (length (py_slice word i j) <= largestSubstringLen st)); [eauto|].
  destruct (contains (py_slice word i j) [space]) eqn:Hsp; [eauto|].
  assert (Hchosen : forall p,
    scan_ok word {| substringAdded := true; largestSubstring := py_slice word i j;
                    pronunciationOfLargestSubstring := p;
                    largestSubstringLen := length (py_slice word i j);
                    beginningIndexOfSubstring := i; endIndexOfSubstring := j |}).
  { intros p. unfold scan_ok. cbn. repeat split; [lia | lia | exact Hlen | exact Hsp]. }
  destruct (bool_decide (1 < length (py_slice word i j))) eqn:H1.
  - apply bool_decide_eq_true in H1.
    destruct (contains (_convert self (py_slice word i j)) [star]); [eauto|].
    destruct (bool_decide _); [eauto|].
    destruct (substringSplitsTh_total (py_slice word i j) word i j Hij H1) as [b ->].
    cbn [bindR]. destruct b; eauto.
  - destruct (bool_decide (length (py_slice word i j) = 1)); eauto.
Qed.

Lemma substringBounds_spec (n : nat) (ij : nat * nat) :
  ij ∈ substringBounds n -> ij.1 < ij.2 <= n.
Proof.
  unfold substringBounds. rewrite list_elem_of_In, in_flat_map.
  intros (i & Hi & Hj). apply in_seq in Hi. apply in_map_iff in Hj as (j & <- & Hj).
  apply in_seq in Hj. simpl. lia.
Qed.

Lemma scan_total (word : list N) (l : list (nat * nat)) (st : scan) :
  Forall (fun ij => ij.1 < ij.2 <= length word) l -> scan_ok word st ->
  exists st', foldR (scanStep self word) st l = Ok st' /\ scan_ok word st'.
Proof.
  intros Hl. revert st. induction Hl as [|ij l Hij _ IH]; intros st Hst; simpl; [eauto|].
  destruct (scanStep_total word st ij Hij Hst) as (st1 & -> & Hst1). cbn [bindR].
  apply IH, Hst1.
Qed.

Lemma encodeLoop_total (fuel : nat) (word : list N) (pronunciationList : list (list N)) :
  unblanked word < fuel -> length word <= length pronunciationList ->
  exists r, encodeLoop self fuel word pronunciationList = Ok r.
Proof.
  revert word pronunciationList.
  induction fuel as [|fuel IH]; intros word pl Hfuel Hlen; [lia|].
  cbn [encodeLoop].
  destruct (scan_total word (substringBounds (length word))
              {| substringAdded := false; largestSubstring := [];
                 pronunciationOfLargestSubstring := []; largestSubstringLen := 0;
                 beginningIndexOfSubstring := 0; endIndexOfSubstring := 0 |})
    as (st & -> & Hst).
  { apply Forall_forall. intros ij Hij. apply substringBounds_spec, Hij. }
  { unfold scan_ok. cbn. auto. }
  cbn [bindR]. unfold scan_ok in Hst.
  destruct (substringAdded st); [|eauto].
  destruct Hst as (Hbe & Hl & Hns).
  unfold set_item. destruct (decide _) as [_|Hbad]; [|lia]. cbn [bindR].
  pose proof (blank_shrinks word _ _ Hbe Hns) as [Hshort Hless]. rewrite <- Hl in *.
  apply IH; [lia|]. rewrite length_insert. lia.
Qed.

(** The encoder returns a transcription for every word. *)
Lemma getIpaOfOneWord_body_returns (word : list N) :
  exists ipa, getIpaOfOneWord_body lib self word = Ok ipa.
Proof.
  unfold getIpaOfOneWord_body. cbv zeta.
  destruct (negb _); [eauto|].
  set (w := lower lib (unidecode lib (py_replace word [space] []))).
  destruct (encodeLoop_total (S (length w)) w (replicate (length w) [])) as [r ->].
  - unfold unblanked. pose proof (length_filter (fun c => c <> space) w). lia.
  - rewrite length_replicate. lia.
  - cbn [bindR]. eauto.
Qed.

(** X23. The phonetic encoder returns a transcription for every word and
    all tables: the loop that blanks the substring it has just encoded ends
    (a round that adds a substring blanks at least one letter), and no index
    of the scan or of the pronunciation list is out of range. *)
Theorem getIpaOfOneWord_body_total (word : list N) :
  exists ipa, getIpaOfOneWord_body lib self word = Ok ipa.
Proof. apply getIpaOfOneWord_body_returns. Qed.

End Encoder.

(** ** The pronunciation matcher *)

Section Pronunciation.
Context (lib : externals) (self : comparator).

Lemma getIpaOfOneWord_returns (word : list N) (c : list (list N * list N)) :
  exists ipa c', _getIpaOfOneWord lib self word c = (Ok ipa, c').
Proof.
  unfold _getIpaOfOneWord, lru_cache.
  destruct (cache_find c word) as [v|]; [eauto|].
  destruct (getIpaOfOneWord_body_returns lib self word) as [ipa ->]. eauto.
Qed.

(** X24. The memoized encoder returns a transcription on every cache, sound
    or not; on a sound cache it is the one the wrapped function returns. *)
Theorem getIpaOfOneWord_total (word : list N) (c : list (list N * list N)) :
  exists ipa,
    (_getIpaOfOneWord lib self word c).1 = Ok ipa
    /\ (cache_ok lib self c -> getIpaOfOneWord_body lib self word = Ok ipa).
Proof.
  unfold _getIpaOfOneWord, lru_cache.
  destruct (cache_find c word) as [v|] eqn:E.
  - exists v. split; [reflexivity|]. intros Hc. eapply cache_find_ok; eauto.
  - destruct (getIpaOfOneWord_body_returns lib self word) as [ipa Hipa].
    rewrite Hipa. exists ipa. split; [reflexivity|]. intros _. reflexivity.
Qed.

Lemma mapC_getIpaOfOneWord_returns (words : list (list N)) (c : list (list N * list N)) :
  exists ipas c', mapC (_getIpaOfOneWord lib self) words c = (Ok ipas, c')
                  /\ length ipas = length words.
Proof.
  revert c. induction words as [|w ws IH]; intros c; simpl.
  - exists [], c. split; reflexivity.
  - unfold bindC at 1. destruct (getIpaOfOneWord_returns w c) as (ipa & c1 & ->).
    unfold bindC at 1. destruct (IH c1) as (ipas & c2 & -> & Hlen).
    unfold retC. exists (ipa :: ipas), c2. simpl. auto.
Qed.

Lemma getPronunciation_returns (name : list N) (c : list (list N * list N)) :
  exists ipas c', _getPronunciation lib self name c = (Ok (py_join [space] ipas), c')
                  /\ length ipas = length (py_split name).
Proof.
  unfold _getPronunciation, bindC.
  destruct (mapC_getIpaOfOneWord_returns (py_split name) c) as (ipas & c' & -> & Hlen).
  unfold retC. eauto.
Qed.

Lemma applyRule_total (n : list N * list N) (r : rule) : exists n', applyRule lib n r = Ok n'.
Proof. unfold applyRule. apply replaceSubstringSandwichMeatIfMatchingBread_returns. Qed.

Lemma applyRules_total (rules : list rule) (n : list N * list N) :
  exists n', foldR (applyRule lib) n rules = Ok n'.
Proof.
  revert n. induction rules as [|r rules IH]; intros n; simpl; [eauto|].
  destruct (applyRule_total n r) as [n' ->]. simpl. apply IH.
Qed.

(** X21. The pair-aware rewriting of two transcriptions returns for every
    table of rules. *)
Theorem modifyIpasTogether_total (ipa0 ipa1 : list N) :
  exists r, _modifyIpasTogether lib self ipa0 ipa1 = Ok r.
Proof. apply applyRules_total. Qed.


Lemma applyRule_keeps_blank (n : list N * list N) (r : rule) :
  py_split n.1 = [] \/ py_split n.2 = [] ->
  exists n', applyRule lib n r = Ok n'
             /\ (py_split n.1 = [] -> py_split n'.1 = [])
             /\ (py_split n.2 = [] -> py_split n'.2 = []).
Proof.
  intros Hb. unfold applyRule, _replaceSubstringSandwichMeatIfMatchingBread.
  destruct (_ || _); [exists n; destruct n; auto|].
  unfold _getPairIndicesAndWords. rewrite (findWhich_blank lib n.1 n.2 Hb).
  cbn beta iota zeta delta [bindR mapR foldR].
  eexists. split; [reflexivity|]. unfold getModifiedNames, NameEditor_init. simpl.
  split; intros ->; reflexivity.
Qed.

Lemma applyRules_keep_blank (rules : list rule) (n : list N * list N) :
  py_split n.1 = [] \/ py_split n.2 = [] ->
  exists n', foldR (applyRule lib) n rules = Ok n'
             /\ (py_split n'.1 = [] \/ py_split n'.2 = []).
Proof.
  revert n. induction rules as [|r rules IH]; intros n Hb; simpl; [eauto|].
  destruct (applyRule_keeps_blank n r Hb) as (n' & -> & H1 & H2). simpl.
  apply IH. destruct Hb; auto.
Qed.

Lemma cleanIpa_nil : _cleanIpa [] = [].
Proof. reflexivity. Qed.

(** X25. When either name has no word, the pronunciation matcher raises
    [ValueError], whatever the tables and the cache: the transcriptions are
    computed, the one of the blank name stays blank through the rules, and
    the minimum is taken over an empty combination. *)
Theorem pronunciationComparison_blank_name (name0 name1 : list N) (c : list (list N * list N)) :
  py_split name0 = [] \/ py_split name1 = [] ->
  (_pronunciationComparison lib self name0 name1 c).1 = Raise ValueError.
Proof.
  intros Hb. unfold _pronunciationComparison.
  unfold bindC at 1. unfold liftC at 1. rewrite (findWhich_blank lib name0 name1 Hb).
  destruct (getPronunciation_returns name0 c) as (ipas0 & c0 & E0 & L0).
  unfold bindC at 1. rewrite E0.
  destruct (getPronunciation_returns name1 c0) as (ipas1 & c1 & E1 & L1).
  unfold bindC at 1. rewrite E1.
  destruct (applyRules_keep_blank (ipaRules self)
              (_cleanIpa (py_join [space] ipas0), _cleanIpa (py_join [space] ipas1)))
    as (n' & En & Hn).
  { destruct Hb as [Hb | Hb]; [left | right]; cbn [fst snd].
    - rewrite Hb in L0. destruct ipas0; [|discriminate].
      cbn [py_join]. rewrite cleanIpa_nil. reflexivity.
    - rewrite Hb in L1. destruct ipas1; [|discriminate].
      cbn [py_join]. rewrite cleanIpa_nil. reflexivity. }
  unfold bindC at 1. unfold liftC at 1. unfold _modifyIpasTogether. rewrite En.
  cbv zeta.
  assert (Hk : length (py_split n'.1) `min` length (py_split n'.2) = 0).
  { destruct Hn as [-> | ->]; cbn [length]; lia. }
  rewrite Hk. unfold bindC at 1. unfold liftC at 1.
  assert (Hbest : forall scores : list (nat * nat * Z),
            max_by sum_scores (filter (fun c => valid_combo c = true) (combinations scores 0))
            = Ok []).
  { intros scores. destruct scores; reflexivity. }
  rewrite Hbest. unfold bindC at 1. unfold liftC at 1. reflexivity.
Qed.

End Pronunciation.

(** ** The consonant comparison *)

Section Consonants.
Context (lib : externals).

Lemma consonantMatchCount_le (name0 name1 : list N) (combo : list (nat * nat * Z)) :
  aligned lib name0 name1 combo ->
  exists count, consonantMatchCount lib name0 name1 combo = Ok count /\ count <= length combo.
Proof.
  intros [_ _ _ H]. unfold consonantMatchCount.
  cut (forall acc, exists count,
         foldR (fun n tup => b <- consonantPairMatches lib name0 name1 tup;;
                             Ok (if (b : bool) then n + 1 else n)) acc combo = Ok count
         /\ count <= acc + length combo).
  { intros Hacc. apply (Hacc 0). }
  induction H as [|t c (w0 & w1 & H0 & H1 & _) _ IH]; intros acc; cbn [foldR length].
  - exists acc. split; [reflexivity | lia].
  - destruct (consonantPairMatches_ok lib name0 name1 t) as [b ->]; [eauto | eauto |].
    cbn beta iota delta [bindR].
    destruct (IH (if b then acc + 1 else acc)) as (count & -> & Hle).
    exists count. split; [reflexivity|]. destruct b; lia.
Qed.

(** X26. The consonant comparison returns for every pair of names.  Its
    count of consonant matches never exceeds the number of pairs, so the
    first test of its verdict (more matches than pairs) never holds: the
    verdict is true exactly when at least three pairs are consonant matches,
    and is false whenever the shorter name has fewer than three words. *)
Theorem consonantComparison_spec (name0 name1 : list N) :
  exists combo count,
    _findWhichWordsMatchAndHowWell lib name0 name1 = Ok combo
    /\ consonantMatchCount lib name0 name1 combo = Ok count
    /\ count <= length (py_split name0) `min` length (py_split name1)
    /\ _consonantComparison lib name0 name1 = Ok (bool_decide (3 <= count)).
Proof.
  destruct (findWhichWordsMatchAndHowWell_ok lib name0 name1) as (combo & Hc & Hal).
  destruct (consonantMatchCount_le name0 name1 combo Hal) as (count & Hn & Hle).
  exists combo, count. split; [exact Hc|]. split; [exact Hn|].
  split; [rewrite <- (al_length _ _ _ _ Hal); exact Hle|].
  unfold _consonantComparison. rewrite Hc. cbn beta iota zeta delta [bindR].
  rewrite Hn. cbn beta iota delta [bindR].
  rewrite (bool_decide_eq_false_2 (length combo < count)) by lia. reflexivity.
Qed.

(** X27. When the shorter name has fewer than three words, the consonant
    skeletons never rescue a spelling mismatch: the spelling matcher reports
    a match exactly when every pair of the combination of the aligner has a
    score above 80. *)
Theorem spellingComparison_short_names (name0 name1 : list N) :
  length (py_split name0) `min` length (py_split name1) < 3 ->
  exists combo,
    _spellingComparison lib name0 name1
    = Ok (bool_decide (Forall (fun t => (80 < e_score t)%Z) combo), combo)
    /\ _findWhichWordsMatchAndHowWell lib name0 name1 = Ok combo.
Proof.
  intros Hshort.
  destruct (findWhichWordsMatchAndHowWell_ok lib name0 name1) as (combo & Hc & Hal).
  destruct (consonantMatchCount_le name0 name1 combo Hal) as (count & Hn & Hle).
  pose proof (al_length _ _ _ _ Hal) as Hlen.
  exists combo. split; [|exact Hc].
  assert (Hgood : goodScoreCount combo = length combo
                  <-> Forall (fun t => (80 < e_score t)%Z) combo).
  { unfold goodScoreCount. clear. induction combo as [|t c IH].
    - split; [constructor | reflexivity].
    - rewrite filter_cons. destruct (decide (80 < e_score t)%Z) as [Ht|Ht]; cbn [length].
      + split.
        * intros [= E]. constructor; [exact Ht | apply IH, E].
        * intros H. inversion H; subst. f_equal. apply IH. assumption.
      + split.
        * intros E. pose proof (length_filter (fun t => (80 < e_score t)%Z) c). lia.
        * intros H. inversion H; subst. contradiction. }
  unfold _spellingComparison. rewrite Hc. cbn beta iota zeta delta [bindR].
  rewrite <- Hlen.
  assert (H3 : bool_decide (3 <= goodScoreCount combo) = false).
  { apply bool_decide_eq_false_2. unfold goodScoreCount.
    pose proof (length_filter (fun t => (80 < e_score t)%Z) combo). lia. }
  rewrite H3. cbn [orb].
  destruct (bool_decide (goodScoreCount combo = length combo)) eqn:E.
  - apply bool_decide_eq_true in E. rewrite bool_decide_eq_true_2 by (apply Hgood, E). reflexivity.
  - apply bool_decide_eq_false in E.
    rewrite (bool_decide_eq_false_2 (Forall _ combo)) by (rewrite <- Hgood; exact E).
    unfold _consonantComparison. rewrite Hc. cbn beta iota zeta delta [bindR].
    rewrite Hn. cbn beta iota delta [bindR].
    rewrite (bool_decide_eq_false_2 (length combo < count)) by lia.
    rewrite (bool_decide_eq_false_2 (3 <= count)) by lia. reflexivity.
Qed.

End Consonants.


(** ** The loop that combines split words ends *)

Lemma py_split_words (s : list N) :
  Forall (fun w => w <> [] /\ Forall (fun c => isspace c = false) w) (py_split s).
Proof.
  induction s as [|c s IH]; cbn [py_split]; [constructor|].
  destruct (isspace c) eqn:Ec; [exact IH|].
  destruct s as [|c' s'].
  - repeat constructor; [discriminate | exact Ec].
  - destruct (isspace c') eqn:Ec'.
    + constructor; [|exact IH]. split; [discriminate | repeat constructor; exact Ec].
    + destruct (py_split (c' :: s')) as [|w ws].
      * repeat constructor; [discriminate | exact Ec].
      * inversion IH as [|? ? [Hw1 Hw2] Hws]; subst.
        constructor; [|exact Hws]. split; [discriminate | constructor; assumption].
Qed.

Lemma split_word_space (w s : list N) :
  Forall (fun c => isspace c = false) w ->
  py_split (w ++ space :: s) = if decide (w = []) then py_split s else w :: py_split s.
Proof.
  induction 1 as [|c w Hc Hw IH].
  - reflexivity.
  - cbn [app py_split]. rewrite Hc.
    destruct w as [|c' w'].
    + reflexivity.
    + cbn [app] in *. inversion Hw as [|? ? Hc' _]; subst. rewrite Hc'.
      rewrite IH. destruct (decide (c' :: w' = [])); [discriminate|].
      destruct (decide (c :: c' :: w' = [])); [discriminate | reflexivity].
Qed.

Lemma split_word (w : list N) :
  Forall (fun c => isspace c = false) w ->
  py_split w = if decide (w = []) then [] else [w].
Proof.
  induction 1 as [|c w Hc Hw IH].
  - reflexivity.
  - cbn [py_split]. rewrite Hc. destruct w as [|c' w']; [reflexivity|].
    inversion Hw as [|? ? Hc' _]; subst. rewrite Hc'. rewrite IH.
    destruct (decide (c' :: w' = [])); [discriminate|].
    destruct (decide (c :: c' :: w' = [])); [discriminate | reflexivity].
Qed.

Lemma split_join (ws : list (list N)) :
  Forall (Forall (fun c => isspace c = false)) ws ->
  py_split (py_join [space] ws) = filter (fun w => w <> []) ws.
Proof.
  induction 1 as [|w ws Hw Hws IH]; [reflexivity|].
  cbn [py_join]. destruct ws as [|w' ws'].
  - rewrite (split_word w Hw), filter_cons, filter_nil.
    destruct (decide (w = [])), (decide (w <> [])); try reflexivity; tauto.
  - cbn [app]. rewrite (split_word_space w _ Hw), IH, (filter_cons _ w).
    destruct (decide (w = [])), (decide (w <> [])); try reflexivity; tauto.
Qed.

Lemma filter_blanked (l : list (list N)) (i : nat) :
  Forall (fun w => w <> []) l -> i < length l ->
  length (filter (fun w => w <> []) (<[i := []]> l)) = length l - 1.
Proof.
  intros H. revert i. induction H as [|w l Hw Hl IH]; intros i Hi; [simpl in Hi; lia|].
  assert (Hall : length (filter (fun w : list N => w <> []) l) = length l).
  { clear -Hl. induction Hl as [|x l Hx _ IH]; [reflexivity|].
    rewrite filter_cons. destruct (decide (x <> [])); [|contradiction]. simpl. f_equal. exact IH. }
  destruct i as [|i]; cbn [insert list_insert].
  - rewrite filter_cons. destruct (decide ([] <> [])); [contradiction|].
    rewrite Hall. simpl. lia.
  - rewrite filter_cons. destruct (decide (w <> [])); [|contradiction].
    simpl in Hi. cbn [length]. rewrite IH by lia. lia.
Qed.

Section CombineSplitWords.
Context (lib : externals).

Lemma spellingComparison_returns (name0 name1 : list N) :
  exists r, _spellingComparison lib name0 name1 = Ok r.
Proof.
  unfold _spellingComparison.
  destruct (findWhichWordsMatchAndHowWell_ok lib name0 name1) as (combo & Hc & Hal).
  rewrite Hc. cbn beta iota zeta delta [bindR].
  destruct (_ || _); [eauto|].
  unfold _consonantComparison. rewrite Hc. cbn beta iota zeta delta [bindR].
  destruct (consonantMatchCount_ok lib name0 name1 combo Hal) as (count & ->).
  cbn beta iota delta [bindR]. destruct (_ || _); eauto.
Qed.

Lemma averageScore_returns (name0 name1 : list N) :
  1 <= length (py_split name0) -> 1 <= length (py_split name1) ->
  exists combo f, _findWhichWordsMatchAndHowWell lib name0 name1 = Ok combo
                  /\ averageScore combo = Ok f.
Proof.
  intros H0 H1.
  destruct (findWhichWordsMatchAndHowWell_ok lib name0 name1) as (combo & Hc & [Hlen _ _ _]).
  exists combo. unfold averageScore, truediv.
  destruct (Z.eqb_spec (Z.of_nat (length combo)) 0) as [E|E]; [lia|]. eauto.
Qed.

Lemma calculateEditImprovement_returns (name0 name1 name0Edited name1Edited : list N) :
  1 <= length (py_split name0) -> 1 <= length (py_split name1) ->
  1 <= length (py_split name0Edited) -> 1 <= length (py_split name1Edited) ->
  exists r, _calculateEditImprovement lib name0 name1 name0Edited name1Edited = Ok r.
Proof.
  intros H0 H1 H2 H3. unfold _calculateEditImprovement.
  destruct (averageScore_returns name0 name1 H0 H1) as (c1 & f1 & -> & E1).
  destruct (averageScore_returns name0Edited name1Edited H2 H3) as (c2 & f2 & -> & E2).
  cbn beta iota delta [bindR]. rewrite E1. cbn beta iota delta [bindR]. rewrite E2.
  cbn beta iota zeta delta [bindR]. eauto.
Qed.

(** One round of the loop over the pairs: nothing, a refusal with the names
    as they were, or a first name with one word less. *)
Lemma combineSplitWordsStep_cases (name0 name1 : list N) (i0 i1 : nat) (w0 w1 : list N) :
  3 <= length (py_split name0) ->
  py_split name0 !! i0 = Some w0 -> py_split name1 !! i1 = Some w1 ->
  exists r, combineSplitWordsStep lib name0 name1 (py_split name0) (i0, i1, w0, w1) = Ok r
    /\ (r = None \/ r = Some (false, name0, name1)
        \/ exists name0', r = Some (true, name0', name1)
                          /\ length (py_split name0') < length (py_split name0)).
Proof.
  intros Hthree H0 H1. set (ws0 := py_split name0) in *.
  pose proof (py_split_words name0) as Hwords. fold ws0 in Hwords.
  assert (Hi0 : i0 < length ws0) by (eapply lookup_lt_Some, H0).
  assert (Hw0 : w0 <> [] /\ Forall (fun c => isspace c = false) w0).
  { exact (Forall_lookup_1 _ _ _ _ Hwords H0). }
  unfold combineSplitWordsStep.
  destruct (_ <? 75)%Z; [eauto|].
  destruct (_ || _); [eauto|].
  (* the neighbours *)
  assert (Hleft : exists l, (if bool_decide (1 <= i0) then idx ws0 (i0 - 1) else Ok []) = Ok l
                  /\ (1 < length l -> 1 <= i0 /\ ws0 !! (i0 - 1) = Some l)).
  { destruct (bool_decide (1 <= i0)) eqn:E.
    - apply bool_decide_eq_true in E.
      destruct (lookup_lt_is_Some_2 ws0 (i0 - 1) ltac:(lia)) as [l Hl].
      exists l. unfold idx. rewrite Hl. auto.
    - exists []. split; [reflexivity|]. simpl. lia. }
  destruct Hleft as (l & -> & Hl). cbn beta iota delta [bindR].
  assert (Hright : exists r, (if bool_decide (i0 + 1 < length ws0) then idx ws0 (i0 + 1) else Ok [])
                             = Ok r
                   /\ (1 < length r -> i0 + 1 < length ws0 /\ ws0 !! (i0 + 1) = Some r)).
  { destruct (bool_decide (i0 + 1 < length ws0)) eqn:E.
    - apply bool_decide_eq_true in E.
      destruct (lookup_lt_is_Some_2 ws0 (i0 + 1) E) as [r Hr].
      exists r. unfold idx. rewrite Hr. auto.
    - exists []. split; [reflexivity|]. simpl. lia. }
  destruct Hright as (r & -> & Hr). cbn beta iota zeta delta [bindR].
  set (left := if bool_decide (1 < length l) then l else []).
  set (right := if bool_decide (1 < length r) then r else []).
  assert (Eleft : left = [] \/ (left = l /\ 1 <= i0 /\ ws0 !! (i0 - 1) = Some l)).
  { unfold left. destruct (bool_decide (1 < length l)) eqn:E; [|auto].
    apply bool_decide_eq_true in E. right. split; [reflexivity | auto]. }
  assert (Eright : right = [] \/ (right = r /\ i0 + 1 < length ws0 /\ ws0 !! (i0 + 1) = Some r)).
  { unfold right. destruct (bool_decide (1 < length r)) eqn:E; [|auto].
    apply bool_decide_eq_true in E. right. split; [reflexivity | auto]. }
  clearbody left right.
  destruct (eqs left [] && eqs right []) eqn:Eboth; [eauto|].
  set (chosenLeft := if eqs left [] then false
                     else if eqs right [] then true
                     else (fuzz_partial_ratio lib right w1 <? fuzz_partial_ratio lib left w1)%Z).
  (* the compound and the index of the neighbour *)
  assert (Hchoice : exists compound iN,
            compound = (if chosenLeft then left ++ w0 else w0 ++ right)
            /\ iN = (if chosenLeft then i0 - 1 else i0 + 1)
            /\ iN < length ws0 /\ iN <> i0
            /\ compound <> [] /\ Forall (fun c => isspace c = false) compound).
  { eexists _, _. split; [reflexivity|]. split; [reflexivity|].
    unfold chosenLeft.
    destruct (eqs left []) eqn:El.
    - apply eqs_eq in El. subst left. cbn [andb] in Eboth.
      destruct Eright as [-> | (-> & Hlt & Hlook)]; [discriminate|].
      pose proof (Forall_lookup_1 _ _ _ _ Hwords Hlook) as [_ Hsp].
      repeat split; [lia | lia | | apply Forall_app; tauto].
      destruct w0; [tauto | discriminate].
    - destruct Eleft as [-> | (-> & Hge & Hlook)]; [discriminate|].
      pose proof (Forall_lookup_1 _ _ _ _ Hwords Hlook) as [Hne Hsp].
      destruct (eqs right []) eqn:Er.
      + repeat split; [lia | lia | | apply Forall_app; tauto].
        destruct l; [tauto | discriminate].
      + destruct Eright as [-> | (-> & Hlt & Hlook')]; [discriminate|].
        pose proof (Forall_lookup_1 _ _ _ _ Hwords Hlook') as [_ Hsp'].
        destruct (_ <? _)%Z.
        * repeat split; [lia | lia | | apply Forall_app; tauto].
          destruct l; [tauto | discriminate].
        * repeat split; [lia | lia | | apply Forall_app; tauto].
          destruct w0; [tauto | discriminate]. }
  destruct Hchoice as (compound & iN & <- & <- & HiN & Hne & Hcne & Hcsp).
  fold chosenLeft. clearbody chosenLeft.
  destruct (_ <? 65)%Z; [eauto|].
  destruct (_ <? _ + 20)%Z; [eauto|].
  destruct (bool_decide (_ < _)); [eauto|].
  unfold updateName0, set_item, NameEditor_init. cbn [ne_words0 ne_words1]. fold ws0.
  destruct (decide (i0 < length ws0)); [|contradiction].
  cbn beta iota delta [bindR ne_words0 ne_words1].
  destruct (decide (iN < length (<[i0 := compound]> ws0))) as [_|Hbad];
    [|rewrite length_insert in Hbad; contradiction].
  cbn beta iota zeta delta [bindR ne_words0 ne_words1 getModifiedNames fst snd].
  set (edited := py_join [space] (<[iN := []]> (<[i0 := compound]> ws0))).
  assert (Hcount : length (py_split edited) = length ws0 - 1).
  { unfold edited. rewrite split_join.
    - rewrite filter_blanked.
      + rewrite length_insert. reflexivity.
      + apply Forall_insert; [|exact Hcne].
        eapply Forall_impl; [exact Hwords|]. intros w [Hw _]. exact Hw.
      + rewrite length_insert. exact HiN.
    - apply Forall_insert; [|constructor].
      apply Forall_insert; [|exact Hcsp].
      eapply Forall_impl; [exact Hwords|]. intros w [_ Hw]. exact Hw. }
  destruct (calculateEditImprovement_returns name0 name1 edited name1) as [imp ->].
  - fold ws0. lia.
  - apply lookup_lt_Some in H1. lia.
  - lia.
  - apply lookup_lt_Some in H1. lia.
  - cbn beta iota zeta delta [bindR].
    destruct (PrimFloat.ltb _ _); [|eauto].
    eexists. split; [reflexivity|]. right. right. exists edited. split; [reflexivity|].
    fold ws0. lia.
Qed.

Lemma combineSplitWords_forReturn (name0 name1 : list N)
    (pairs : list (nat * nat * list N * list N)) :
  3 <= length (py_split name0) ->
  Forall (fun p : nat * nat * list N * list N =>
            py_split name0 !! p.1.1.1 = Some p.1.2
            /\ py_split name1 !! p.1.1.2 = Some p.2) pairs ->
  exists r, forReturn (combineSplitWordsStep lib name0 name1 (py_split name0)) pairs
                      (false, name0, name1) = Ok r
    /\ (r = (false, name0, name1)
        \/ exists name0', r = (true, name0', name1)
                          /\ length (py_split name0') < length (py_split name0)).
Proof.
  intros Hthree. induction 1 as [|[[[i0 i1] w0] w1] pairs [H0 H1] _ IH]; cbn [forReturn].
  - eauto.
  - cbn [fst snd] in H0, H1.
    destruct (combineSplitWordsStep_cases name0 name1 i0 i1 w0 w1 Hthree H0 H1)
      as (r & -> & [-> | [-> | (n0' & -> & Hlt)]]); cbn beta iota delta [bindR].
    + exact IH.
    + eauto.
    + eexists. split; [reflexivity|]. right. eauto.
Qed.

Lemma combineSplitWords_cases (name0 name1 : list N) :
  exists r, _combineSplitWords lib name0 name1 = Ok r
    /\ (r = (false, name0, name1)
        \/ exists name0', r = (true, name0', name1)
                          /\ length (py_split name0') < length (py_split name0)).
Proof.
  unfold _combineSplitWords. cbv zeta.
  destruct (bool_decide (length (py_split name0) < 3)) eqn:E; [eauto|].
  apply bool_decide_eq_false in E.
  destruct (spellingComparison_returns name0 name1) as [sc ->]. cbn beta iota delta [bindR].
  destruct (sc.1); [eauto|].
  destruct (getPairIndicesAndWords_ok lib name0 name1) as (pairs & -> & Hp).
  cbn beta iota delta [bindR].
  apply combineSplitWords_forReturn; [lia | exact Hp].
Qed.

Lemma combineUntilStable_returns (fuel : nat) (name0 name1 : list N) :
  length (py_split name0) < fuel ->
  exists name0', combineUntilStable lib fuel name0 name1 = Ok (name0', name1)
                 /\ length (py_split name0') <= length (py_split name0).
Proof.
  revert name0. induction fuel as [|fuel IH]; intros name0 Hfuel; [lia|].
  cbn [combineUntilStable].
  destruct (combineSplitWords_cases name0 name1) as (r & -> & [-> | (n0' & -> & Hlt)]);
    cbn beta iota zeta delta [bindR fst snd].
  - eauto.
  - destruct (IH n0' ltac:(lia)) as (n0'' & -> & Hle). exists n0''. split; [reflexivity | lia].
Qed.

(** X28. The loop of the pair-aware cleaner that combines split words ends
    and never raises: started on any two names with the bound the model
    gives it (one more than the length of the first name), it returns; the
    second name is returned as it was, and the first name has no more words
    than before (every round that combines leaves it with one word less). *)
Theorem combineUntilStable_total (name0 name1 : list N) :
  exists name0',
    combineUntilStable lib (S (length name0)) name0 name1 = Ok (name0', name1)
    /\ length (py_split name0') <= length (py_split name0).
Proof.
  apply combineUntilStable_returns. pose proof (py_split_length name0). lia.
Qed.

End CombineSplitWords.

(** ** The consonant skeleton *)

Lemma squeeze_repeats_Forall (P : N -> Prop) (prev : option N) (s : list N) :
  Forall P s -> Forall P (Re.squeeze_repeats prev s).
Proof.
  intros H. revert prev. induction H as [|c s Hc _ IH]; intros prev; simpl; [constructor|].
  destruct (_ && _); auto.
Qed.

Lemma squeeze_repeats_adjacent (prev : option N) (s : list N) :
  (forall c, head (Re.squeeze_repeats prev s) = Some c -> prev = Some c -> c = newline)
  /\ (forall i c, Re.squeeze_repeats prev s !! i = Some c ->
                  Re.squeeze_repeats prev s !! S i = Some c -> c = newline).
Proof.
  revert prev. induction s as [|c s IH]; intros prev.
  - split; [discriminate|]. intros i x H. cbn [Re.squeeze_repeats] in H. destruct i; discriminate.
  - cbn [Re.squeeze_repeats].
    destruct (bool_decide (prev = Some c) && negb (eqc c newline)) eqn:E.
    + apply IH.
    + destruct (IH (Some c)) as [Hhead Hadj]. split.
      * cbn [head]. intros x [= <-] Hp.
        rewrite (bool_decide_eq_true_2 _ Hp) in E. cbn [andb] in E.
        apply negb_false_iff, eqc_eq in E. exact E.
      * intros [|i] x.
        -- cbn [lookup list_lookup]. intros [= <-] Hx. apply Hhead; [|reflexivity].
           destruct (Re.squeeze_repeats (Some c) s); [discriminate | exact Hx].
        -- cbn [lookup list_lookup]. apply Hadj.
Qed.

(** X29. The consonant skeleton of a word holds none of the letters a, e, i,
    o, u, y, and no character twice in a row (a newline aside, which the dot
    of the pattern does not match). *)
Theorem reduceToSimpleConsonants_shape (string : list N) :
  Forall (fun c => is_vowel c = false) (reduceToSimpleConsonants string)
  /\ forall i c, reduceToSimpleConsonants string !! i = Some c ->
                 reduceToSimpleConsonants string !! S i = Some c -> c = newline.
Proof.
  unfold reduceToSimpleConsonants. cbv zeta. split.
  - apply squeeze_repeats_Forall, replace_Forall; [repeat constructor|].
    apply Forall_fmap, Forall_forall. intros c _. simpl.
    destruct (is_vowel c) eqn:E; [reflexivity | exact E].
  - apply squeeze_repeats_adjacent.
Qed.


(** ** The properties at concrete names *)

Lemma eitherNameTooGeneric_rare_surnames_witness :
  _eitherNameTooGeneric refLib refTables (py "john smith") (py "jon smyth") = Ok false.
Proof.
  apply (eitherNameTooGeneric_rare_surnames refLib refTables (py "john smith") (py "jon smyth")
           (py "smith") (py "smyth")).
  - reflexivity.
  - reflexivity.
  - apply not_elem_of_empty.
  - apply not_elem_of_empty.
Defined.

Lemma eitherNameTooGeneric_common_surname_witness :
  _eitherNameTooGeneric refLib (NameComparator_init ∅ ∅ [py "smith"] [] [] [])
                        (py "john smith") (py "jon smith") = Ok false.
Proof.
  destruct (eitherNameTooGeneric_common_surname refLib
              (NameComparator_init ∅ ∅ [py "smith"] [] [] [])
              (py "john smith") (py "jon smith") (py "smith") (py "smith")) as [_ H].
  - reflexivity.
  - reflexivity.
  - left. apply elem_of_list_to_set. left.
  - apply H; repeat constructor; simpl; lia.
Defined.

Lemma spellingComparison_blank_witness :
  _spellingComparison refLib [] (py "john smith") = Ok (true, []).
Proof. apply (spellingComparison_blank refLib [] (py "john smith")). left. reflexivity. Defined.

Lemma spellingComparison_self_witness :
  exists combo, _spellingComparison refLib (py "john smith") (py "john smith") = Ok (true, combo)
                /\ Forall (fun t => e_score t = 100%Z) combo.
Proof.
  apply (spellingComparison_self refLib (py "john smith")).
  - repeat constructor; vm_compute; discriminate.
  - repeat constructor.
Defined.

Lemma compareTwoNames_blank_first_name_witness :
  compareTwoNames refLib refTables (py "Dr.") (py "John Smith") []
  = (Raise IndexError, []).
Proof.
  apply (compareTwoNames_blank_first_name_raises refLib refTables (py "Dr.") (py "John Smith") []).
  vm_compute. reflexivity.
Defined.

Lemma compareTwoNames_blank_second_name_witness :
  exists d,
    compareTwoNames refLib (NameComparator_init ∅ ∅ [py "smith"] [] [] [])
                    (py "John Smith") (py "Dr.") [] = (Ok d, [])
    /\ match_ d = true /\ tooShort d = true /\ tooGeneric d = true.
Proof.
  apply (compareTwoNames_blank_second_name refLib ∅ ∅ [py "smith"] [] [] []
           (py "John Smith") (py "Dr.") (py "smith") []).
  - vm_compute. reflexivity.
  - vm_compute. reflexivity.
  - left.
Defined.

Lemma cleanNameByItself_blank_witness :
  _cleanNameByItself refLib [32%N; 9%N; 32%N] = py "_".
Proof. apply (cleanNameByItself_blank refLib). repeat constructor. Defined.

Lemma combinePrefixWithSurnameifInBoth_witness :
  _combinePrefixWithSurnameifInBoth (py "john van buren") (py "jan van dyke") (py "van")
  = Ok (py_replace (py "john van buren") (space :: py "van" ++ [space]) (space :: py "van"),
        py_replace (py "jan van dyke") (space :: py "van" ++ [space]) (space :: py "van")).
Proof.
  apply (combinePrefixWithSurnameifInBoth_three_letters (py "john van buren") (py "jan van dyke")
           (py "van")).
  - reflexivity.
  - eexists. vm_compute. reflexivity.
  - eexists. vm_compute. reflexivity.
Defined.

Lemma removeOrInNames_blank_other_name_witness :
  _removeOrInNames refLib (py "mary or marie smith") (py " ") = Raise ZeroDivisionError.
Proof.
  apply (removeOrInNames_blank_other_name refLib (py "mary or marie smith") (py " ")).
  left. split; vm_compute; reflexivity.
Defined.

Lemma pronunciationComparison_blank_name_witness :
  (_pronunciationComparison refLib refTables (py "john smith") [] []).1 = Raise ValueError.
Proof.
  apply (pronunciationComparison_blank_name refLib refTables (py "john smith") [] []).
  right. reflexivity.
Defined.

Lemma spellingComparison_short_names_witness :
  exists combo,
    _spellingComparison refLib (py "john smith") (py "jon smyth")
    = Ok (bool_decide (Forall (fun t => (80 < e_score t)%Z) combo), combo)
    /\ _findWhichWordsMatchAndHowWell refLib (py "john smith") (py "jon smyth") = Ok combo.
Proof.
  apply (spellingComparison_short_names refLib (py "john smith") (py "jon smyth")).
  vm_compute. lia.
Defined.


(** The same call, evaluated: both names come back with the second meat. *)
Example replaceSubstringSandwichMeatIfMatchingBread_ex :
  _replaceSubstringSandwichMeatIfMatchingBread refLib (py "stephen smith") (py "stefen smith")
    (py "ph") (py "f") [py "a"; py "e"; py "i"] [py "o"; py "e"; py "u"] 3
  = Ok (py "stefen smith", py "stefen smith").
Proof. vm_compute. reflexivity. Qed.

Lemma removeNicknames_total_witness :
  exists name0',
    _removeNicknames refLib (NameComparator_init ∅ ∅ [] [] [] [[py "bill"; py "william"]])
                     (py "bill smith") (py "william smith")
    = Ok (name0', py "william smith").
Proof.
  apply (removeNicknames_total refLib ∅ ∅ [] [] [] [[py "bill"; py "william"]]
           (py "bill smith") (py "william smith")).
  - intros l x H. apply (elem_of_remove_dups l x). exact H.
  - repeat constructor.
Defined.

(** The same call, evaluated, and a call whose word holds a regex operator:
    there the pattern is not the literal word and the model stops. *)
Example removeNicknames_ex :
  _removeNicknames refLib (NameComparator_init ∅ ∅ [] [] [] [[py "bill"; py "william"]])
                   (py "bill smith") (py "william smith")
  = Ok (py "william smith", py "william smith").
Proof. vm_compute. reflexivity. Qed.

Example removeNicknames_not_literal_ex :
  _removeNicknames refLib (NameComparator_init ∅ ∅ [] [] [] [[py "a["; py "b"]])
                   (py "a[ x") (py "b x")
  = Raise NotLiteral.
Proof. vm_compute. reflexivity. Qed.
